(** * VibeSphere WebXR media browser: a shallow embedding of [src/main.js]

    The script keeps a handful of module-level variables, a video element and
    a small scene of meshes, and reacts to DOM, XR, media and animation-frame
    events.  The embedding below follows the script function by function:

    - JavaScript numbers are IEEE 754 binary64 values, here Rocq's primitive
      [float]; [Math.min], [Math.max], truthiness and [%] are written out.
    - JavaScript strings are sequences of UTF-16 code units.
    - Handlers run in a state-and-exception monad in which the state reached
      at a [throw] is kept, as a [try]/[catch] in the script observes it.
    - The rendering library and the browser are not part of the script: ray
      casts arrive as event data, [Math.sin] is a parameter, and the media
      element changes its clock through events of its own.
    - Text written into the page (labels, overlays) and [console.log] lines
      are never read back by the script and are left out; what [reportError]
      writes is kept. *)

From Stdlib Require Import ZArith NArith Bool List String Ascii Lia.
From Stdlib Require Import DecimalString Floats.
Import ListNotations.

Set Warnings "-inexact-float".

(* ================================================================== *)
(** ** The language layer: numbers and strings *)
(* ================================================================== *)

Module JS.

Local Open Scope float_scope.

(** [Boolean(x)] of a number: [0], [-0] and [NaN] are falsy. *)
Definition truthy (x : float) : bool := negb (is_nan x || is_zero x).

Definition is_neg_zero (x : float) : bool := is_zero x && get_sign x.
Definition is_pos_zero (x : float) : bool := is_zero x && negb (get_sign x).

(** [Math.min(a, b)] and [Math.max(a, b)]: [NaN] is contagious and
    [-0] is below [+0]. *)
Definition Math_min (a b : float) : float :=
  if is_nan a || is_nan b then nan
  else if a <? b then a
  else if b <? a then b
  else if is_neg_zero a then a else b.

Definition Math_max (a b : float) : float :=
  if is_nan a || is_nan b then nan
  else if b <? a then a
  else if a <? b then b
  else if is_pos_zero a then a else b.

(** An array index or a small count read as a number. *)
Definition of_nat (n : nat) : float :=
  PrimFloat.of_uint63 (Uint63.of_Z (Z.of_nat n)).

(** [a % b] on integers: the remainder takes the sign of the dividend.  The
    script only divides by the length of a list it has found non-empty. *)
Definition rem (a b : Z) : Z := Z.rem a b.

(** A string is its sequence of UTF-16 code units. *)
Definition str : Type := list N.

Definition lit (s : string) : str :=
  List.map N_of_ascii (list_ascii_of_string s).

Definition str_eq_dec : forall a b : str, {a = b} + {a <> b} :=
  list_eq_dec N.eq_dec.

Definition str_eqb (a b : str) : bool :=
  if str_eq_dec a b then true else false.

(** [Boolean(s)] of a string: only the empty string is falsy. *)
Definition nonempty (s : str) : bool :=
  match s with [] => false | _ :: _ => true end.

(** White space and line terminators of ECMAScript, as code units. *)
Definition is_white_space (c : N) : bool :=
  (N.eqb c 9 || N.eqb c 10 || N.eqb c 11 || N.eqb c 12 || N.eqb c 13
   || N.eqb c 32 || N.eqb c 160 || N.eqb c 5760
   || (N.leb 8192 c && N.leb c 8202)
   || N.eqb c 8232 || N.eqb c 8233 || N.eqb c 8239 || N.eqb c 8287
   || N.eqb c 12288 || N.eqb c 65279)%bool.

Fixpoint trim_start (s : str) : str :=
  match s with
  | c :: rest => if is_white_space c then trim_start rest else s
  | [] => []
  end.

(** [s.trim()] *)
Definition trim (s : str) : str :=
  rev (trim_start (rev (trim_start s))).

Fixpoint starts_with (p s : str) : bool :=
  match p, s with
  | [], _ => true
  | a :: p', b :: s' => N.eqb a b && starts_with p' s'
  | _ :: _, [] => false
  end.

(** [s.includes(p)] *)
Fixpoint includes (s p : str) : bool :=
  starts_with p s ||
  match s with
  | [] => false
  | _ :: s' => includes s' p
  end.

End JS.

(* ================================================================== *)
(** ** The catalogue: playlists and trending items *)
(* ================================================================== *)

(** One entry of [trendingItems].  An absent [playlistId] and the empty
    string are both falsy, and are not told apart. *)
Record Item := {
  id : Z;
  title : JS.str;
  color : Z;
  description : JS.str;
  playlistId : JS.str
}.

(** The object literal [playlists]: its own keys, in the order written. *)
Definition Playlists : Type := list (JS.str * list JS.str).

(** [playlists[key]]: [None] is [undefined]. *)
Fixpoint lookup (table : Playlists) (key : JS.str) : option (list JS.str) :=
  match table with
  | [] => None
  | (k, urls) :: rest => if JS.str_eq_dec k key then Some urls else lookup rest key
  end.

(** [list[i]] for an integer [i]: [None] is [undefined]. *)
Definition at_index (list : list JS.str) (i : Z) : option JS.str :=
  if (i <? 0)%Z then None else nth_error list (Z.to_nat i).

Module Catalog.

Definition bucket : string :=
  "https://commondatastorage.googleapis.com/gtv-videos-bucket/sample/".

Definition sample (file : string) : JS.str :=
  Eval vm_compute in JS.lit (bucket ++ file).

Definition playlists : Playlists :=
  Eval vm_compute in
  [ (JS.lit "creators", [sample "BigBuckBunny.mp4"; sample "ElephantsDream.mp4"]);
    (JS.lit "music", [sample "ForBiggerJoyrides.mp4"; sample "ForBiggerBlazes.mp4"]);
    (JS.lit "gaming", [sample "ForBiggerEscapes.mp4"; sample "ForBiggerFun.mp4"]);
    (JS.lit "news", [sample "Sintel.mp4"; sample "TearsOfSteel.mp4"]) ].

Definition trendingItems : list Item :=
  Eval vm_compute in
  [ {| id := 1; title := JS.lit "Top Creator Clips"; color := 0xff7b7b;
       description := JS.lit "A curated wall of viral creator moments.";
       playlistId := JS.lit "creators" |};
    {| id := 2; title := JS.lit "Global Music Vibes"; color := 0x7be0ff;
       description := JS.lit "Relaxing ocean view loop.";
       playlistId := JS.lit "music" |};
    {| id := 3; title := JS.lit "Gaming Highlights"; color := 0x9d7bff;
       description := JS.lit "Fast paced race footage.";
       playlistId := JS.lit "gaming" |};
    {| id := 4; title := JS.lit "News & Explainers"; color := 0xffc857;
       description := JS.lit "Short explainer style clip.";
       playlistId := JS.lit "news" |} ].

End Catalog.

(* ================================================================== *)
(** ** Objects: the media element and the meshes of the scene *)
(* ================================================================== *)

(** What the script throws or receives as a rejection: an object with a
    [name] and a [message]. *)
Record exn := { name : JS.str; message : JS.str }.

Definition Error (msg : JS.str) : exn :=
  {| name := JS.lit "Error"; message := msg |}.

(** Raised by the engine on a property access through [null] or
    [undefined], and by a DOM setter handed a non-finite number. *)
Definition TypeError (what : string) : exn :=
  {| name := JS.lit "TypeError"; message := JS.lit what |}.

(** Raised by the [volume] setter outside the range 0 to 1. *)
Definition IndexSizeError : exn :=
  {| name := JS.lit "IndexSizeError"; message := JS.lit "volume out of range" |}.

(** The closure assigned to [onended] by [playFromPlaylist]: it captures the
    playlist id and the list the id named. *)
Record EndedClosure := {
  captured_id : JS.str;
  captured_list : list JS.str
}.

(** The [<video id="vs-video">] element, as far as the script reads and
    writes it.  [onloadeddata] is [true] when the handler
    [() => playVideo()] is installed, the only one ever assigned. *)
Record Video := {
  src : JS.str;
  crossOrigin : option JS.str;
  muted : bool;
  loop : bool;
  playsInline : bool;
  volume : float;
  currentTime : float;
  duration : float;
  paused : bool;
  loads : nat;
  mediaError : option Z;
  onloadeddata : bool;
  onended : option EndedClosure
}.

Record Vector3 := { x : float; y : float; z : float }.

Definition vec (a b c : float) : Vector3 := {| x := a; y := b; z := c |}.

Record Material := {
  emissive : option Z;
  emissiveIntensity : float
}.

(** A panel mesh; [userData_item] is [mesh.userData.item]. *)
Record Panel := {
  userData_item : option Item;
  userData_baseScale : float;
  position : Vector3;
  rotation_y : float;
  scale : Vector3;
  material : option Material
}.

(** A screen mesh showing the video texture. *)
Record Screen := {
  screen_position : Vector3;
  screen_rotation_y : float
}.

Record Texture := { needsUpdate : bool }.

(** The module-level variables of the script.  The array [panels] and
    [panelGroup.children] hold the same meshes in the same order: the group
    carries them, and a mesh is referred to by its position.  [screens] are
    the screen meshes added to the scene so far, [curvedScreen] refers to one
    of them.  [errors] is what [reportError] has written, latest first, and
    [pendingPlay] counts the promises of [play()] not yet settled. *)
Record State := {
  panelGroup : option (list Panel);
  screens : list Screen;
  curvedScreen : option nat;
  videoTexture : option Texture;
  htmlVideo : option Video;
  currentItem : option Item;
  currentPlaylistId : option JS.str;
  currentPlaylistIndex : Z;
  audioEnabled : bool;
  isPlaying : bool;
  hoveredPanel : option nat;
  errors : list (string * exn);
  pendingPlay : nat
}.

(** The array [panels]. *)
Definition panels (s : State) : list Panel :=
  match panelGroup s with
  | Some children => children
  | None => []
  end.

(** The variables as the script declares them. *)
Definition globals : State :=
  {| panelGroup := None; screens := []; curvedScreen := None;
     videoTexture := None; htmlVideo := None; currentItem := None;
     currentPlaylistId := None; currentPlaylistIndex := 0;
     audioEnabled := false; isPlaying := false; hoveredPanel := None;
     errors := []; pendingPlay := 0 |}.

(** *** Field updates *)

Definition with_src (u : JS.str) (v : Video) : Video :=
  {| src := u; crossOrigin := crossOrigin v; muted := muted v; loop := loop v;
     playsInline := playsInline v; volume := volume v;
     currentTime := currentTime v; duration := duration v; paused := paused v;
     loads := loads v; mediaError := mediaError v;
     onloadeddata := onloadeddata v; onended := onended v |}.

Definition with_crossOrigin (c : option JS.str) (v : Video) : Video :=
  {| src := src v; crossOrigin := c; muted := muted v; loop := loop v;
     playsInline := playsInline v; volume := volume v;
     currentTime := currentTime v; duration := duration v; paused := paused v;
     loads := loads v; mediaError := mediaError v;
     onloadeddata := onloadeddata v; onended := onended v |}.

Definition with_muted (b : bool) (v : Video) : Video :=
  {| src := src v; crossOrigin := crossOrigin v; muted := b; loop := loop v;
     playsInline := playsInline v; volume := volume v;
     currentTime := currentTime v; duration := duration v; paused := paused v;
     loads := loads v; mediaError := mediaError v;
     onloadeddata := onloadeddata v; onended := onended v |}.

Definition with_loop (b : bool) (v : Video) : Video :=
  {| src := src v; crossOrigin := crossOrigin v; muted := muted v; loop := b;
     playsInline := playsInline v; volume := volume v;
     currentTime := currentTime v; duration := duration v; paused := paused v;
     loads := loads v; mediaError := mediaError v;
     onloadeddata := onloadeddata v; onended := onended v |}.

Definition with_playsInline (b : bool) (v : Video) : Video :=
  {| src := src v; crossOrigin := crossOrigin v; muted := muted v; loop := loop v;
     playsInline := b; volume := volume v;
     currentTime := currentTime v; duration := duration v; paused := paused v;
     loads := loads v; mediaError := mediaError v;
     onloadeddata := onloadeddata v; onended := onended v |}.

Definition with_volume (f : float) (v : Video) : Video :=
  {| src := src v; crossOrigin := crossOrigin v; muted := muted v; loop := loop v;
     playsInline := playsInline v; volume := f;
     currentTime := currentTime v; duration := duration v; paused := paused v;
     loads := loads v; mediaError := mediaError v;
     onloadeddata := onloadeddata v; onended := onended v |}.

Definition with_currentTime (f : float) (v : Video) : Video :=
  {| src := src v; crossOrigin := crossOrigin v; muted := muted v; loop := loop v;
     playsInline := playsInline v; volume := volume v;
     currentTime := f; duration := duration v; paused := paused v;
     loads := loads v; mediaError := mediaError v;
     onloadeddata := onloadeddata v; onended := onended v |}.

Definition with_duration (f : float) (v : Video) : Video :=
  {| src := src v; crossOrigin := crossOrigin v; muted := muted v; loop := loop v;
     playsInline := playsInline v; volume := volume v;
     currentTime := currentTime v; duration := f; paused := paused v;
     loads := loads v; mediaError := mediaError v;
     onloadeddata := onloadeddata v; onended := onended v |}.

Definition with_paused (b : bool) (v : Video) : Video :=
  {| src := src v; crossOrigin := crossOrigin v; muted := muted v; loop := loop v;
     playsInline := playsInline v; volume := volume v;
     currentTime := currentTime v; duration := duration v; paused := b;
     loads := loads v; mediaError := mediaError v;
     onloadeddata := onloadeddata v; onended := onended v |}.

Definition with_loads (n : nat) (v : Video) : Video :=
  {| src := src v; crossOrigin := crossOrigin v; muted := muted v; loop := loop v;
     playsInline := playsInline v; volume := volume v;
     currentTime := currentTime v; duration := duration v; paused := paused v;
     loads := n; mediaError := mediaError v;
     onloadeddata := onloadeddata v; onended := onended v |}.

Definition with_mediaError (c : option Z) (v : Video) : Video :=
  {| src := src v; crossOrigin := crossOrigin v; muted := muted v; loop := loop v;
     playsInline := playsInline v; volume := volume v;
     currentTime := currentTime v; duration := duration v; paused := paused v;
     loads := loads v; mediaError := c;
     onloadeddata := onloadeddata v; onended := onended v |}.

Definition with_onloadeddata (b : bool) (v : Video) : Video :=
  {| src := src v; crossOrigin := crossOrigin v; muted := muted v; loop := loop v;
     playsInline := playsInline v; volume := volume v;
     currentTime := currentTime v; duration := duration v; paused := paused v;
     loads := loads v; mediaError := mediaError v;
     onloadeddata := b; onended := onended v |}.

Definition with_onended (h : option EndedClosure) (v : Video) : Video :=
  {| src := src v; crossOrigin := crossOrigin v; muted := muted v; loop := loop v;
     playsInline := playsInline v; volume := volume v;
     currentTime := currentTime v; duration := duration v; paused := paused v;
     loads := loads v; mediaError := mediaError v;
     onloadeddata := onloadeddata v; onended := h |}.

Definition with_position (p : Vector3) (m : Panel) : Panel :=
  {| userData_item := userData_item m; userData_baseScale := userData_baseScale m;
     position := p; rotation_y := rotation_y m; scale := scale m;
     material := material m |}.

Definition with_y (f : float) (p : Vector3) : Vector3 :=
  {| x := x p; y := f; z := z p |}.

Definition with_scale (sc : Vector3) (m : Panel) : Panel :=
  {| userData_item := userData_item m; userData_baseScale := userData_baseScale m;
     position := position m; rotation_y := rotation_y m; scale := sc;
     material := material m |}.

Definition with_material (mat : option Material) (m : Panel) : Panel :=
  {| userData_item := userData_item m; userData_baseScale := userData_baseScale m;
     position := position m; rotation_y := rotation_y m; scale := scale m;
     material := mat |}.

Definition set_panelGroup (g : option (list Panel)) (s : State) : State :=
  {| panelGroup := g; screens := screens s; curvedScreen := curvedScreen s;
     videoTexture := videoTexture s; htmlVideo := htmlVideo s;
     currentItem := currentItem s; currentPlaylistId := currentPlaylistId s;
     currentPlaylistIndex := currentPlaylistIndex s;
     audioEnabled := audioEnabled s; isPlaying := isPlaying s;
     hoveredPanel := hoveredPanel s; errors := errors s;
     pendingPlay := pendingPlay s |}.

Definition set_screens (l : list Screen) (s : State) : State :=
  {| panelGroup := panelGroup s; screens := l; curvedScreen := curvedScreen s;
     videoTexture := videoTexture s; htmlVideo := htmlVideo s;
     currentItem := currentItem s; currentPlaylistId := currentPlaylistId s;
     currentPlaylistIndex := currentPlaylistIndex s;
     audioEnabled := audioEnabled s; isPlaying := isPlaying s;
     hoveredPanel := hoveredPanel s; errors := errors s;
     pendingPlay := pendingPlay s |}.

Definition set_curvedScreen (c : option nat) (s : State) : State :=
  {| panelGroup := panelGroup s; screens := screens s; curvedScreen := c;
     videoTexture := videoTexture s; htmlVideo := htmlVideo s;
     currentItem := currentItem s; currentPlaylistId := currentPlaylistId s;
     currentPlaylistIndex := currentPlaylistIndex s;
     audioEnabled := audioEnabled s; isPlaying := isPlaying s;
     hoveredPanel := hoveredPanel s; errors := errors s;
     pendingPlay := pendingPlay s |}.

Definition set_videoTexture (t : option Texture) (s : State) : State :=
  {| panelGroup := panelGroup s; screens := screens s;
     curvedScreen := curvedScreen s;
     videoTexture := t; htmlVideo := htmlVideo s;
     currentItem := currentItem s; currentPlaylistId := currentPlaylistId s;
     currentPlaylistIndex := currentPlaylistIndex s;
     audioEnabled := audioEnabled s; isPlaying := isPlaying s;
     hoveredPanel := hoveredPanel s; errors := errors s;
     pendingPlay := pendingPlay s |}.

Definition set_htmlVideo (v : option Video) (s : State) : State :=
  {| panelGroup := panelGroup s; screens := screens s;
     curvedScreen := curvedScreen s;
     videoTexture := videoTexture s; htmlVideo := v;
     currentItem := currentItem s; currentPlaylistId := currentPlaylistId s;
     currentPlaylistIndex := currentPlaylistIndex s;
     audioEnabled := audioEnabled s; isPlaying := isPlaying s;
     hoveredPanel := hoveredPanel s; errors := errors s;
     pendingPlay := pendingPlay s |}.

Definition set_currentItem (i : option Item) (s : State) : State :=
  {| panelGroup := panelGroup s; screens := screens s;
     curvedScreen := curvedScreen s;
     videoTexture := videoTexture s; htmlVideo := htmlVideo s;
     currentItem := i; currentPlaylistId := currentPlaylistId s;
     currentPlaylistIndex := currentPlaylistIndex s;
     audioEnabled := audioEnabled s; isPlaying := isPlaying s;
     hoveredPanel := hoveredPanel s; errors := errors s;
     pendingPlay := pendingPlay s |}.

Definition set_currentPlaylistId (p : option JS.str) (s : State) : State :=
  {| panelGroup := panelGroup s; screens := screens s;
     curvedScreen := curvedScreen s;
     videoTexture := videoTexture s; htmlVideo := htmlVideo s;
     currentItem := currentItem s; currentPlaylistId := p;
     currentPlaylistIndex := currentPlaylistIndex s;
     audioEnabled := audioEnabled s; isPlaying := isPlaying s;
     hoveredPanel := hoveredPanel s; errors := errors s;
     pendingPlay := pendingPlay s |}.

Definition set_currentPlaylistIndex (i : Z) (s : State) : State :=
  {| panelGroup := panelGroup s; screens := screens s;
     curvedScreen := curvedScreen s;
     videoTexture := videoTexture s; htmlVideo := htmlVideo s;
     currentItem := currentItem s; currentPlaylistId := currentPlaylistId s;
     currentPlaylistIndex := i;
     audioEnabled := audioEnabled s; isPlaying := isPlaying s;
     hoveredPanel := hoveredPanel s; errors := errors s;
     pendingPlay := pendingPlay s |}.

Definition set_audioEnabled (b : bool) (s : State) : State :=
  {| panelGroup := panelGroup s; screens := screens s;
     curvedScreen := curvedScreen s;
     videoTexture := videoTexture s; htmlVideo := htmlVideo s;
     currentItem := currentItem s; currentPlaylistId := currentPlaylistId s;
     currentPlaylistIndex := currentPlaylistIndex s;
     audioEnabled := b; isPlaying := isPlaying s;
     hoveredPanel := hoveredPanel s; errors := errors s;
     pendingPlay := pendingPlay s |}.

Definition set_isPlaying (b : bool) (s : State) : State :=
  {| panelGroup := panelGroup s; screens := screens s;
     curvedScreen := curvedScreen s;
     videoTexture := videoTexture s; htmlVideo := htmlVideo s;
     currentItem := currentItem s; currentPlaylistId := currentPlaylistId s;
     currentPlaylistIndex := currentPlaylistIndex s;
     audioEnabled := audioEnabled s; isPlaying := b;
     hoveredPanel := hoveredPanel s; errors := errors s;
     pendingPlay := pendingPlay s |}.

Definition set_hoveredPanel (h : option nat) (s : State) : State :=
  {| panelGroup := panelGroup s; screens := screens s;
     curvedScreen := curvedScreen s;
     videoTexture := videoTexture s; htmlVideo := htmlVideo s;
     currentItem := currentItem s; currentPlaylistId := currentPlaylistId s;
     currentPlaylistIndex := currentPlaylistIndex s;
     audioEnabled := audioEnabled s; isPlaying := isPlaying s;
     hoveredPanel := h; errors := errors s;
     pendingPlay := pendingPlay s |}.

Definition set_errors (l : list (string * exn)) (s : State) : State :=
  {| panelGroup := panelGroup s; screens := screens s;
     curvedScreen := curvedScreen s;
     videoTexture := videoTexture s; htmlVideo := htmlVideo s;
     currentItem := currentItem s; currentPlaylistId := currentPlaylistId s;
     currentPlaylistIndex := currentPlaylistIndex s;
     audioEnabled := audioEnabled s; isPlaying := isPlaying s;
     hoveredPanel := hoveredPanel s; errors := l;
     pendingPlay := pendingPlay s |}.

Definition set_pendingPlay (n : nat) (s : State) : State :=
  {| panelGroup := panelGroup s; screens := screens s;
     curvedScreen := curvedScreen s;
     videoTexture := videoTexture s; htmlVideo := htmlVideo s;
     currentItem := currentItem s; currentPlaylistId := currentPlaylistId s;
     currentPlaylistIndex := currentPlaylistIndex s;
     audioEnabled := audioEnabled s; isPlaying := isPlaying s;
     hoveredPanel := hoveredPanel s; errors := errors s;
     pendingPlay := n |}.

(** Replace the element at a position of a list; the list is returned as
    it is when the position is past its end. *)
Fixpoint update_nth {A : Type} (n : nat) (f : A -> A) (l : list A) : list A :=
  match l, n with
  | [], _ => []
  | a :: rest, O => f a :: rest
  | a :: rest, S n' => a :: update_nth n' f rest
  end.

(* ================================================================== *)
(** ** Handlers as computations: state that survives a throw *)
(* ================================================================== *)

Definition M (A : Type) : Type := State -> State * (exn + A).

Definition ret {A : Type} (a : A) : M A := fun s => (s, inr a).

Definition bind {A B : Type} (m : M A) (k : A -> M B) : M B :=
  fun s =>
    match m s with
    | (s', inl e) => (s', inl e)
    | (s', inr a) => k a s'
    end.

Definition throw {A : Type} (e : exn) : M A := fun s => (s, inl e).

Definition gets {A : Type} (f : State -> A) : M A := fun s => (s, inr (f s)).

Definition modify (f : State -> State) : M unit := fun s => (f s, inr tt).

(** [try { body } catch (err) { handler(err) }] *)
Definition try_catch (body : M unit) (handler : exn -> M unit) : M unit :=
  fun s =>
    match body s with
    | (s', inl e) => handler e s'
    | (s', inr a) => (s', inr a)
    end.

(** The state a handler leaves behind. *)
Definition exec {A : Type} (m : M A) (s : State) : State := fst (m s).

Declare Scope js_scope.
Delimit Scope js_scope with js.
Notation "x <- m ;; k" := (bind m (fun x => k))
  (at level 61, m at next level, right associativity) : js_scope.
Notation "m ;; k" := (bind m (fun _ => k))
  (at level 61, right associativity) : js_scope.
Open Scope js_scope.

(* ================================================================== *)
(** ** The script *)
(* ================================================================== *)

(** What [Raycaster.intersectObjects(panels, false)] returns at one instant:
    the panels hit by the pointer ray, nearest first, and for each XR
    controller whether it is visible and the panels its ray hits. *)
Record Rays := {
  pointer_hits : list nat;
  controller_rays : list (bool * list nat)
}.

Section Script.

(** [Math.sin], which the language leaves to the implementation. *)
Variable Math_sin : float -> float.

(** The constants [playlists] and [trendingItems]. *)
Variable playlists : Playlists.
Variable trendingItems : list Item.

Local Open Scope float_scope.

(** *** Error reporting *)

(** [reportError(stage, error)]: the console line; the overlay text it
    also writes is never read back by the script. *)
Definition reportError (stage : string) (error : exn) : M unit :=
  modify (fun s => set_errors ((stage, error) :: errors s) s).

(** *** The media element *)

(** Dereferencing [htmlVideo]. *)
Definition the_video : M Video :=
  hv <- gets htmlVideo ;;
  match hv with
  | Some v => ret v
  | None => throw (TypeError "htmlVideo is null")
  end.

Definition update_video (f : Video -> Video) : M unit :=
  v <- the_video ;;
  modify (set_htmlVideo (Some (f v))).

(** [htmlVideo.volume = f]: the setter rejects what is not in 0..1. *)
Definition assign_volume (f : float) : M unit :=
  if (0 <=? f) && (f <=? 1) then update_video (with_volume f)
  else if is_finite f then throw IndexSizeError
  else throw (TypeError "volume is not finite").

(** [htmlVideo.currentTime = f]: the setter rejects non-finite numbers;
    the value kept is the position asked for. *)
Definition assign_currentTime (f : float) : M unit :=
  if is_finite f then update_video (with_currentTime f)
  else throw (TypeError "currentTime is not finite").

(** [htmlVideo.pause()], and [htmlVideo.load()], of which the calls are
    counted. *)
Definition video_pause : M unit := update_video (with_paused true).

Definition video_load : M unit :=
  update_video (fun v => with_loads (S (loads v)) v).

(** [videoTexture.needsUpdate = true] *)
Definition texture_needsUpdate : M unit :=
  t <- gets videoTexture ;;
  match t with
  | Some _ => modify (set_videoTexture (Some {| needsUpdate := true |}))
  | None => throw (TypeError "videoTexture is undefined")
  end.

(** *** Phase 3: panels *)

Definition spacing : float := 1.8.

Definition DEG2RAD : float := 3.141592653589793 / 180.

Definition new_panel (startX : float) (index : nat) (item : Item) : Panel :=
  {| userData_item := Some item;
     userData_baseScale := 1.0;
     position := vec (startX + JS.of_nat index * spacing) 1.0 (-4);
     rotation_y := ((JS.of_nat index - 1.5) * 5) * DEG2RAD;
     scale := vec 1 1 1;
     material := Some {| emissive := Some 0%Z; emissiveIntensity := 0.0 |} |}.

(** [items.forEach((item, index) => ...)] pushing one mesh per item. *)
Fixpoint build_panels (startX : float) (index : nat) (items : list Item)
  : list Panel :=
  match items with
  | [] => []
  | item :: rest =>
      new_panel startX index item :: build_panels startX (S index) rest
  end.

Definition setupPanels : M unit :=
  try_catch
    (let startX :=
       - ((JS.of_nat (List.length trendingItems) - 1) * spacing) / 2 in
     modify (set_panelGroup (Some (build_panels startX 0 trendingItems))) ;;
     modify (set_currentItem (hd_error trendingItems)))
    (fun err => reportError "Panels setup" err ;; throw err).

(** *** Video control helpers *)

(** [playVideo()]: [play()] is called, the element leaves its paused state
    and the promise is left pending; the callbacks of the promise are
    [play_fulfilled] and [play_rejected]. *)
Definition playVideo : M unit :=
  hv <- gets htmlVideo ;;
  match hv with
  | None => ret tt
  | Some v =>
      modify (set_htmlVideo (Some (with_paused false v))) ;;
      modify (fun s => set_pendingPlay (S (pendingPlay s)) s)
  end.

Definition play_fulfilled : M unit :=
  modify (set_isPlaying true).

Definition play_rejected (err : exn) : M unit :=
  if JS.str_eqb (name err) (JS.lit "AbortError")
     || JS.includes (message err) (JS.lit "interrupted by a new load request")
  then ret tt
  else reportError "Video play" err.

Definition ensureAudioEnabled : M unit :=
  try_catch
    (hv <- gets htmlVideo ;;
     enabled <- gets audioEnabled ;;
     match hv with
     | None => ret tt
     | Some _ =>
         if enabled then ret tt
         else
           update_video (with_muted false) ;;
           assign_volume 1.0 ;;
           modify (set_audioEnabled true)
     end)
    (reportError "ensureAudioEnabled").

Definition toggleMute : M unit :=
  try_catch
    (hv <- gets htmlVideo ;;
     match hv with
     | None => ret tt
     | Some v =>
         if muted v || (volume v =? 0) then
           update_video (with_muted false) ;;
           assign_volume 1.0 ;;
           modify (set_audioEnabled true)
         else
           update_video (with_muted true)
     end)
    (reportError "toggleMute").

Definition changeVolume (delta : float) : M unit :=
  try_catch
    (hv <- gets htmlVideo ;;
     match hv with
     | None => ret tt
     | Some v =>
         let newVol := volume v + delta in
         let newVol := JS.Math_max 0 (JS.Math_min 1 newVol) in
         assign_volume newVol ;;
         (if 0 <? newVol then
            update_video (with_muted false) ;;
            modify (set_audioEnabled true)
          else ret tt)
     end)
    (reportError "changeVolume").

Definition seekBy (deltaSeconds : float) : M unit :=
  try_catch
    (hv <- gets htmlVideo ;;
     match hv with
     | None => ret tt
     | Some v =>
         if is_nan (currentTime v) then ret tt
         else
           let duration := if JS.truthy (duration v) then duration v else 0 in
           let target := currentTime v + deltaSeconds in
           let target := if target <? 0 then 0 else target in
           let target :=
             if JS.truthy duration && (duration - 0.1 <? target)
             then duration - 0.1 else target in
           assign_currentTime target
     end)
    (reportError "Seek").

Definition playFromPlaylist (playlistId : JS.str) (startIndex : Z) : M unit :=
  try_catch
    (match lookup playlists playlistId with
     | None | Some [] =>
         reportError "Playlist"
           (Error (JS.lit "No videos for playlist '" ++ playlistId ++ JS.lit "'"))
     | Some list =>
         modify (set_currentPlaylistId (Some playlistId)) ;;
         modify (set_currentPlaylistIndex
                   (JS.rem startIndex (Z.of_nat (List.length list)))) ;;
         index <- gets currentPlaylistIndex ;;
         let url :=
           match at_index list index with
           | Some u => u
           | None => JS.lit "undefined"
           end in
         video_pause ;;
         modify (set_isPlaying false) ;;
         update_video (with_src url) ;;
         video_load ;;
         texture_needsUpdate ;;
         update_video (with_onloadeddata true) ;;
         update_video
           (with_onended
              (Some {| captured_id := playlistId; captured_list := list |}))
     end)
    (reportError "playFromPlaylist").

(** The closure installed as [htmlVideo.onended]. *)
Definition run_onended (c : EndedClosure) : M unit :=
  index <- gets currentPlaylistIndex ;;
  let nextIndex :=
    JS.rem (index + 1) (Z.of_nat (List.length (captured_list c))) in
  playFromPlaylist (captured_id c) nextIndex.

Definition pauseVideo : M unit :=
  hv <- gets htmlVideo ;;
  match hv with
  | None => ret tt
  | Some _ =>
      video_pause ;;
      modify (set_isPlaying false)
  end.

(** *** Phase 4: the video element and its listeners *)

Definition fallbackUrl : JS.str := Catalog.sample "BigBuckBunny.mp4".

(** [element] is what [document.getElementById("vs-video")] returns. *)
Definition setupVideoScreen (element : option Video) : M unit :=
  try_catch
    (modify (set_htmlVideo element) ;;
     match element with
     | None => throw (Error (JS.lit "Missing #vs-video element"))
     | Some _ =>
         update_video (with_crossOrigin (Some (JS.lit "anonymous"))) ;;
         update_video (with_muted true) ;;
         update_video (with_loop true) ;;
         update_video (with_playsInline true) ;;
         initialUrl <-
           match hd_error trendingItems with
           | Some firstItem =>
               if JS.nonempty (playlistId firstItem) then
                 match lookup playlists (playlistId firstItem) with
                 | Some (first :: _) =>
                     modify (set_currentPlaylistId (Some (playlistId firstItem))) ;;
                     modify (set_currentPlaylistIndex 0) ;;
                     ret first
                 | _ => ret []
                 end
               else ret []
           | None => ret []
           end ;;
         let initialUrl :=
           if JS.nonempty initialUrl then initialUrl else fallbackUrl in
         update_video (with_src initialUrl) ;;
         video_load
     end)
    (fun err => reportError "Video screen setup" err ;; throw err).

(** The listener added for ["loadeddata"]: a new texture and a new screen
    mesh, then playback. *)
Definition loadeddata_listener : M unit :=
  modify (set_videoTexture (Some {| needsUpdate := false |})) ;;
  n <- gets (fun s => List.length (screens s)) ;;
  modify (fun s =>
    set_screens
      (screens s ++
         [{| screen_position := vec 0 3.0 (-4.4);
             screen_rotation_y := 3.141592653589793 |}]) s) ;;
  modify (set_curvedScreen (Some n)) ;;
  playVideo.

(** The listener added for ["error"]; [htmlVideo.error] has been set by
    the browser. *)
Definition error_listener : M unit :=
  hv <- gets htmlVideo ;;
  match hv with
  | Some v =>
      match mediaError v with
      | Some code =>
          reportError "Video element"
            (Error (JS.lit "code=" ++
                    JS.lit (DecimalString.NilZero.string_of_int (Z.to_int code))))
      | None => ret tt
      end
  | None => ret tt
  end.

(** *** Hover and activation *)

(** [hits.length > 0 ? hits[0].object : (next ray)] over the pointer ray
    and then the visible controllers, in order. *)
Fixpoint first_controller_hit (rays : list (bool * list nat)) : option nat :=
  match rays with
  | [] => None
  | (visible, hits) :: rest =>
      if visible then
        match hits with
        | h :: _ => Some h
        | [] => first_controller_hit rest
        end
      else first_controller_hit rest
  end.

Definition getHoveredPanel (r : Rays) : option nat :=
  match pointer_hits r with
  | h :: _ => Some h
  | [] => first_controller_hit (controller_rays r)
  end.

(** [m.scale.set(1, 1, 1)] and the guarded reset of the glow. *)
Definition unhighlight (m : Panel) : Panel :=
  let m := with_scale (vec 1 1 1) m in
  match material m with
  | Some mat =>
      match emissive mat with
      | Some c =>
          with_material
            (Some {| emissive := Some c; emissiveIntensity := 0.0 |}) m
      | None => m
      end
  | None => m
  end.

(** [m.scale.set(1.05, 1.05, 1.05)] and the guarded glow. *)
Definition highlight (m : Panel) : Panel :=
  let m := with_scale (vec 1.05 1.05 1.05) m in
  match material m with
  | Some mat =>
      match emissive mat with
      | Some _ =>
          with_material
            (Some {| emissive := Some 0xffffff%Z; emissiveIntensity := 0.25 |}) m
      | None => m
      end
  | None => m
  end.

(** Mutating the mesh a reference points to. *)
Definition update_panel (ref : nat) (f : Panel -> Panel) : M unit :=
  modify (fun s =>
    match panelGroup s with
    | Some children => set_panelGroup (Some (update_nth ref f children)) s
    | None => s
    end).

Definition updateHover (r : Rays) : M unit :=
  try_catch
    (let hit := getHoveredPanel r in
     previous <- gets hoveredPanel ;;
     match hit with
     | Some h =>
         match previous with
         | Some p =>
             if Nat.eqb p h then ret tt else update_panel p unhighlight
         | None => ret tt
         end ;;
         modify (set_hoveredPanel (Some h)) ;;
         update_panel h highlight
     | None =>
         match previous with
         | Some p => update_panel p unhighlight
         | None => ret tt
         end ;;
         modify (set_hoveredPanel None)
     end)
    (reportError "Hover update").

(** [panel] is a reference to a mesh, or [null]; a reference to no mesh
    of the scene carries no item. *)
Definition activatePanel (panel : option nat) : M unit :=
  try_catch
    (meshes <- gets panels ;;
     match panel with
     | None => ret tt
     | Some ref =>
         match nth_error meshes ref with
         | None => ret tt
         | Some mesh =>
             match userData_item mesh with
             | None => ret tt
             | Some item =>
                 modify (set_currentItem (Some item)) ;;
                 ensureAudioEnabled ;;
                 (if JS.nonempty (playlistId item)
                  then playFromPlaylist (playlistId item) 0
                  else ret tt)
             end
         end
     end)
    (reportError "Activate panel").

(** [hits] is what the controller's own ray intersects. *)
Definition onXRSelect (hits : list nat) : M unit :=
  try_catch
    (match hits with
     | h :: _ => activatePanel (Some h)
     | [] => ret tt
     end)
    (reportError "XR select").

(** The window's click listener. *)
Definition onWindowClick (r : Rays) : M unit :=
  try_catch
    (match getHoveredPanel r with
     | Some h => activatePanel (Some h)
     | None => ret tt
     end)
    (reportError "Click handler").

(** *** Phase 6: DOM controls *)

(** The click listener of the load button.  [input] is the value of the URL
    field, [None] when the page has no such field. *)
Definition onLoadClick (input : option JS.str) : M unit :=
  try_catch
    (let customUrl :=
       match input with
       | Some value => JS.trim value
       | None => []
       end in
     if JS.nonempty customUrl then
       video_pause ;;
       modify (set_isPlaying false) ;;
       modify (set_currentPlaylistId None) ;;
       update_video (with_src customUrl) ;;
       video_load ;;
       texture_needsUpdate ;;
       update_video (with_onloadeddata true) ;;
       update_video (with_onended None)
     else
       item <- gets currentItem ;;
       match item with
       | Some it =>
           if JS.nonempty (playlistId it)
           then playFromPlaylist (playlistId it) 0
           else playFromPlaylist (JS.lit "creators") 0
       | None => playFromPlaylist (JS.lit "creators") 0
       end)
    (reportError "Load video button").

Definition onPlayPauseClick : M unit :=
  try_catch
    (playing <- gets isPlaying ;;
     (if playing then pauseVideo else playVideo) ;;
     ensureAudioEnabled)
    (reportError "Play/Pause button").

Definition onUnmuteClick : M unit :=
  try_catch toggleMute (reportError "Unmute button").

Definition onSeekBackClick : M unit :=
  try_catch (seekBy (-10)) (reportError "Seek back button").

Definition onSeekForwardClick : M unit :=
  try_catch (seekBy 10) (reportError "Seek forward button").

Definition onVolDownClick : M unit :=
  try_catch (changeVolume (-0.1)) (reportError "Volume down button").

Definition onVolUpClick : M unit :=
  try_catch (changeVolume 0.1) (reportError "Volume up button").

(** *** Animation loop *)

(** [children.forEach((panel, i) => panel.position.y = ...)] from index
    [i] on. *)
Fixpoint bob_panels (t : float) (i : nat) (children : list Panel) : list Panel :=
  match children with
  | [] => []
  | panel :: rest =>
      with_position
        (with_y (0.65 + Math_sin (t + JS.of_nat i) * 0.03) (position panel))
        panel
      :: bob_panels t (S i) rest
  end.

Definition bob_screen (t : float) (sc : Screen) : Screen :=
  {| screen_position :=
       with_y (2.1 + Math_sin (t * 0.5) * 0.05) (screen_position sc);
     screen_rotation_y := screen_rotation_y sc |}.

(** [now] is [performance.now()], [r] what the ray casts of this frame
    return. *)
Definition render (now : float) (r : Rays) : M unit :=
  try_catch
    (let t := now * 0.001 in
     modify (fun s =>
       match panelGroup s with
       | Some children => set_panelGroup (Some (bob_panels t 0 children)) s
       | None => s
       end) ;;
     modify (fun s =>
       match curvedScreen s with
       | Some ref => set_screens (update_nth ref (bob_screen t) (screens s)) s
       | None => s
       end) ;;
     updateHover r)
    (reportError "Render").

(** *** The init pipeline *)

(** The phases that write the variables modelled here; the renderer, the
    room, the controllers and the wiring of listeners leave them alone. *)
Definition init_pipeline (element : option Video) : M unit :=
  setupPanels ;;
  setupVideoScreen element.

Definition init (element : option Video) : M unit :=
  try_catch (init_pipeline element) (reportError "Top-level init").

(** *** Events *)

Inductive PlayOutcome :=
| Fulfilled
| Rejected (err : exn).

(** What can happen once the listeners are in place: clicks on the DOM
    controls, a click in the window, a select on a controller, an animation
    frame, and what the media element does on its own: its data has loaded,
    it has ended, it has failed, a promise of [play()] is settled, its clock
    has moved.  [Ended] is the delivery of the event to [onended]; a browser
    delivers it only to an element that does not loop.  Pointer moves and
    resizes write no variable modelled here. *)
Inductive Event :=
| LoadClick (input : option JS.str)
| PlayPauseClick
| UnmuteClick
| SeekBackClick
| SeekForwardClick
| VolDownClick
| VolUpClick
| WindowClick (r : Rays)
| XRSelect (hits : list nat)
| Frame (now : float) (r : Rays)
| LoadedData
| Ended
| MediaFailure (code : Z)
| PlaySettled (outcome : PlayOutcome)
| MediaClock (time length : float).

Definition dispatch (e : Event) : M unit :=
  match e with
  | LoadClick input => onLoadClick input
  | PlayPauseClick => onPlayPauseClick
  | UnmuteClick => onUnmuteClick
  | SeekBackClick => onSeekBackClick
  | SeekForwardClick => onSeekForwardClick
  | VolDownClick => onVolDownClick
  | VolUpClick => onVolUpClick
  | WindowClick r => onWindowClick r
  | XRSelect hits => onXRSelect hits
  | Frame now r => render now r
  | LoadedData =>
      loadeddata_listener ;;
      hv <- gets htmlVideo ;;
      match hv with
      | Some v => if onloadeddata v then playVideo else ret tt
      | None => ret tt
      end
  | Ended =>
      hv <- gets htmlVideo ;;
      match hv with
      | Some v =>
          match onended v with
          | Some c => run_onended c
          | None => ret tt
          end
      | None => ret tt
      end
  | MediaFailure code =>
      hv <- gets htmlVideo ;;
      match hv with
      | Some v =>
          modify (set_htmlVideo (Some (with_mediaError (Some code) v))) ;;
          error_listener
      | None => ret tt
      end
  | PlaySettled outcome =>
      pending <- gets pendingPlay ;;
      match pending with
      | O => ret tt
      | S n =>
          modify (set_pendingPlay n) ;;
          match outcome with
          | Fulfilled => play_fulfilled
          | Rejected err => play_rejected err
          end
      end
  | MediaClock time length =>
      hv <- gets htmlVideo ;;
      match hv with
      | Some v =>
          modify (set_htmlVideo
                    (Some (with_duration length (with_currentTime time v))))
      | None => ret tt
      end
  end.

Definition handle (e : Event) (s : State) : State := exec (dispatch e) s.

(** An element as the page provides it: a volume in range and no handler
    assigned yet. *)
Definition fresh_element (v : Video) : Prop :=
  (0 <=? volume v) = true /\ (volume v <=? 1) = true /\
  onloadeddata v = false /\ onended v = None.

(** The states the running page goes through: the init pipeline must have
    finished, or no listener is in place. *)
Inductive reachable : State -> Prop :=
| reach_init : forall v s,
    fresh_element v ->
    init_pipeline (Some v) globals = (s, inr tt) ->
    reachable s
| reach_step : forall s e,
    reachable s ->
    reachable (handle e s).

End Script.

(* ================================================================== *)
(** ** A sample page *)
(* ================================================================== *)

(** A concrete page to run the script on: the element a browser hands out
    before any script touched it, a polynomial standing in for the engine's
    sine, and the catalogue of the script. *)
Module Sample.

Local Open Scope float_scope.

Definition element : Video :=
  {| src := []; crossOrigin := None; muted := false; loop := false;
     playsInline := false; volume := 1; currentTime := 0; duration := nan;
     paused := true; loads := 0; mediaError := None;
     onloadeddata := false; onended := None |}.

Definition sine (a : float) : float :=
  a - (a * a * a) / 6 + (a * a * a * a * a) / 120.

Definition on (e : Event) : State -> State :=
  handle sine Catalog.playlists e.

(** The page after the init pipeline. *)
Definition booted : State :=
  Eval vm_compute in
    exec (init Catalog.playlists Catalog.trendingItems (Some element)) globals.

(** ... after the first video has data: the texture and the screen exist. *)
Definition ready : State := Eval vm_compute in on LoadedData booted.

Definition pointer_at (ref : nat) : Rays :=
  {| pointer_hits := [ref]; controller_rays := [] |}.

(** ... after a click on the second panel, with the handlers installed. *)
Definition browsing : State :=
  Eval vm_compute in on (WindowClick (pointer_at 1)) ready.

(** ... and with the clock of the media element at 5 of 12 seconds. *)
Definition midway : State :=
  Eval vm_compute in on (MediaClock 5 12) ready.

(** The media element of a state. *)
Definition video (s : State) : Video :=
  match htmlVideo s with
  | Some v => v
  | None => element
  end.

(** A mesh that carries no item. *)
Definition blank_panel : Panel :=
  {| userData_item := None; userData_baseScale := 1;
     position := vec 0 1 (-4); rotation_y := 0; scale := vec 1 1 1;
     material := None |}.

(** The mesh at a position of the scene. *)
Definition mesh (s : State) (ref : nat) : Panel :=
  nth ref (panels s) blank_panel.


End Sample.


(* ================================================================== *)
(** ** Vocabulary of the properties *)
(* ================================================================== *)

Section Vocabulary.

Local Open Scope float_scope.

(** [material.emissiveIntensity] of a mesh, when it has a material. *)
Definition glow (m : Panel) : option float :=
  option_map emissiveIntensity (material m).

(** A panel at rest, and a highlighted one. *)
Definition plain (m : Panel) : Prop :=
  scale m = vec 1 1 1 /\ glow m = Some 0.

Definition lit_up (m : Panel) : Prop :=
  scale m = vec 1.05 1.05 1.05 /\ glow m = Some 0.25.

Definition has_emissive (m : Panel) : Prop :=
  exists mat c, material m = Some mat /\ emissive mat = Some c.

(** The two clamps of a seek, in the words of the description: below
    to 0, then, for a known non-zero duration, above to the duration less a
    tenth of a second. *)
Definition clamp_below_zero (t : float) : float :=
  if t <? 0 then 0 else t.

Definition clamp_above (limit t : float) : float :=
  if limit <? t then limit else t.

Definition seek_target (position length delta : float) : float :=
  let t := clamp_below_zero (position + delta) in
  if JS.truthy length then clamp_above (length - 0.1) t else t.

(** One panel after the bobbing of a frame at time [t]. *)
Definition bob (Math_sin : float -> float) (t : float) (i : nat) (panel : Panel)
  : Panel :=
  with_position
    (with_y (0.65 + Math_sin (t + JS.of_nat i) * 0.03) (position panel)) panel.

(** The meshes after [updateHover], from the previous and the new hit. *)
Definition rehover (previous hit : option nat) (children : list Panel)
  : list Panel :=
  match hit with
  | Some h =>
      update_nth h highlight
        match previous with
        | Some p => if Nat.eqb p h then children
                    else update_nth p unhighlight children
        | None => children
        end
  | None =>
      match previous with
      | Some p => update_nth p unhighlight children
      | None => children
      end
  end.

(** What [playFromPlaylist] has written when it reaches the texture, and
    what it writes after it. *)
Definition started (pid : JS.str) (list : list JS.str) (index : Z)
    (v : Video) (s : State) : State :=
  let url := match at_index list index with
             | Some u => u
             | None => JS.lit "undefined"
             end in
  set_htmlVideo
    (Some (with_loads (S (loads v)) (with_src url (with_paused true v))))
    (set_isPlaying false
       (set_currentPlaylistIndex index
          (set_currentPlaylistId (Some pid) s))).

Definition installed (pid : JS.str) (list : list JS.str) (s : State) : State :=
  match htmlVideo s with
  | Some v =>
      set_htmlVideo
        (Some (with_onended
                 (Some {| captured_id := pid; captured_list := list |})
                 (with_onloadeddata true v)))
        (set_videoTexture (Some {| needsUpdate := true |}) s)
  | None => s
  end.

(** The two ways a panel is activated: a click while the hover ray picks it,
    and a select of a controller whose ray hits it first. *)
Inductive activates (ref : nat) : Event -> Prop :=
| by_click : forall r,
    getHoveredPanel r = Some ref -> activates ref (WindowClick r)
| by_select : forall rest, activates ref (XRSelect (ref :: rest)).

Definition is_frame (e : Event) : bool :=
  match e with
  | Frame _ _ => true
  | _ => false
  end.

(** A computation that always returns, and a property it keeps. *)
Definition total (m : M unit) : Prop := forall s, m s = (exec m s, inr tt).

Definition preserves (P : State -> Prop) (m : M unit) : Prop :=
  forall s, P s -> P (exec m s).

(** The four-field playlist cursor, and the playback variables a handler
    may read besides the objects of the browser and the library. *)
Definition cursor (s : State) : option Item * option JS.str * Z * bool :=
  (currentItem s, currentPlaylistId s, currentPlaylistIndex s, audioEnabled s).

End Vocabulary.

Section Invariant.

Variable playlists : Playlists.
Variable trendingItems : list Item.

Local Open Scope float_scope.

(** Every item names a playlist that has a first video. *)
Definition playable : Prop :=
  forall item, In item trendingItems ->
    JS.nonempty (playlistId item) = true /\
    exists first rest,
      lookup playlists (playlistId item) = Some (first :: rest).

(** The element is there with a volume in range; [onended] is only installed
    once the texture exists, and belongs to the current playlist. *)
Definition video_ok (s : State) : Prop :=
  exists v,
    htmlVideo s = Some v /\
    (0 <=? volume v) = true /\ (volume v <=? 1) = true /\
    (videoTexture s = None -> onended v = None) /\
    (forall c, onended v = Some c ->
       currentPlaylistId s = Some (captured_id c) /\
       lookup playlists (captured_id c) = Some (captured_list c) /\
       captured_list c <> []).

(** One mesh per item, each with an emissive material, and every mesh but
    the hovered one at rest. *)
Definition panels_ok (s : State) : Prop :=
  exists children,
    panelGroup s = Some children /\
    List.map userData_item children = List.map Some trendingItems /\
    (forall i m, nth_error children i = Some m -> has_emissive m) /\
    (forall i m, nth_error children i = Some m ->
       hoveredPanel s <> Some i -> plain m).

(** The cursor points into the playlist it names. *)
Definition cursor_ok (s : State) : Prop :=
  (0 <= currentPlaylistIndex s)%Z /\
  (forall pid, currentPlaylistId s = Some pid ->
     exists list,
       lookup playlists pid = Some list /\
       (currentPlaylistIndex s < Z.of_nat (List.length list))%Z).

Definition screen_ok (s : State) : Prop :=
  forall ref, curvedScreen s = Some ref ->
    (ref < List.length (screens s))%nat /\ videoTexture s <> None.

Definition item_ok (s : State) : Prop :=
  match currentItem s with
  | Some item => In item trendingItems
  | None => trendingItems = []
  end.

Definition Inv (s : State) : Prop :=
  video_ok s /\ panels_ok s /\ cursor_ok s /\ screen_ok s /\ item_ok s.

End Invariant.


(* ================================================================== *)
(** ** Vocabulary of the further properties *)
(* ================================================================== *)

(** The events by which the browser reports a fault of its own: a media
    error, a rejected promise of [play()]. *)
Definition is_fault (e : Event) : bool :=
  match e with
  | MediaFailure _ => true
  | PlaySettled (Rejected _) => true
  | _ => false
  end.

Definition is_volume (e : Event) : bool :=
  match e with
  | VolDownClick | VolUpClick => true
  | _ => false
  end.

Definition is_seek (e : Event) : bool :=
  match e with
  | SeekBackClick | SeekForwardClick => true
  | _ => false
  end.

Definition is_loadeddata (e : Event) : bool :=
  match e with
  | LoadedData => true
  | _ => false
  end.

(** A computation all of whose runs relate the state before to the state
    after, whether it returns or throws. *)
Definition keeps {A : Type} (R : State -> State -> Prop) (m : M A) : Prop :=
  forall s, R s (fst (m s)).

(** As many screens as before, [curvedScreen] referring to the same one, and
    every screen but that one as it was. *)
Definition same_screens (s s' : State) : Prop :=
  List.length (screens s') = List.length (screens s) /\
  curvedScreen s' = curvedScreen s /\
  forall i, curvedScreen s <> Some i ->
    nth_error (screens s') i = nth_error (screens s) i.

(** A controller whose ray picks nothing: it is hidden, or its ray hits no
    panel. *)
Definition idle {A : Type} (c : bool * list A) : Prop :=
  fst c = false \/ snd c = [].

(** A string of nothing but white space. *)
Definition white (s : JS.str) : Prop :=
  Forall (fun c => JS.is_white_space c = true) s.

(** What ties a panel to its place in the row: its item, where it is along
    the row and in depth, and its angle. *)
Definition anchor (m : Panel) : option Item * float * float * float :=
  (userData_item m, x (position m), z (position m), rotation_y m).

(** The state a frame leaves, from the time in seconds and the panel the
    rays pick. *)
Definition after_frame (Math_sin : float -> float) (t : float)
    (hit : option nat) (s : State) : State :=
  set_panelGroup
    (option_map
       (fun children =>
          rehover (hoveredPanel s) hit (bob_panels Math_sin t 0 children))
       (panelGroup s))
    (set_hoveredPanel hit
       (set_screens
          match curvedScreen s with
          | Some ref => update_nth ref (bob_screen Math_sin t) (screens s)
          | None => screens s
          end s)).

(** The page after a sequence of events, the earliest first. *)
Definition run (Math_sin : float -> float) (playlists : Playlists)
    (es : list Event) (s : State) : State :=
  fold_left (fun s e => handle Math_sin playlists e s) es s.

(** The events that choose a video: a load, an activation, the end of a
    video. *)
Definition changes_track (e : Event) : bool :=
  match e with
  | LoadClick _ | WindowClick _ | XRSelect _ | Ended => true
  | _ => false
  end.

(** The same card, the same cursor and the same source. *)
Definition same_track (s s' : State) : Prop :=
  currentItem s' = currentItem s /\
  currentPlaylistId s' = currentPlaylistId s /\
  currentPlaylistIndex s' = currentPlaylistIndex s /\
  option_map src (htmlVideo s') = option_map src (htmlVideo s).

(** The current playlist is the current card's, and the source is the entry
    under the cursor. *)
Definition coherent (playlists : Playlists) (s : State) : Prop :=
  forall pid, currentPlaylistId s = Some pid ->
    (exists item, currentItem s = Some item /\ playlistId item = pid) /\
    (forall list url v,
       lookup playlists pid = Some list ->
       at_index list (currentPlaylistIndex s) = Some url ->
       JS.nonempty url = true ->
       htmlVideo s = Some v -> src v = url).

(** The log of errors as it was, and the log with at most one report on
    top of what it held. *)
Definition same_errors (s s' : State) : Prop := errors s' = errors s.

Definition at_most_one_report (s s' : State) : Prop :=
  exists new,
    errors s' = new ++ errors s /\ (List.length new <= 1)%nat.

(** The panel the hover variable refers to is highlighted. *)
Definition hovered_lit (s : State) : Prop :=
  forall h m,
    hoveredPanel s = Some h -> nth_error (panels s) h = Some m -> lit_up m.

(* ================================================================== *)
(** ** The texture of a card *)
(* ================================================================== *)

(** [n.toString(16)] of an integer: lower-case digits, the most significant
    first, a minus sign before those of a negative number.  [fuel] is the
    number of binary digits, more than the hexadecimal digits need. *)
Definition hex_digit (d : N) : N :=
  if (d <? 10)%N then (48 + d)%N else (87 + d)%N.

Fixpoint hex_digits (fuel : nat) (n : N) (acc : JS.str) : JS.str :=
  match fuel with
  | O => acc
  | S fuel' =>
      let acc' := hex_digit (n mod 16) :: acc in
      if (n / 16 =? 0)%N then acc' else hex_digits fuel' (n / 16) acc'
  end.

Definition toString16 (n : Z) : JS.str :=
  match n with
  | Z0 => JS.lit "0"
  | Zpos p => hex_digits (N.to_nat (N.size (Npos p))) (Npos p) []
  | Zneg p => 45%N :: hex_digits (N.to_nat (N.size (Npos p))) (Npos p) []
  end.

(** [s.padStart(targetLength, c)] for a filler of one code unit. *)
Definition padStart (targetLength : nat) (filler : N) (s : JS.str) : JS.str :=
  repeat filler (targetLength - List.length s) ++ s.

(** [s.slice(0, last)] *)
Definition slice_to (last : nat) (s : JS.str) : JS.str := firstn last s.

(** What is painted on a canvas: the fill style is a CSS colour or a linear
    gradient with its colour stops. *)
Inductive Paint :=
| Colour (css : JS.str)
| LinearGradient (x0 y0 x1 y1 : float) (stops : list (float * JS.str)).

Inductive Stroke :=
| fillRect (fillStyle : Paint) (globalAlpha : float) (x y w h : float)
| fillText (fillStyle : Paint) (font text : JS.str) (x y : float).

(** A [THREE.CanvasTexture]: the canvas is what has been painted on it, in
    order. *)
Record CanvasTexture := {
  canvas_width : float;
  canvas_height : float;
  strokes : list Stroke;
  canvas_needsUpdate : bool
}.

Definition createPanelTexture (title : JS.str) (colorHex : Z) : CanvasTexture :=
  let width := 1024%float in
  let height := 512%float in
  let grad :=
    LinearGradient 0 0 width height
      [(0%float, JS.lit "#0c1028");
       (1%float, JS.lit "#" ++ padStart 6 48 (toString16 colorHex))] in
  {| canvas_width := width;
     canvas_height := height;
     strokes :=
       [ fillRect (Colour (JS.lit "#050714")) 1 0 0 width height;
         fillRect grad 0.9 0 0 width height;
         fillText (Colour (JS.lit "#ffffff")) (JS.lit "bold 64px system-ui")
           (slice_to 30 title) 60 (height / 2 - 20);
         fillText (Colour (JS.lit "rgba(220,220,255,0.85)"))
           (JS.lit "32px system-ui") (JS.lit "Click or pinch to play")
           60 (height / 2 + 70) ];
     canvas_needsUpdate := true |}.

(** Reading a run of hexadecimal digits, as a CSS colour is read. *)
Definition hex_digit_value (c : N) : option N :=
  if ((48 <=? c) && (c <=? 57))%N then Some (c - 48)%N
  else if ((97 <=? c) && (c <=? 102))%N then Some (c - 87)%N
  else if ((65 <=? c) && (c <=? 70))%N then Some (c - 55)%N
  else None.

Fixpoint hex_value_from (acc : N) (s : JS.str) : option N :=
  match s with
  | [] => Some acc
  | c :: rest =>
      match hex_digit_value c with
      | Some d => hex_value_from (16 * acc + d) rest
      | None => None
      end
  end.

Definition hex_value (s : JS.str) : option N := hex_value_from 0 s.

(* ================================================================== *)
(** ** The whole init pipeline *)
(* ================================================================== *)

(** What the phases ask of the rendering library and of the browser in one
    run of the pipeline: making the scene and the renderer, the VR button,
    the lights and the resize listener, the meshes of the room, the
    controllers, the listeners of the DOM controls and of the window, the
    animation loop.  These calls write no variable of the script; each run of
    calls goes through or throws. *)
Record Library := {
  renderer_calls : option exn;
  vr_button_calls : option exn;
  lights_calls : option exn;
  room_calls : option exn;
  controller_calls : option exn;
  dom_calls : option exn;
  desktop_calls : option exn;
  loop_calls : option exn
}.

Definition calls (outcome : option exn) : M unit :=
  match outcome with
  | None => ret tt
  | Some err => throw err
  end.

Section Pipeline.

Variable lib : Library.
Variable playlists : Playlists.
Variable trendingItems : list Item.

Definition setupRendererAndScene : M unit :=
  try_catch
    (calls (renderer_calls lib) ;;
     try_catch (calls (vr_button_calls lib)) (reportError "VRButton") ;;
     calls (lights_calls lib))
    (fun err => reportError "Renderer/Scene setup" err ;; throw err).

Definition setupRoom : M unit :=
  try_catch (calls (room_calls lib))
    (fun err => reportError "Room setup" err ;; throw err).

Definition setupXRControllers : M unit :=
  try_catch (calls (controller_calls lib))
    (reportError "XR controllers setup").

Definition setupDOMControls : M unit :=
  try_catch (calls (dom_calls lib)) (reportError "DOM controls setup").

Definition setupDesktopInteraction : M unit :=
  try_catch (calls (desktop_calls lib))
    (reportError "Desktop interaction setup").

Definition startLoop : M unit :=
  try_catch (calls (loop_calls lib))
    (fun err => reportError "Start loop" err ;; throw err).

(** The [try] block at the top of the script. *)
Definition main (element : option Video) : M unit :=
  try_catch
    (setupRendererAndScene ;;
     setupRoom ;;
     setupPanels trendingItems ;;
     setupVideoScreen playlists trendingItems element ;;
     setupXRControllers ;;
     setupDOMControls ;;
     setupDesktopInteraction ;;
     startLoop)
    (reportError "Top-level init").

End Pipeline.

(* ================================================================== *)
(** ** Rounding to binary64: vocabulary *)
(* ================================================================== *)

(** The height of a mesh and the clamp of a seek are sums, differences and
    products of binary64.  To bound them, the rounding that the
    specification of the floats computes bit by bit is described by the
    exact value it rounds. *)
Module Rounding.

Local Open Scope Z_scope.

(** The record after [j] shifts of [M]: the quotient, the bit shifted out
    last, and whether any bit shifted out before it was set. *)
Definition half_bit (M : Z) (j : nat) : bool :=
  match j with
  | O => false
  | S j' => Z.testbit M (Z.of_nat j')
  end.

Definition sticky (M : Z) (j : nat) : bool :=
  match j with
  | O => false
  | S j' => negb (M mod 2 ^ Z.of_nat j' =? 0)
  end.

Definition shifted (M : Z) (j : nat) : shr_record :=
  {| shr_m := M / 2 ^ Z.of_nat j;
     shr_r := half_bit M j;
     shr_s := sticky M j |}.

(** [rne M j] is [M / 2^j] rounded to the nearest integer, ties to even, as
    [round_nearest_even] computes it from the shifted record. *)
Definition rne (M : Z) (j : nat) : Z :=
  round_nearest_even (shr_m (shifted M j)) (loc_of_shr_record (shifted M j)).

(** The same, by the remainder. *)
Definition rne_arith (M : Z) (P : Z) : Z :=
  M / P +
  (if P <? 2 * (M mod P) then 1
   else if 2 * (M mod P) =? P then (if Z.even (M / P) then 0 else 1)
   else 0).

Definition dig (m : positive) : Z := Zpos (digits2_pos m).

Definition pack (q E : Z) : spec_float :=
  if q =? 0 then S754_zero false
  else if q <? 2 ^ 53 then
    (if E <=? 971 then S754_finite false (Z.to_pos q) E
     else S754_infinity false)
  else
    (if E + 1 <=? 971 then S754_finite false (Z.to_pos (2 ^ 52)) (E + 1)
     else S754_infinity false).

Definition finish (r : shr_record * Z) : spec_float :=
  let '(mrs, e) := r in
  match shr_m mrs with
  | Z0 => S754_zero false
  | Zpos m =>
      if e <=? emax - prec then S754_finite false m e else S754_infinity false
  | Zneg _ => S754_nan
  end.

(** Exact values are kept as integers: the value [v] is held as
    [v * 2^full_scale]. Every product and sum of two binary64 is such an
    integer. *)
Definition full_scale : Z := 2200.

Definition magnitude (V : Z) : Z := Z.log2 V + 1 - full_scale.

Definition exponent_of (V : Z) : Z := fexp prec emax (magnitude V).

Definition mantissa_of (V : Z) : Z :=
  rne V (Z.to_nat (exponent_of V + full_scale)).

(** The binary64 nearest to the positive value [V / 2^full_scale]. *)
Definition nearest (V : Z) : spec_float :=
  pack (mantissa_of V) (exponent_of V).

(** Operands are held as [v * 2^unit_scale], so that the product of two of
    them is held at [full_scale]. *)
Definition unit_scale : Z := 1100.

Definition value (x : spec_float) : Z :=
  match x with
  | S754_finite s m e => cond_Zopp s (Zpos m * 2 ^ (e + unit_scale))
  | _ => 0
  end.

Definition is_real (x : spec_float) : bool :=
  match x with
  | S754_finite _ _ _ | S754_zero _ => true
  | _ => false
  end.

Definition SF_one : spec_float := S754_finite false 4503599627370496 (-52).

(** [lo <= v <= hi] on floats; false when one of them is NaN. *)
Definition within (lo hi v : float) : bool :=
  ((lo <=? v) && (v <=? hi))%float.

End Rounding.

(* ================================================================== *)
(** ** Facts about binary64 comparisons, sums and the clamp *)
(* ================================================================== *)

Module FloatFacts.

Local Open Scope float_scope.

Lemma SFcompare_antisym (a b : spec_float) :
  SFcompare a b = option_map CompOpp (SFcompare b a).
Proof.
  destruct a as [sa|sa| |sa ma ea], b as [sb|sb| |sb mb eb]; cbn;
    try reflexivity;
    try (destruct sa; reflexivity);
    try (destruct sb; reflexivity);
    try (destruct sa, sb; reflexivity).
  destruct sa, sb; cbn; try reflexivity;
    rewrite (Z.compare_antisym ea eb);
    destruct (ea ?= eb)%Z; cbn; try reflexivity; f_equal.
  - rewrite CompOpp_involutive.
    exact (Pos.compare_cont_antisym ma mb Eq).
  - symmetry. exact (Pos.compare_cont_antisym mb ma Eq).
Qed.

Lemma SFcompare_refl (a : spec_float) :
  a <> S754_nan -> SFcompare a a = Some Eq.
Proof.
  destruct a as [sa|sa| |sa ma ea]; cbn; intros H;
    try congruence; try (destruct sa; reflexivity).
  destruct sa; rewrite Z.compare_refl, Pos.compare_cont_refl; reflexivity.
Qed.

Lemma is_nan_spec (f : float) :
  is_nan f = true <-> Prim2SF f = S754_nan.
Proof.
  unfold is_nan. rewrite eqb_spec. unfold SFeqb.
  destruct (Prim2SF f) as [s|s| |s m e];
    try (rewrite SFcompare_refl by congruence; cbn; split; congruence).
  cbn. split; reflexivity.
Qed.

Lemma not_nan_spec (f : float) :
  is_nan f = false <-> Prim2SF f <> S754_nan.
Proof.
  rewrite <- is_nan_spec. destruct (is_nan f); split; congruence.
Qed.

Lemma ltb_leb (a b : float) : (a <? b) = true -> (a <=? b) = true.
Proof.
  rewrite ltb_spec, leb_spec. unfold SFltb, SFleb.
  destruct (SFcompare (Prim2SF a) (Prim2SF b)) as [[ | | ]|]; congruence.
Qed.

(** On numbers, not below means above or equal. *)
Lemma not_ltb_leb (a b : float) :
  is_nan a = false -> is_nan b = false ->
  (a <? b) = false -> (b <=? a) = true.
Proof.
  rewrite !not_nan_spec, ltb_spec, leb_spec. unfold SFltb, SFleb.
  intros Ha Hb. rewrite (SFcompare_antisym (Prim2SF b) (Prim2SF a)).
  destruct (Prim2SF a) as [sa|sa| |sa ma ea] eqn:Ea; try congruence;
    destruct (Prim2SF b) as [sb|sb| |sb mb eb] eqn:Eb; try congruence;
    destruct (SFcompare _ _) as [[ | | ]|] eqn:C; cbn; try congruence;
    cbn in C; try congruence;
    try (destruct sa; congruence); try (destruct sb; congruence).
Qed.


(** *** Rounding never invents a NaN *)

Lemma iter_pos_invariant (A : Type) (P : A -> Prop) (f : A -> A) :
  (forall a, P a -> P (f a)) ->
  forall n a, P a -> P (iter_pos f n a).
Proof.
  intros Hf. induction n as [n IH|n IH|]; intros a Ha; cbn; auto.
Qed.

Lemma shr_1_nonneg (mrs : shr_record) :
  (0 <= shr_m mrs)%Z -> (0 <= shr_m (shr_1 mrs))%Z.
Proof.
  destruct mrs as [m r s]. cbn.
  destruct m as [|[p|p|]|[p|p|]]; cbn; lia.
Qed.

Lemma shr_fexp_nonneg (m e : Z) (l : location) :
  (0 <= m)%Z -> (0 <= shr_m (fst (shr_fexp prec emax m e l)))%Z.
Proof.
  intros Hm. unfold shr_fexp, shr.
  assert (H0 : (0 <= shr_m (shr_record_of_loc m l))%Z)
    by (destruct l as [|[ | | ]]; cbn; exact Hm).
  destruct (fexp prec emax (Zdigits2 m + e) - e)%Z; cbn [fst]; auto.
  apply iter_pos_invariant; auto using shr_1_nonneg.
Qed.

Lemma round_nearest_even_nonneg (m : Z) (l : location) :
  (0 <= m)%Z -> (0 <= round_nearest_even m l)%Z.
Proof.
  intros Hm. destruct l as [|[ | | ]]; cbn; try lia.
  destruct (Z.even m); lia.
Qed.

Lemma binary_round_aux_not_nan (sx : bool) (mx ex : Z) (lx : location) :
  (0 <= mx)%Z -> binary_round_aux prec emax sx mx ex lx <> S754_nan.
Proof.
  intros Hm. unfold binary_round_aux.
  pose proof (shr_fexp_nonneg mx ex lx Hm) as H1.
  destruct (shr_fexp prec emax mx ex lx) as [mrs1 e1]. cbn [fst] in H1.
  pose proof (shr_fexp_nonneg _ e1 loc_Exact
                (round_nearest_even_nonneg _ (loc_of_shr_record mrs1) H1)) as H2.
  destruct (shr_fexp prec emax _ e1 loc_Exact) as [mrs2 e2]. cbn [fst] in H2.
  destruct (shr_m mrs2); try lia; try congruence.
  destruct (e2 <=? emax - prec)%Z; congruence.
Qed.

Lemma binary_normalize_not_nan (m e : Z) (sz : bool) :
  binary_normalize prec emax m e sz <> S754_nan.
Proof.
  unfold binary_normalize, binary_round.
  destruct m as [|p|p]; try congruence;
    destruct (shl_align _ _ _) as [mz ez];
    apply binary_round_aux_not_nan; lia.
Qed.

Lemma Prim2SF_zero : Prim2SF 0 = S754_zero false.
Proof. vm_compute. reflexivity. Qed.

Lemma Prim2SF_one : Prim2SF 1 = S754_finite false 4503599627370496 (-52).
Proof. vm_compute. reflexivity. Qed.

(** A number in 0..1 is a zero or finite. *)
Lemma unit_interval_finite (v : float) :
  (0 <=? v) = true -> (v <=? 1) = true ->
  (exists s, Prim2SF v = S754_zero s) \/
  (exists s m e, Prim2SF v = S754_finite s m e).
Proof.
  rewrite !leb_spec. unfold SFleb.
  rewrite Prim2SF_zero, Prim2SF_one.
  destruct (Prim2SF v) as [s|s| |s m e]; intros H0 H1.
  - left; eauto.
  - destruct s; discriminate.
  - discriminate.
  - right; eauto.
Qed.

(** Adding a number to a volume gives a number. *)
Lemma add_not_nan (v d : float) :
  (0 <=? v) = true -> (v <=? 1) = true -> is_nan d = false ->
  is_nan (v + d) = false.
Proof.
  intros H0 H1. rewrite !not_nan_spec, add_spec. intros Hd.
  unfold SF64add, SFadd.
  destruct (unit_interval_finite v H0 H1) as [[s E]|[s [m [e E]]]]; rewrite E;
    destruct (Prim2SF d) as [sd|sd| |sd md ed]; try congruence;
    try (destruct s, sd; congruence).
  apply binary_normalize_not_nan.
Qed.

(** *** The clamp of [changeVolume] *)

Lemma Math_min_one (x : float) :
  is_nan x = false -> JS.Math_min 1 x = if 1 <? x then 1 else x.
Proof.
  intros Hx. unfold JS.Math_min. rewrite Hx.
  replace (is_nan 1) with false by reflexivity.
  replace (JS.is_neg_zero 1) with false by reflexivity. cbn [orb].
  destruct (1 <? x); [reflexivity|]. destruct (x <? 1); reflexivity.
Qed.

Lemma Math_max_zero (x : float) :
  is_nan x = false ->
  JS.Math_max 0 x = if x <? 0 then 0 else if 0 <? x then x else 0.
Proof.
  intros Hx. unfold JS.Math_max. rewrite Hx.
  replace (is_nan 0) with false by reflexivity.
  replace (JS.is_pos_zero 0) with true by reflexivity. reflexivity.
Qed.

Lemma clamp_unit_range (x : float) :
  is_nan x = false ->
  (0 <=? JS.Math_max 0 (JS.Math_min 1 x)) = true /\
  (JS.Math_max 0 (JS.Math_min 1 x) <=? 1) = true.
Proof.
  intros Hx. rewrite (Math_min_one x Hx).
  destruct (1 <? x) eqn:L1; [split; reflexivity|].
  rewrite (Math_max_zero x Hx).
  destruct (x <? 0) eqn:L2; [split; reflexivity|].
  destruct (0 <? x) eqn:L3; [|split; reflexivity].
  split.
  - apply ltb_leb; exact L3.
  - apply not_ltb_leb; trivial.
Qed.

End FloatFacts.


(* ================================================================== *)
(** ** Lists of meshes *)
(* ================================================================== *)

Lemma nth_error_update_nth {A : Type} (f : A -> A) (l : list A) (n i : nat) :
  nth_error (update_nth n f l) i =
  if Nat.eqb i n then option_map f (nth_error l i) else nth_error l i.
Proof.
  revert n i. induction l as [|a l IH]; intros [|n] [|i]; cbn; try reflexivity.
  - destruct (Nat.eqb i n); reflexivity.
  - apply IH.
Qed.

Lemma length_update_nth {A : Type} (f : A -> A) (l : list A) (n : nat) :
  List.length (update_nth n f l) = List.length l.
Proof.
  revert n. induction l as [|a l IH]; intros [|n]; cbn; auto.
Qed.

Lemma map_update_nth {A B : Type} (g : A -> B) (f : A -> A) (l : list A) (n : nat) :
  (forall a, g (f a) = g a) ->
  List.map g (update_nth n f l) = List.map g l.
Proof.
  intros Hf. revert n. induction l as [|a l IH]; intros [|n]; cbn;
    rewrite ?Hf, ?IH; reflexivity.
Qed.

Lemma nth_error_bob_panels (Math_sin : float -> float) (t : float)
    (children : list Panel) (k i : nat) :
  nth_error (bob_panels Math_sin t k children) i =
  option_map (bob Math_sin t (k + i)) (nth_error children i).
Proof.
  revert k i. induction children as [|m l IH]; intros k [|i]; cbn; try reflexivity.
  - rewrite Nat.add_0_r. reflexivity.
  - rewrite IH, Nat.add_succ_r. reflexivity.
Qed.

Lemma map_item_bob_panels (Math_sin : float -> float) (t : float)
    (children : list Panel) (k : nat) :
  List.map userData_item (bob_panels Math_sin t k children) =
  List.map userData_item children.
Proof.
  revert k. induction children as [|m l IH]; intros k; cbn; rewrite ?IH; reflexivity.
Qed.

Lemma map_item_build_panels (startX : float) (index : nat) (items : list Item) :
  List.map userData_item (build_panels startX index items) = List.map Some items.
Proof.
  revert index. induction items as [|item rest IH]; intros index; cbn;
    rewrite ?IH; reflexivity.
Qed.

Lemma nth_error_build_panels (startX : float) (index : nat) (items : list Item)
    (i : nat) (m : Panel) :
  nth_error (build_panels startX index items) i = Some m ->
  exists item, m = new_panel startX (index + i) item.
Proof.
  revert index i. induction items as [|item rest IH]; intros index [|i]; cbn;
    try discriminate.
  - intros [= <-]. rewrite Nat.add_0_r. eauto.
  - intros H. rewrite Nat.add_succ_r. apply (IH (S index) i H).
Qed.

(* ================================================================== *)
(** ** Running the handlers *)
(* ================================================================== *)

Ltac monad_unfold :=
  unfold try_catch, bind, gets, modify, ret, throw in *.

Ltac script_unfold :=
  unfold onLoadClick, onPlayPauseClick, onUnmuteClick,
    onSeekBackClick, onSeekForwardClick, onVolDownClick, onVolUpClick,
    onWindowClick, onXRSelect, render, updateHover, update_panel,
    activatePanel, run_onended, playFromPlaylist, ensureAudioEnabled,
    toggleMute, changeVolume, seekBy, pauseVideo, playVideo, play_fulfilled,
    play_rejected, loadeddata_listener, error_listener, video_pause,
    video_load, texture_needsUpdate, assign_volume, assign_currentTime,
    update_video, the_video, reportError in *.

(** Case analysis on the innermost scrutinee of the goal. *)
Ltac split_match :=
  match goal with
  | |- context [match ?x with _ => _ end] =>
      lazymatch x with
      | context [match _ with _ => _ end] => fail
      | _ => destruct x eqn:?
      end
  end.

(** Run a handler symbolically, with [H : htmlVideo s = Some v] at hand. *)
Ltac run_with H :=
  unfold exec; script_unfold; monad_unfold; cbn;
  repeat (first [rewrite !H | split_match]; cbn).

Ltac use_facts :=
  repeat match goal with
  | H : (_ && _)%bool = true |- _ => apply andb_prop in H; destruct H
  | H : ?a = ?a -> _ |- _ => specialize (H eq_refl)
  | H : ?x = ?y -> _, H' : ?x = ?y |- _ => specialize (H H')
  | H : forall c, Some ?e = Some c -> _ |- _ => specialize (H e eq_refl)
  | H : forall c, ?x = Some c -> _, H' : ?x = Some ?c |- _ =>
      specialize (H c H')
  | H : _ /\ _ |- _ => destruct H
  | H : Some _ = None |- _ => discriminate H
  | H : None = Some _ |- _ => discriminate H
  | H : Some ?a = Some ?b |- _ => injection H as H; try subst a; try subst b
  end;
  cbn in *; eauto; try congruence.

Section Totality.

Variable playlists : Playlists.

Lemma try_catch_report_total (body : M unit) (stage : string) :
  total (try_catch body (reportError stage)).
Proof.
  intros s. unfold exec, try_catch, reportError, modify.
  destruct (body s) as [s' [e|[]]]; reflexivity.
Qed.

Lemma playFromPlaylist_total (pid : JS.str) (start : Z) :
  total (playFromPlaylist playlists pid start).
Proof. apply try_catch_report_total. Qed.

Lemma ensureAudioEnabled_total : total ensureAudioEnabled.
Proof. apply try_catch_report_total. Qed.

Lemma toggleMute_total : total toggleMute.
Proof. apply try_catch_report_total. Qed.

Lemma changeVolume_total (delta : float) : total (changeVolume delta).
Proof. apply try_catch_report_total. Qed.

Lemma seekBy_total (delta : float) : total (seekBy delta).
Proof. apply try_catch_report_total. Qed.

Lemma activatePanel_total (panel : option nat) :
  total (activatePanel playlists panel).
Proof. apply try_catch_report_total. Qed.

(** A body that always returns never reaches the handler. *)
Lemma try_catch_skip (body : M unit) (handler : exn -> M unit) (s : State) :
  total body -> try_catch body handler s = (exec body s, inr tt).
Proof. intros Hb. unfold try_catch. rewrite (Hb s). reflexivity. Qed.

End Totality.

(* ================================================================== *)
(** ** Highlighting *)
(* ================================================================== *)

Section Highlighting.

Local Open Scope float_scope.

Lemma highlight_lit_up (m : Panel) : has_emissive m -> lit_up (highlight m).
Proof.
  intros (mat & c & Hm & Hc). unfold highlight, lit_up, glow. cbn.
  rewrite Hm, Hc. cbn. split; reflexivity.
Qed.

Lemma unhighlight_plain (m : Panel) : has_emissive m -> plain (unhighlight m).
Proof.
  intros (mat & c & Hm & Hc). unfold unhighlight, plain, glow. cbn.
  rewrite Hm, Hc. cbn. split; reflexivity.
Qed.

Lemma highlight_has_emissive (m : Panel) :
  has_emissive m -> has_emissive (highlight m).
Proof.
  intros (mat & c & Hm & Hc). unfold highlight, has_emissive. cbn.
  rewrite Hm, Hc. cbn. do 2 eexists. split; reflexivity.
Qed.

Lemma unhighlight_has_emissive (m : Panel) :
  has_emissive m -> has_emissive (unhighlight m).
Proof.
  intros (mat & c & Hm & Hc). unfold unhighlight, has_emissive. cbn.
  rewrite Hm, Hc. cbn. do 2 eexists. split; reflexivity.
Qed.

Lemma highlight_item (m : Panel) : userData_item (highlight m) = userData_item m.
Proof.
  unfold highlight. cbn. destruct (material m) as [mat|]; [|reflexivity].
  destruct (emissive mat); reflexivity.
Qed.

Lemma unhighlight_item (m : Panel) :
  userData_item (unhighlight m) = userData_item m.
Proof.
  unfold unhighlight. cbn. destruct (material m) as [mat|]; [|reflexivity].
  destruct (emissive mat); reflexivity.
Qed.

Lemma highlight_position (m : Panel) : position (highlight m) = position m.
Proof.
  unfold highlight. cbn. destruct (material m) as [mat|]; [|reflexivity].
  destruct (emissive mat); reflexivity.
Qed.

Lemma unhighlight_position (m : Panel) :
  position (unhighlight m) = position m.
Proof.
  unfold unhighlight. cbn. destruct (material m) as [mat|]; [|reflexivity].
  destruct (emissive mat); reflexivity.
Qed.

(** A highlighted panel is not at rest: 1.05 is not 1. *)
Lemma lit_up_not_plain (m : Panel) : lit_up m -> plain m -> False.
Proof.
  intros [Hl _] [Hp _]. rewrite Hl in Hp.
  apply (f_equal (fun v => x v <? 1.02)) in Hp. vm_compute in Hp. discriminate.
Qed.

(** After the hover update, the hit mesh is highlighted and every other one
    is at rest, provided every mesh but the previously hovered one was. *)
Lemma rehover_spec (previous hit : option nat) (children : list Panel) :
  (forall i m, nth_error children i = Some m -> has_emissive m) ->
  (forall i m, nth_error children i = Some m -> previous <> Some i -> plain m) ->
  forall i m, nth_error (rehover previous hit children) i = Some m ->
    has_emissive m /\
    (hit = Some i -> lit_up m) /\
    (hit <> Some i -> plain m).
Proof.
  intros Hem Hrest i m. unfold rehover.
  destruct hit as [h|].
  - rewrite nth_error_update_nth.
    destruct (Nat.eqb_spec i h) as [->|Hih].
    + (* the hit mesh *)
      intros H.
      assert (Hsrc : exists m0, m = highlight m0 /\ has_emissive m0).
      { destruct previous as [p|]; [destruct (Nat.eqb_spec p h) as [->|Hph]|].
        - destruct (nth_error children h) as [m0|] eqn:E; [|discriminate].
          injection H as <-. eauto.
        - rewrite nth_error_update_nth in H.
          destruct (Nat.eqb_spec h p) as [->|_]; [congruence|].
          destruct (nth_error children h) as [m0|] eqn:E; [|discriminate].
          injection H as <-. eauto.
        - destruct (nth_error children h) as [m0|] eqn:E; [|discriminate].
          injection H as <-. eauto. }
      destruct Hsrc as (m0 & -> & Hm0).
      split; [apply highlight_has_emissive; exact Hm0|].
      split; [intros _; apply highlight_lit_up; exact Hm0|congruence].
    + (* any other mesh *)
      intros H.
      assert (Hgoal : has_emissive m /\ plain m).
      { destruct previous as [p|]; [destruct (Nat.eqb_spec p h) as [->|Hph]|].
        - split; [eapply Hem; exact H|].
          eapply Hrest; [exact H|congruence].
        - rewrite nth_error_update_nth in H.
          destruct (Nat.eqb_spec i p) as [->|Hip].
          + destruct (nth_error children p) as [m0|] eqn:E; [|discriminate].
            injection H as <-.
            split; [apply unhighlight_has_emissive|apply unhighlight_plain];
              eapply Hem; exact E.
          + split; [eapply Hem; exact H|].
            eapply Hrest; [exact H|congruence].
        - split; [eapply Hem; exact H|].
          eapply Hrest; [exact H|congruence]. }
      destruct Hgoal as [He Hp].
      split; [exact He|]. split; [congruence|intros _; exact Hp].
  - intros H.
    assert (Hgoal : has_emissive m /\ plain m).
    { destruct previous as [p|].
      - rewrite nth_error_update_nth in H.
        destruct (Nat.eqb_spec i p) as [->|Hip].
        + destruct (nth_error children p) as [m0|] eqn:E; [|discriminate].
          injection H as <-.
          split; [apply unhighlight_has_emissive|apply unhighlight_plain];
            eapply Hem; exact E.
        + split; [eapply Hem; exact H|].
          eapply Hrest; [exact H|congruence].
      - split; [eapply Hem; exact H|].
        eapply Hrest; [exact H|congruence]. }
    destruct Hgoal as [He Hp].
    split; [exact He|]. split; [discriminate|intros _; exact Hp].
Qed.

Lemma map_item_rehover (previous hit : option nat) (children : list Panel) :
  List.map userData_item (rehover previous hit children) =
  List.map userData_item children.
Proof.
  unfold rehover.
  destruct hit as [h|], previous as [p|]; try destruct (Nat.eqb p h);
    rewrite ?(map_update_nth userData_item highlight _ _ highlight_item),
            ?(map_update_nth userData_item unhighlight _ _ unhighlight_item);
    reflexivity.
Qed.

Lemma updateHover_run (r : Rays) (s : State) (children : list Panel) :
  panelGroup s = Some children ->
  updateHover r s =
    (set_panelGroup
       (Some (rehover (hoveredPanel s) (getHoveredPanel r) children))
       (set_hoveredPanel (getHoveredPanel r) s), inr tt).
Proof.
  intros Hg. unfold updateHover, update_panel, rehover. monad_unfold.
  destruct (getHoveredPanel r) as [h|], (hoveredPanel s) as [p|] eqn:Hp; cbn;
    try destruct (Nat.eqb p h); cbn; rewrite ?Hg; cbn; try reflexivity.
  all: destruct s; cbn in *; subst; reflexivity.
Qed.

End Highlighting.

(* ================================================================== *)
(** ** The invariant of the running page *)
(* ================================================================== *)

Section InvariantProofs.

Variable Math_sin : float -> float.
Variable playlists : Playlists.
Variable trendingItems : list Item.

Local Open Scope float_scope.

Ltac open_Inv :=
  unfold Inv, video_ok, panels_ok, cursor_ok, screen_ok, item_ok in *.

Ltac close_Inv :=
  repeat split; intros; use_facts;
  try (eexists; split; [first [reflexivity | eassumption]|]; cbn);
  try (repeat split; intros; use_facts).

Ltac brute_Inv :=
  let v := fresh "v" in
  let Hv := fresh "Hv" in
  intros ? ((v & Hv & ? & ? & ? & ?) & ? & [? ?] & ? & ?);
  open_Inv; run_with Hv; close_Inv.

Lemma rem_index (a : Z) (l : list JS.str) :
  (0 <= a)%Z -> l <> [] ->
  (0 <= JS.rem a (Z.of_nat (List.length l)) < Z.of_nat (List.length l))%Z.
Proof.
  intros Ha Hl. unfold JS.rem. apply Z.rem_bound_pos; [exact Ha|].
  destruct l; [congruence|cbn; lia].
Qed.

Lemma next_index_nonneg (i : Z) (l : list JS.str) :
  (0 <= i)%Z -> l <> [] ->
  (0 <= JS.rem (i + 1) (Z.of_nat (List.length l)))%Z.
Proof. intros Hi Hl. apply rem_index; [lia|exact Hl]. Qed.

Lemma rem_pos_bound (a : Z) (p : positive) :
  (0 <= a)%Z -> (0 <= JS.rem a (Z.pos p) < Z.pos p)%Z.
Proof. intros Ha. unfold JS.rem. apply Z.rem_bound_pos; lia. Qed.

Lemma playFromPlaylist_Inv (pid : JS.str) (start : Z) :
  (0 <= start)%Z ->
  preserves (Inv playlists trendingItems) (playFromPlaylist playlists pid start).
Proof.
  intros Hs. brute_Inv.
  all: try (apply rem_pos_bound; assumption).
Qed.

Lemma ensureAudioEnabled_Inv :
  preserves (Inv playlists trendingItems) ensureAudioEnabled.
Proof. brute_Inv. Qed.

Lemma toggleMute_Inv : preserves (Inv playlists trendingItems) toggleMute.
Proof. brute_Inv. Qed.

Lemma changeVolume_Inv (delta : float) :
  preserves (Inv playlists trendingItems) (changeVolume delta).
Proof. brute_Inv. Qed.

Lemma seekBy_Inv (delta : float) :
  preserves (Inv playlists trendingItems) (seekBy delta).
Proof. brute_Inv. Qed.

Lemma loadeddata_listener_Inv :
  preserves (Inv playlists trendingItems) loadeddata_listener.
Proof.
  brute_Inv.
  all: try (rewrite length_app; cbn; lia).
Qed.


Lemma run_onended_Inv (c : EndedClosure) (s : State) (v : Video) :
  htmlVideo s = Some v -> onended v = Some c ->
  Inv playlists trendingItems s ->
  Inv playlists trendingItems (exec (run_onended playlists c) s).
Proof.
  intros Hv Hc HI. unfold run_onended, exec, bind, gets. cbn.
  apply playFromPlaylist_Inv; [|exact HI].
  destruct HI as ((v' & Hv' & _ & _ & _ & Hclo) & _ & [Hi _] & _).
  rewrite Hv in Hv'. injection Hv' as <-.
  destruct (Hclo c Hc) as (_ & _ & Hne).
  apply next_index_nonneg; assumption.
Qed.

(** The item a mesh of the scene carries is one of the trending items. *)
Lemma panel_item_listed (s : State) (ref : nat) (mesh : Panel) (item : Item) :
  panels_ok trendingItems s ->
  nth_error (panels s) ref = Some mesh -> userData_item mesh = Some item ->
  In item trendingItems.
Proof.
  intros (children & Hg & Hmap & _) Hn Hi. unfold panels in Hn.
  rewrite Hg in Hn.
  apply (f_equal (fun l => nth_error l ref)) in Hmap.
  rewrite !nth_error_map, Hn in Hmap. cbn in Hmap. rewrite Hi in Hmap.
  destruct (nth_error trendingItems ref) as [it|] eqn:E; [|discriminate].
  injection Hmap as ->. eapply nth_error_In; exact E.
Qed.

Lemma Inv_set_currentItem (item : Item) (s : State) :
  In item trendingItems -> Inv playlists trendingItems s ->
  Inv playlists trendingItems (set_currentItem (Some item) s).
Proof.
  intros Hin (Hv & Hp & Hc & Hs & _).
  split; [exact Hv|]. split; [exact Hp|]. split; [exact Hc|].
  split; [exact Hs|exact Hin].
Qed.

Lemma activatePanel_Inv (panel : option nat) :
  preserves (Inv playlists trendingItems) (activatePanel playlists panel).
Proof.
  intros s HI. unfold exec, activatePanel, try_catch, bind, gets, modify. cbn.
  destruct panel as [ref|]; [|exact HI].
  destruct (nth_error (panels s) ref) as [mesh|] eqn:Hn; [|exact HI].
  destruct (userData_item mesh) as [item|] eqn:Hi; [|exact HI].
  rewrite (ensureAudioEnabled_total _).
  assert (H1 : Inv playlists trendingItems
                 (exec ensureAudioEnabled (set_currentItem (Some item) s))).
  { apply ensureAudioEnabled_Inv, Inv_set_currentItem; [|exact HI].
    destruct HI as (_ & Hp & _). eapply panel_item_listed; eassumption. }
  destruct (JS.nonempty (playlistId item)); [|exact H1].
  rewrite (playFromPlaylist_total _ _ _ _). cbn.
  apply playFromPlaylist_Inv; [lia|exact H1].
Qed.

Lemma onLoadClick_Inv (input : option JS.str) :
  preserves (Inv playlists trendingItems) (onLoadClick playlists input).
Proof.
  intros s HI. unfold exec, onLoadClick.
  destruct (JS.nonempty
              match input with Some value => JS.trim value | None => [] end)
    eqn:Hin.
  - revert s HI. unfold preserves. change (preserves (Inv playlists trendingItems)
      (try_catch
         (video_pause ;;
          modify (set_isPlaying false) ;;
          modify (set_currentPlaylistId None) ;;
          update_video
            (with_src match input with Some value => JS.trim value | None => [] end) ;;
          video_load ;;
          texture_needsUpdate ;;
          update_video (with_onloadeddata true) ;;
          update_video (with_onended None))
         (reportError "Load video button"))).
    brute_Inv.
  - unfold try_catch, bind, gets. cbn.
    destruct (currentItem s) as [it|]; [destruct (JS.nonempty (playlistId it))|];
      rewrite (playFromPlaylist_total _ _ _ _); cbn;
      (apply playFromPlaylist_Inv; [lia|exact HI]).
Qed.


(** *** A frame *)

(** What a frame writes, field by field. *)
Lemma render_effect (now : float) (r : Rays) (s : State) (children : list Panel) :
  panelGroup s = Some children ->
  let s' := exec (render Math_sin now r) s in
  let t := now * 0.001 in
  panelGroup s' =
    Some (rehover (hoveredPanel s) (getHoveredPanel r)
            (bob_panels Math_sin t 0 children)) /\
  hoveredPanel s' = getHoveredPanel r /\
  screens s' =
    match curvedScreen s with
    | Some ref => update_nth ref (bob_screen Math_sin t) (screens s)
    | None => screens s
    end /\
  curvedScreen s' = curvedScreen s /\
  htmlVideo s' = htmlVideo s /\
  videoTexture s' = videoTexture s /\
  cursor s' = cursor s /\
  isPlaying s' = isPlaying s /\
  errors s' = errors s /\
  pendingPlay s' = pendingPlay s.
Proof.
  intros Hg. cbn zeta. unfold exec, render, try_catch, bind, modify.
  rewrite Hg. cbn.
  destruct (curvedScreen s) eqn:Hc; cbn;
    rewrite (updateHover_run r _ (bob_panels Math_sin (now * 0.001) 0 children))
      by reflexivity;
    cbn; rewrite ?Hc; repeat split; reflexivity.
Qed.

Lemma bob_plain (t : float) (i : nat) (m : Panel) :
  plain m -> plain (bob Math_sin t i m).
Proof. intros H. exact H. Qed.

Lemma bob_has_emissive (t : float) (i : nat) (m : Panel) :
  has_emissive m -> has_emissive (bob Math_sin t i m).
Proof. intros H. exact H. Qed.

Lemma render_Inv (now : float) (r : Rays) :
  preserves (Inv playlists trendingItems) (render Math_sin now r).
Proof.
  intros s (Hv & (children & Hg & Hmap & Hem & Hrest) & Hc & Hs & Hi).
  destruct (render_effect now r s children Hg)
    as (Eg & Eh & Es & Ec & Ev & Et & Ecur & _).
  unfold cursor in Ecur. injection Ecur as Eitem Eid Eidx _.
  assert (Hbob : forall i m,
            nth_error (bob_panels Math_sin (now * 0.001) 0 children) i = Some m ->
            exists m0, nth_error children i = Some m0 /\
                       m = bob Math_sin (now * 0.001) i m0).
  { intros i m. rewrite nth_error_bob_panels. cbn.
    destruct (nth_error children i) as [m0|]; [|discriminate].
    intros [= <-]. eauto. }
  split; [|split; [|split; [|split]]].
  - destruct Hv as (v & Hv & H0 & H1 & Ht & Hclo).
    exists v. rewrite Ev, Et, Eid. auto.
  - eexists. split; [exact Eg|]. split; [|split].
    + rewrite map_item_rehover, map_item_bob_panels. exact Hmap.
    + intros i m Hn.
      eapply (rehover_spec (hoveredPanel s) (getHoveredPanel r)); [| |exact Hn].
      * intros j mj Hj. destruct (Hbob j mj Hj) as (m0 & H0 & ->).
        apply bob_has_emissive. eapply Hem; exact H0.
      * intros j mj Hj Hne. destruct (Hbob j mj Hj) as (m0 & H0 & ->).
        apply bob_plain. eapply Hrest; eassumption.
    + intros i m Hn Hne. rewrite Eh in Hne.
      eapply (rehover_spec (hoveredPanel s) (getHoveredPanel r));
        [| |exact Hn|exact Hne].
      * intros j mj Hj. destruct (Hbob j mj Hj) as (m0 & H0 & ->).
        apply bob_has_emissive. eapply Hem; exact H0.
      * intros j mj Hj Hne'. destruct (Hbob j mj Hj) as (m0 & H0 & ->).
        apply bob_plain. eapply Hrest; eassumption.
  - unfold cursor_ok. rewrite Eidx, Eid. exact Hc.
  - intros ref Href. rewrite Ec in Href. rewrite Et.
    destruct (Hs ref Href) as [Hlt Htex]. split; [|exact Htex].
    rewrite Es, Href, length_update_nth. exact Hlt.
  - unfold item_ok. rewrite Eitem. exact Hi.
Qed.

(** *** Every event *)

Lemma handler_Inv (body : M unit) (stage : string) :
  total body -> preserves (Inv playlists trendingItems) body ->
  preserves (Inv playlists trendingItems) (try_catch body (reportError stage)).
Proof.
  intros Ht Hp s HI. unfold exec. rewrite (try_catch_skip _ _ s Ht). cbn.
  apply Hp, HI.
Qed.

Lemma Inv_step (e : Event) (s : State) :
  Inv playlists trendingItems s ->
  Inv playlists trendingItems (handle Math_sin playlists e s).
Proof.
  unfold handle. destruct e; cbn [dispatch].
  - apply onLoadClick_Inv.
  - revert s. change (preserves (Inv playlists trendingItems) onPlayPauseClick).
    brute_Inv.
  - apply handler_Inv; [apply toggleMute_total|apply toggleMute_Inv].
  - apply handler_Inv; [apply seekBy_total|apply seekBy_Inv].
  - apply handler_Inv; [apply seekBy_total|apply seekBy_Inv].
  - apply handler_Inv; [apply changeVolume_total|apply changeVolume_Inv].
  - apply handler_Inv; [apply changeVolume_total|apply changeVolume_Inv].
  - intros HI. unfold onWindowClick.
    destruct (getHoveredPanel r) as [h|]; [|exact HI].
    revert s HI. apply handler_Inv;
      [apply activatePanel_total|apply activatePanel_Inv].
  - intros HI. unfold onXRSelect.
    destruct hits as [|h rest]; [exact HI|].
    revert s HI. apply handler_Inv;
      [apply activatePanel_total|apply activatePanel_Inv].
  - apply render_Inv.
  - revert s. brute_Inv. all: try (rewrite length_app; cbn; lia).
  - intros HI. unfold exec, bind, gets.
    destruct (htmlVideo s) as [v|] eqn:Hv; [|exact HI].
    destruct (onended v) as [c|] eqn:Hc; [|exact HI].
    eapply run_onended_Inv; eassumption.
  - revert s. brute_Inv.
  - revert s. brute_Inv.
  - revert s. brute_Inv.
Qed.


(** *** The state after the init pipeline *)

Lemma new_panel_has_emissive (startX : float) (i : nat) (item : Item) :
  has_emissive (new_panel startX i item).
Proof. unfold has_emissive, new_panel. cbn. do 2 eexists. split; reflexivity. Qed.

Lemma new_panel_plain (startX : float) (i : nat) (item : Item) :
  plain (new_panel startX i item).
Proof. split; reflexivity. Qed.

Lemma Inv_init (v : Video) (s : State) :
  fresh_element v ->
  init_pipeline playlists trendingItems (Some v) globals = (s, inr tt) ->
  Inv playlists trendingItems s.
Proof.
  intros (H0 & H1 & Hl & He).
  unfold init_pipeline, setupPanels, setupVideoScreen, video_load, update_video,
    the_video, reportError.
  monad_unfold. cbn.
  assert (Hpanels : forall s',
            panelGroup s' =
              Some (build_panels
                      (- ((JS.of_nat (List.length trendingItems) - 1) * spacing) / 2)
                      0 trendingItems) ->
            hoveredPanel s' = None ->
            panels_ok trendingItems s').
  { intros s' Hg Hh. eexists. split; [exact Hg|]. split; [|split].
    - apply map_item_build_panels.
    - intros i m Hn. destruct (nth_error_build_panels _ _ _ _ _ Hn) as (it & ->).
      apply new_panel_has_emissive.
    - intros i m Hn _. destruct (nth_error_build_panels _ _ _ _ _ Hn) as (it & ->).
      apply new_panel_plain. }
  assert (Hitem : match hd_error trendingItems with
                  | Some item => In item trendingItems
                  | None => trendingItems = []
                  end).
  { destruct trendingItems; cbn; auto. }
  repeat (split_match; cbn); intros [= <-].
  all: split; [|split; [apply Hpanels; reflexivity|split; [|split]]].
  all: try (eexists; split; [reflexivity|]; cbn; rewrite ?He; repeat split;
            auto; discriminate).
  all: try (split; cbn; [lia|intros pid; try discriminate]).
  all: try (intros ref; cbn; discriminate).
  all: try exact Hitem.
  all: intros [= <-]; eexists; split; [eassumption|cbn; lia].
Qed.

(** Every state of the running page satisfies the invariant. *)
Lemma reachable_Inv (s : State) :
  reachable Math_sin playlists trendingItems s -> Inv playlists trendingItems s.
Proof.
  induction 1 as [v s Hf Hinit|s e _ IH].
  - eapply Inv_init; eassumption.
  - apply Inv_step, IH.
Qed.

End InvariantProofs.

(* ================================================================== *)
(** ** Volume and seek controls *)
(* ================================================================== *)

Section Controls.

Variable Math_sin : float -> float.
Variable playlists : Playlists.

Local Open Scope float_scope.

Lemma changeVolume_run (delta : float) (s : State) (v : Video) :
  htmlVideo s = Some v ->
  (0 <=? volume v) = true -> (volume v <=? 1) = true ->
  is_nan delta = false ->
  let newVol := JS.Math_max 0 (JS.Math_min 1 (volume v + delta)) in
  changeVolume delta s =
    (if 0 <? newVol
     then set_audioEnabled true
            (set_htmlVideo (Some (with_muted false (with_volume newVol v))) s)
     else set_htmlVideo (Some (with_volume newVol v)) s, inr tt).
Proof.
  intros Hv H0 H1 Hd newVol.
  destruct (FloatFacts.clamp_unit_range (volume v + delta)
              (FloatFacts.add_not_nan _ _ H0 H1 Hd)) as [R0 R1].
  fold newVol in R0, R1.
  unfold changeVolume, assign_volume, update_video, the_video.
  monad_unfold. rewrite Hv. cbn. fold newVol. rewrite R0, R1. cbn.
  rewrite Hv. cbn.
  destruct (0 <? newVol); cbn; reflexivity.
Qed.

(** C8.  For every number [delta] (anything but NaN), after
    [changeVolume(delta)] the volume of the video lies in 0..1, and when it
    is above 0 the video is not muted and [audioEnabled] is true. *)
Theorem changeVolume_keeps_range (delta : float) (s : State) (v : Video) :
  htmlVideo s = Some v ->
  (0 <=? volume v) = true -> (volume v <=? 1) = true ->
  is_nan delta = false ->
  exists v',
    htmlVideo (exec (changeVolume delta) s) = Some v' /\
    (0 <=? volume v') = true /\ (volume v' <=? 1) = true /\
    ((0 <? volume v') = true ->
     muted v' = false /\ audioEnabled (exec (changeVolume delta) s) = true).
Proof.
  intros Hv H0 H1 Hd.
  destruct (FloatFacts.clamp_unit_range (volume v + delta)
              (FloatFacts.add_not_nan _ _ H0 H1 Hd)) as [R0 R1].
  unfold exec. rewrite (changeVolume_run delta s v Hv H0 H1 Hd). cbn [fst].
  destruct (0 <? JS.Math_max 0 (JS.Math_min 1 (volume v + delta))) eqn:P.
  - eexists. split; [reflexivity|]. cbn. auto.
  - eexists. split; [reflexivity|]. cbn. repeat split; trivial; congruence.
Qed.

Lemma volume_click (delta : float) (stage : string) (s : State) (v : Video) :
  htmlVideo s = Some v ->
  (0 <=? volume v) = true -> (volume v <=? 1) = true ->
  is_nan delta = false ->
  exists v',
    htmlVideo (exec (try_catch (changeVolume delta) (reportError stage)) s)
      = Some v' /\
    volume v' = JS.Math_max 0 (JS.Math_min 1 (volume v + delta)) /\
    (0 <=? volume v') = true /\ (volume v' <=? 1) = true.
Proof.
  intros Hv H0 H1 Hd.
  destruct (FloatFacts.clamp_unit_range (volume v + delta)
              (FloatFacts.add_not_nan _ _ H0 H1 Hd)) as [R0 R1].
  unfold exec at 1. rewrite (try_catch_skip _ _ s (changeVolume_total delta)).
  cbn [fst]. unfold exec.
  rewrite (changeVolume_run delta s v Hv H0 H1 Hd). cbn [fst].
  destruct (0 <? JS.Math_max 0 (JS.Math_min 1 (volume v + delta)));
    eexists; (split; [reflexivity|]); cbn; auto.
Qed.

(** C3.  A click on the volume-up button sets the volume to the old volume
    plus 0.1, a click on the volume-down button to the old volume plus -0.1,
    in both cases clamped into 0..1 by [Math.max(0, Math.min(1, _))]. *)
Theorem volume_buttons (s : State) (v : Video) :
  htmlVideo s = Some v ->
  (0 <=? volume v) = true -> (volume v <=? 1) = true ->
  (exists up,
     htmlVideo (handle Math_sin playlists VolUpClick s) = Some up /\
     volume up = JS.Math_max 0 (JS.Math_min 1 (volume v + 0.1)) /\
     (0 <=? volume up) = true /\ (volume up <=? 1) = true) /\
  (exists down,
     htmlVideo (handle Math_sin playlists VolDownClick s) = Some down /\
     volume down = JS.Math_max 0 (JS.Math_min 1 (volume v + -0.1)) /\
     (0 <=? volume down) = true /\ (volume down <=? 1) = true).
Proof.
  intros Hv H0 H1. split.
  - apply (volume_click 0.1 "Volume up button" s v Hv H0 H1). reflexivity.
  - apply (volume_click (-0.1) "Volume down button" s v Hv H0 H1). reflexivity.
Qed.

(** *** Seeking *)

Lemma ltb_irrefl (a : float) : (a <? a) = false.
Proof.
  rewrite ltb_spec. unfold SFltb.
  destruct (Prim2SF a) as [sa|sa| |sa ma ea] eqn:E;
    try (rewrite FloatFacts.SFcompare_refl by congruence; reflexivity).
  reflexivity.
Qed.

(** The target is not below 0 while the duration is unknown or zero, and
    not above the duration less 0.1 otherwise. *)
Lemma seek_target_clamped (position length delta : float) :
  (JS.truthy length = false ->
   (seek_target position length delta <? 0) = false) /\
  (JS.truthy length = true ->
   (length - 0.1 <? seek_target position length delta) = false).
Proof.
  unfold seek_target, clamp_above, clamp_below_zero. split; intros Ht; rewrite Ht.
  - destruct (position + delta <? 0) eqn:E; [reflexivity|exact E].
  - set (t := if position + delta <? 0 then 0 else position + delta).
    destruct (length - 0.1 <? t) eqn:E; [apply ltb_irrefl|exact E].
Qed.

Lemma seekBy_run (delta : float) (s : State) (v : Video) :
  htmlVideo s = Some v ->
  is_nan (currentTime v) = false ->
  is_finite (seek_target (currentTime v) (duration v) delta) = true ->
  seekBy delta s =
    (set_htmlVideo
       (Some (with_currentTime
                (seek_target (currentTime v) (duration v) delta) v)) s,
     inr tt).
Proof.
  intros Hv Hn Hf.
  unfold seekBy, assign_currentTime, update_video, the_video. monad_unfold.
  rewrite Hv. cbn. rewrite Hn.
  assert (E : (if JS.truthy (if JS.truthy (duration v) then duration v else 0) &&
                  ((if JS.truthy (duration v) then duration v else 0) - 0.1 <?
                   (if currentTime v + delta <? 0 then 0
                    else currentTime v + delta))
               then (if JS.truthy (duration v) then duration v else 0) - 0.1
               else if currentTime v + delta <? 0 then 0
                    else currentTime v + delta)
              = seek_target (currentTime v) (duration v) delta).
  { unfold seek_target, clamp_above, clamp_below_zero.
    destruct (JS.truthy (duration v)) eqn:Ht.
    - rewrite Ht. reflexivity.
    - replace (JS.truthy 0) with false by reflexivity. reflexivity. }
  rewrite E, Hf. cbn. rewrite Hv. reflexivity.
Qed.

(** C4.  A click on the seek-back button moves the playback position by
    -10 seconds, a click on the seek-forward button by +10 seconds; the
    target is clamped below to 0 and then, when the duration is known and not
    zero, above to the duration less 0.1 seconds. *)
Theorem seek_buttons (s : State) (v : Video) :
  htmlVideo s = Some v ->
  is_nan (currentTime v) = false ->
  let back := seek_target (currentTime v) (duration v) (-10) in
  let forward := seek_target (currentTime v) (duration v) 10 in
  is_finite back = true -> is_finite forward = true ->
  handle Math_sin playlists SeekBackClick s =
    set_htmlVideo (Some (with_currentTime back v)) s /\
  handle Math_sin playlists SeekForwardClick s =
    set_htmlVideo (Some (with_currentTime forward v)) s /\
  (JS.truthy (duration v) = false ->
   (back <? 0) = false /\ (forward <? 0) = false) /\
  (JS.truthy (duration v) = true ->
   (duration v - 0.1 <? back) = false /\
   (duration v - 0.1 <? forward) = false).
Proof.
  intros Hv Hn back forward Hb Hf.
  split; [|split; [|split]].
  - unfold handle, dispatch, onSeekBackClick, exec.
    rewrite (try_catch_skip _ _ s (seekBy_total (-10))). cbn [fst]. unfold exec.
    rewrite (seekBy_run (-10) s v Hv Hn Hb). reflexivity.
  - unfold handle, dispatch, onSeekForwardClick, exec.
    rewrite (try_catch_skip _ _ s (seekBy_total 10)). cbn [fst]. unfold exec.
    rewrite (seekBy_run 10 s v Hv Hn Hf). reflexivity.
  - intros Ht. split; apply seek_target_clamped; exact Ht.
  - intros Ht. split; apply seek_target_clamped; exact Ht.
Qed.

End Controls.

(* ================================================================== *)
(** ** The animation frame *)
(* ================================================================== *)

Section Frames.

Variable Math_sin : float -> float.
Variable playlists : Playlists.
Variable trendingItems : list Item.

Local Open Scope float_scope.

Lemma map_position_rehover (previous hit : option nat) (children : list Panel) :
  List.map position (rehover previous hit children) =
  List.map position children.
Proof.
  unfold rehover.
  destruct hit as [h|], previous as [p|]; try destruct (Nat.eqb p h);
    rewrite ?(map_update_nth position highlight _ _ highlight_position),
            ?(map_update_nth position unhighlight _ _ unhighlight_position);
    reflexivity.
Qed.

(** C5.  A rendered frame at [t] seconds sets the height of panel [i] to
    [0.65 + Math.sin(t + i) * 0.03] and the height of the curved screen, when
    there is one, to [2.1 + Math.sin(t * 0.5) * 0.05]: a sine of fixed
    amplitude around a fixed base height. *)
Theorem frame_bobbing (now : float) (r : Rays) (s : State) (i : nat)
    (mesh : Panel) :
  reachable Math_sin playlists trendingItems s ->
  nth_error (panels s) i = Some mesh ->
  let s' := handle Math_sin playlists (Frame now r) s in
  let t := now * 0.001 in
  (exists mesh',
     nth_error (panels s') i = Some mesh' /\
     y (position mesh') = 0.65 + Math_sin (t + JS.of_nat i) * 0.03 /\
     x (position mesh') = x (position mesh) /\
     z (position mesh') = z (position mesh)) /\
  match curvedScreen s with
  | Some ref =>
      exists screen',
        curvedScreen s' = Some ref /\
        nth_error (screens s') ref = Some screen' /\
        y (screen_position screen') = 2.1 + Math_sin (t * 0.5) * 0.05
  | None => curvedScreen s' = None
  end.
Proof.
  intros Hr Hn s' t.
  pose proof (reachable_Inv _ _ _ _ Hr) as (_ & _ & _ & Hscreen & _).
  unfold panels in Hn.
  destruct (panelGroup s) as [children|] eqn:Hg; [|destruct i; discriminate].
  destruct (render_effect Math_sin now r s children Hg)
    as (Eg & _ & Es & Ec & _).
  subst s'. unfold handle. cbn [dispatch]. fold t in Eg, Es.
  split.
  - unfold panels. rewrite Eg.
    pose proof (map_position_rehover (hoveredPanel s) (getHoveredPanel r)
                  (bob_panels Math_sin t 0 children)) as Hpos.
    apply (f_equal (fun l => nth_error l i)) in Hpos.
    rewrite !nth_error_map, nth_error_bob_panels, Hn in Hpos. cbn in Hpos.
    destruct (nth_error (rehover _ _ _) i) as [mesh'|]; [|discriminate].
    injection Hpos as Hpos. exists mesh'. rewrite Hpos. cbn. auto.
  - destruct (curvedScreen s) as [ref|] eqn:Href; [|exact Ec].
    destruct (Hscreen ref Href) as [Hlt _].
    destruct (nth_error (screens s) ref) as [screen|] eqn:Hs;
      [|apply nth_error_None in Hs; lia].
    exists (bob_screen Math_sin t screen).
    split; [exact Ec|]. split; [|reflexivity].
    rewrite Es, nth_error_update_nth, Nat.eqb_refl, Hs. reflexivity.
Qed.


End Frames.

(* ================================================================== *)
(** ** Playlists *)
(* ================================================================== *)

Section PlaylistClaims.

Variable Math_sin : float -> float.
Variable playlists : Playlists.
Variable trendingItems : list Item.

Local Open Scope float_scope.

Lemma playFromPlaylist_run (pid : JS.str) (start : Z) (s : State) (v : Video) :
  htmlVideo s = Some v ->
  playFromPlaylist playlists pid start s =
    (match lookup playlists pid with
     | None | Some [] =>
         set_errors
           (("Playlist"%string,
             Error (JS.lit "No videos for playlist '" ++ pid ++ JS.lit "'"))
            :: errors s) s
     | Some list =>
         let s1 := started pid list
                     (JS.rem start (Z.of_nat (List.length list))) v s in
         match videoTexture s with
         | Some _ => installed pid list s1
         | None =>
             set_errors
               (("playFromPlaylist"%string,
                 TypeError "videoTexture is undefined") :: errors s) s1
         end
     end, inr tt).
Proof.
  intros Hv. unfold playFromPlaylist.
  destruct (lookup playlists pid) as [[|u rest]|]; try reflexivity.
  unfold video_pause, video_load, texture_needsUpdate, update_video, the_video,
    reportError, started, installed.
  monad_unfold. cbn. rewrite Hv. cbn.
  destruct (videoTexture s); cbn; reflexivity.
Qed.

Lemma playFromPlaylist_found (pid : JS.str) (start : Z) (s : State) (v : Video)
    (list : list JS.str) :
  htmlVideo s = Some v -> lookup playlists pid = Some list -> list <> [] ->
  playFromPlaylist playlists pid start s =
    (let s1 := started pid list
                 (JS.rem start (Z.of_nat (List.length list))) v s in
     match videoTexture s with
     | Some _ => installed pid list s1
     | None =>
         set_errors
           (("playFromPlaylist"%string,
             TypeError "videoTexture is undefined") :: errors s) s1
     end, inr tt).
Proof.
  intros Hv Hl Hne. rewrite (playFromPlaylist_run pid start s v Hv), Hl.
  destruct list; [congruence|reflexivity].
Qed.



Lemma at_index_in_range (list : list JS.str) (i : Z) :
  (0 <= i < Z.of_nat (List.length list))%Z ->
  exists u, at_index list i = Some u.
Proof.
  intros [H0 H1]. unfold at_index.
  destruct (i <? 0)%Z eqn:E; [apply Z.ltb_lt in E; lia|].
  destruct (nth_error list (Z.to_nat i)) as [u|] eqn:N; [eauto|].
  apply nth_error_None in N. lia.
Qed.

Lemma rem_is_mod (a : Z) (l : list JS.str) :
  (0 <= a)%Z -> l <> [] ->
  JS.rem a (Z.of_nat (List.length l)) = (a mod Z.of_nat (List.length l))%Z.
Proof.
  intros Ha Hl. unfold JS.rem. apply Z.rem_mod_nonneg; [exact Ha|].
  destruct l; [congruence|cbn; lia].
Qed.



End PlaylistClaims.

(* ================================================================== *)
(** ** Activating a panel and loading a URL *)
(* ================================================================== *)

Section Activation.

Variable Math_sin : float -> float.
Variable playlists : Playlists.
Variable trendingItems : list Item.

Local Open Scope float_scope.

Lemma ensureAudioEnabled_run (s : State) (v : Video) :
  htmlVideo s = Some v ->
  ensureAudioEnabled s =
    (if audioEnabled s then s
     else set_audioEnabled true
            (set_htmlVideo (Some (with_volume 1 (with_muted false v))) s),
     inr tt).
Proof.
  intros Hv.
  unfold ensureAudioEnabled, assign_volume, update_video, the_video.
  monad_unfold. rewrite Hv. cbn.
  destruct (audioEnabled s); [reflexivity|]. cbn. rewrite Hv. cbn. reflexivity.
Qed.

(** Both ways of activating a panel run [activatePanel] on it. *)
Lemma activation_runs (ref : nat) (e : Event) (s : State) :
  activates ref e ->
  handle Math_sin playlists e s = exec (activatePanel playlists (Some ref)) s.
Proof.
  intros [r Hr|rest]; unfold handle, dispatch, onWindowClick, onXRSelect, exec;
    rewrite ?Hr;
    rewrite (try_catch_skip _ _ s (activatePanel_total playlists (Some ref)));
    reflexivity.
Qed.

(** When the data of a video has arrived, [play()] is called on it and a
    screen showing it exists. *)
Lemma loadeddata_plays (s : State) (v : Video) :
  htmlVideo s = Some v ->
  let s2 := handle Math_sin playlists LoadedData s in
  exists v2 screen,
    htmlVideo s2 = Some v2 /\ src v2 = src v /\ paused v2 = false /\
    (pendingPlay s < pendingPlay s2)%nat /\
    curvedScreen s2 = Some (List.length (screens s)) /\
    nth_error (screens s2) (List.length (screens s)) = Some screen /\
    videoTexture s2 <> None.
Proof.
  intros Hv. unfold handle, dispatch. run_with Hv.
  all: do 2 eexists; repeat split; try reflexivity; try lia; try discriminate.
  all: rewrite nth_error_app2, Nat.sub_diag by lia; reflexivity.
Qed.

(** What [activatePanel] leaves for a panel whose item names a playlist. *)
Lemma activatePanel_run (s : State) (v : Video) (ref : nat) (mesh : Panel)
    (item : Item) (first : JS.str) (rest : list JS.str) :
  htmlVideo s = Some v ->
  nth_error (panels s) ref = Some mesh ->
  userData_item mesh = Some item ->
  JS.nonempty (playlistId item) = true ->
  lookup playlists (playlistId item) = Some (first :: rest) ->
  let s1 := exec (activatePanel playlists (Some ref)) s in
  currentItem s1 = Some item /\
  currentPlaylistId s1 = Some (playlistId item) /\
  currentPlaylistIndex s1 = 0%Z /\
  exists v1, htmlVideo s1 = Some v1 /\ src v1 = first /\
             loads v1 = S (loads v).
Proof.
  intros Hv Hn Hi Hne Hl. cbn zeta.
  unfold exec, activatePanel, try_catch, bind, gets, modify. cbn.
  rewrite Hn, Hi, Hne.
  rewrite (ensureAudioEnabled_run (set_currentItem (Some item) s) v Hv).
  destruct (audioEnabled s) eqn:Ha; cbn; rewrite ?Ha.
  - rewrite (playFromPlaylist_run playlists (playlistId item) 0
               (set_currentItem (Some item) s) v Hv), Hl.
    cbn. unfold installed, started. cbn.
    destruct (videoTexture s); cbn; repeat split; eexists; repeat split.
  - erewrite playFromPlaylist_run by reflexivity. rewrite Hl.
    cbn. unfold installed, started. cbn.
    destruct (videoTexture s); cbn; repeat split; eexists; repeat split.
Qed.

(** C1.  Activating a panel of the scene, by a click or by an XR select on
    it, makes the panel's item the current item and switches the video to the
    first entry (index 0) of the item's playlist; once its data has loaded,
    [play()] is called on it and the curved screen shows it. *)
Theorem activation_plays_playlist (s : State) (ref : nat) (mesh : Panel)
    (e : Event) :
  playable playlists trendingItems ->
  reachable Math_sin playlists trendingItems s ->
  nth_error (panels s) ref = Some mesh ->
  activates ref e ->
  let s1 := handle Math_sin playlists e s in
  let s2 := handle Math_sin playlists LoadedData s1 in
  exists item list url,
    userData_item mesh = Some item /\
    lookup playlists (playlistId item) = Some list /\
    at_index list 0 = Some url /\
    currentItem s1 = Some item /\
    currentPlaylistId s1 = Some (playlistId item) /\
    currentPlaylistIndex s1 = 0%Z /\
    (exists v1, htmlVideo s1 = Some v1 /\ src v1 = url) /\
    (exists v2 k screen,
       htmlVideo s2 = Some v2 /\ src v2 = url /\ paused v2 = false /\
       (pendingPlay s1 < pendingPlay s2)%nat /\
       curvedScreen s2 = Some k /\ nth_error (screens s2) k = Some screen /\
       videoTexture s2 <> None).
Proof.
  intros Hplay Hr Hn Hact s1 s2.
  pose proof (reachable_Inv _ _ _ _ Hr) as ((v & Hv & _) & Hpanels & _).
  assert (Hitem : exists item, userData_item mesh = Some item).
  { destruct Hpanels as (children & Hg & Hmap & _). unfold panels in Hn.
    rewrite Hg in Hn.
    apply (f_equal (fun l => nth_error l ref)) in Hmap.
    rewrite !nth_error_map, Hn in Hmap. cbn in Hmap.
    destruct (nth_error trendingItems ref) as [it|]; [|discriminate].
    exists it. cbn in Hmap. congruence. }
  destruct Hitem as (item & Hi).
  destruct (Hplay item
              (panel_item_listed trendingItems s ref mesh item Hpanels Hn Hi))
    as (Hne & first & rest & Hl).
  destruct (activatePanel_run s v ref mesh item first rest Hv Hn Hi Hne Hl)
    as (E1 & E2 & E3 & v1 & Hv1 & Hsrc & _).
  rewrite <- (activation_runs ref e s Hact) in E1, E2, E3, Hv1.
  fold s1 in E1, E2, E3, Hv1.
  destruct (loadeddata_plays s1 v1 Hv1)
    as (v2 & screen & Hv2 & Hs2 & Hp2 & Hpend & Hcs & Hscr & Htex).
  fold s2 in Hv2, Hpend, Hcs, Hscr, Htex.
  exists item, (first :: rest), first.
  repeat split; trivial.
  - exists v1. auto.
  - exists v2, (List.length (screens s1)), screen.
    repeat split; trivial. congruence.
Qed.


End Activation.

(* ================================================================== *)
(** ** The playback variables *)
(* ================================================================== *)

Section Hover.

Variable Math_sin : float -> float.
Variable playlists : Playlists.

(** Only a frame touches the hover variable and the meshes. *)
Lemma playback_leaves_hover (e : Event) (s : State) :
  is_frame e = false ->
  hoveredPanel (handle Math_sin playlists e s) = hoveredPanel s /\
  panelGroup (handle Math_sin playlists e s) = panelGroup s.
Proof.
  intros Hf. unfold handle.
  destruct (htmlVideo s) as [v|] eqn:Hv;
    destruct e; try discriminate; cbn [dispatch]; run_with Hv; auto.
Qed.

End Hover.

Section SampleRuns.

Variable Math_sin : float -> float.

Lemma booted_reachable :
  reachable Math_sin Catalog.playlists Catalog.trendingItems Sample.booted.
Proof.
  apply (reach_init Math_sin Catalog.playlists Catalog.trendingItems Sample.element).
  - repeat split; vm_compute; reflexivity.
  - vm_compute. reflexivity.
Qed.

Lemma ready_reachable :
  reachable Math_sin Catalog.playlists Catalog.trendingItems Sample.ready.
Proof.
  change Sample.ready
    with (handle Math_sin Catalog.playlists LoadedData Sample.booted).
  apply reach_step, booted_reachable.
Qed.

Lemma browsing_reachable :
  reachable Math_sin Catalog.playlists Catalog.trendingItems Sample.browsing.
Proof.
  change Sample.browsing
    with (handle Math_sin Catalog.playlists
            (WindowClick (Sample.pointer_at 1)) Sample.ready).
  apply reach_step, ready_reachable.
Qed.

End SampleRuns.

Lemma catalogue_playable : playable Catalog.playlists Catalog.trendingItems.
Proof.
  intros item [<-|[<-|[<-|[<-|[]]]]]; (split; [reflexivity|]);
    do 2 eexists; vm_compute; reflexivity.
Qed.



(* ================================================================== *)
(** ** Relations every step of a handler keeps *)
(* ================================================================== *)

(** A relation between the state before and the state after that holds for
    a whole handler as soon as it holds for each of its writes. *)
Section Keeps.

Variable R : State -> State -> Prop.
Hypothesis R_refl : forall s, R s s.
Hypothesis R_trans : forall s1 s2 s3, R s1 s2 -> R s2 s3 -> R s1 s3.

Lemma keeps_ret {A : Type} (a : A) : keeps R (ret a).
Proof. intros s. apply R_refl. Qed.

Lemma keeps_gets {A : Type} (f : State -> A) : keeps R (gets f).
Proof. intros s. apply R_refl. Qed.

Lemma keeps_throw {A : Type} (e : exn) : keeps R (@throw A e).
Proof. intros s. apply R_refl. Qed.

Lemma keeps_bind {A B : Type} (m : M A) (k : A -> M B) :
  keeps R m -> (forall a, keeps R (k a)) -> keeps R (bind m k).
Proof.
  intros Hm Hk s. unfold bind. specialize (Hm s).
  destruct (m s) as [s' [e|a]]; cbn in *; [exact Hm|].
  eapply R_trans; [exact Hm|apply Hk].
Qed.

Lemma keeps_try_catch (body : M unit) (handler : exn -> M unit) :
  keeps R body -> (forall e, keeps R (handler e)) ->
  keeps R (try_catch body handler).
Proof.
  intros Hm Hk s. unfold try_catch. specialize (Hm s).
  destruct (body s) as [s' [e|a]]; cbn in *; [|exact Hm].
  eapply R_trans; [exact Hm|apply Hk].
Qed.

Lemma keeps_modify (f : State -> State) :
  (forall s, R s (f s)) -> keeps R (modify f).
Proof. intros Hf s. apply Hf. Qed.

End Keeps.

(** Take a handler apart into its writes. *)
Ltac keeps_step Hrefl Htrans :=
  match goal with
  | |- keeps _ (bind _ _) =>
      apply (keeps_bind _ Htrans); [|intros ?]
  | |- keeps _ (try_catch _ _) =>
      apply (keeps_try_catch _ Htrans); [|intros ?]
  | |- keeps _ (ret _) => apply (keeps_ret _ Hrefl)
  | |- keeps _ (gets _) => apply (keeps_gets _ Hrefl)
  | |- keeps _ (throw _) => apply (keeps_throw _ Hrefl)
  | |- keeps _ (modify _) => apply keeps_modify; intros ?
  | |- keeps _ (match ?x with _ => _ end) => destruct x
  | |- keeps _ (let _ := _ in _) => cbv zeta
  end.

Ltac keeps_unfold :=
  unfold onLoadClick, onPlayPauseClick, onUnmuteClick,
    onSeekBackClick, onSeekForwardClick, onVolDownClick, onVolUpClick,
    onWindowClick, onXRSelect, render, updateHover, update_panel,
    activatePanel, run_onended, playFromPlaylist, ensureAudioEnabled,
    toggleMute, changeVolume, seekBy, pauseVideo, playVideo, play_fulfilled,
    play_rejected, loadeddata_listener, error_listener, video_pause,
    video_load, texture_needsUpdate, assign_volume, assign_currentTime,
    update_video, the_video, reportError.

Ltac keeps_all Hrefl Htrans :=
  repeat first [progress keeps_unfold | keeps_step Hrefl Htrans].
(* ================================================================== *)
(** ** What the page reports *)
(* ================================================================== *)

Section Reports.

Variable Math_sin : float -> float.
Variable playlists : Playlists.
Variable trendingItems : list Item.

Local Open Scope float_scope.

Lemma playFromPlaylist_quiet (pid : JS.str) (start : Z) (s : State) (v : Video)
    (tx : Texture) (list : list JS.str) :
  htmlVideo s = Some v -> videoTexture s = Some tx ->
  lookup playlists pid = Some list -> list <> [] ->
  errors (exec (playFromPlaylist playlists pid start) s) = errors s.
Proof.
  intros Hv Ht Hl Hne. unfold exec.
  rewrite (playFromPlaylist_found playlists pid start s v list Hv Hl Hne), Ht.
  reflexivity.
Qed.

Lemma toggleMute_run (s : State) (v : Video) :
  htmlVideo s = Some v ->
  toggleMute s =
    (if muted v || (volume v =? 0)
     then set_audioEnabled true
            (set_htmlVideo (Some (with_volume 1 (with_muted false v))) s)
     else set_htmlVideo (Some (with_muted true v)) s, inr tt).
Proof.
  intros Hv. unfold toggleMute, assign_volume, update_video, the_video.
  monad_unfold. rewrite Hv. cbn.
  destruct (muted v || (volume v =? 0)); cbn; rewrite Hv; reflexivity.
Qed.

Lemma activatePanel_quiet (panel : option nat) (s : State) :
  playable playlists trendingItems ->
  Inv playlists trendingItems s -> videoTexture s <> None ->
  errors (exec (activatePanel playlists panel) s) = errors s.
Proof.
  intros Hplay HI Htx.
  pose proof HI as ((v & Hv & _) & Hpanels & _).
  unfold exec, activatePanel, try_catch, bind, gets, modify. cbn.
  destruct panel as [ref|]; [|reflexivity].
  destruct (nth_error (panels s) ref) as [mesh|] eqn:Hn; [|reflexivity].
  destruct (userData_item mesh) as [item|] eqn:Hi; [|reflexivity].
  destruct (Hplay item
              (panel_item_listed trendingItems s ref mesh item Hpanels Hn Hi))
    as (Hne & first & rest & Hl).
  rewrite (ensureAudioEnabled_run (set_currentItem (Some item) s) v Hv), Hne.
  destruct (videoTexture s) as [tx|] eqn:Et; [|congruence].
  cbn [audioEnabled set_currentItem].
  destruct (audioEnabled s); cbn [fst snd];
    rewrite (playFromPlaylist_total playlists _ _ _); cbn [fst];
    erewrite (playFromPlaylist_quiet _ _ _ _ tx (first :: rest));
    try reflexivity; try exact Hv; trivial; discriminate.
Qed.

Lemma quiet_step (e : Event) (s : State) :
  playable playlists trendingItems -> trendingItems <> [] ->
  reachable Math_sin playlists trendingItems s ->
  videoTexture s <> None ->
  is_fault e = false -> is_seek e = false ->
  errors (handle Math_sin playlists e s) = errors s.
Proof.
  intros Hplay Hitems Hr Htx Hfault Hseek.
  pose proof (reachable_Inv _ _ _ _ Hr) as HI.
  pose proof HI as ((v & Hv & H0 & H1 & _ & Hclo) & Hpanels & _ & _ & Hitem).
  destruct (videoTexture s) as [tx|] eqn:Et; [clear Htx|congruence].
  unfold handle. destruct e; try discriminate; cbn [dispatch].
  - unfold exec, onLoadClick.
    destruct (JS.nonempty
                match input with Some value => JS.trim value | None => [] end).
    + unfold video_pause, video_load, texture_needsUpdate, update_video,
        the_video, reportError.
      monad_unfold. cbn. rewrite Hv. cbn. rewrite Et. reflexivity.
    + unfold try_catch, bind, gets. cbn. unfold item_ok in Hitem.
      destruct (currentItem s) as [it|]; [|congruence].
      destruct (Hplay it Hitem) as (Hne & first & rest & Hl). rewrite Hne.
      rewrite (playFromPlaylist_total playlists _ _ s). cbn [fst].
      apply (playFromPlaylist_quiet _ _ s v tx (first :: rest));
        trivial; discriminate.
  - run_with Hv; reflexivity.
  - unfold onUnmuteClick, exec.
    rewrite (try_catch_skip _ _ s toggleMute_total). unfold exec.
    rewrite (toggleMute_run s v Hv).
    destruct (muted v || (volume v =? 0)); reflexivity.
  - unfold onVolDownClick, exec.
    rewrite (try_catch_skip _ _ s (changeVolume_total _)). unfold exec.
    rewrite (changeVolume_run (-0.1) s v Hv H0 H1 eq_refl). cbn [fst].
    destruct (0 <? _); reflexivity.
  - unfold onVolUpClick, exec.
    rewrite (try_catch_skip _ _ s (changeVolume_total _)). unfold exec.
    rewrite (changeVolume_run 0.1 s v Hv H0 H1 eq_refl). cbn [fst].
    destruct (0 <? _); reflexivity.
  - unfold onWindowClick, exec.
    destruct (getHoveredPanel r) as [h|]; [|reflexivity].
    rewrite (try_catch_skip _ _ s (activatePanel_total playlists _)).
    apply activatePanel_quiet; trivial. congruence.
  - unfold onXRSelect, exec.
    destruct hits as [|h rest]; [reflexivity|].
    rewrite (try_catch_skip _ _ s (activatePanel_total playlists _)).
    apply activatePanel_quiet; trivial. congruence.
  - destruct Hpanels as (children & Hg & _).
    apply (render_effect Math_sin now r s children Hg).
  - run_with Hv; reflexivity.
  - unfold exec, bind, gets. rewrite Hv.
    destruct (onended v) as [c|] eqn:Hc; [|reflexivity].
    destruct (Hclo c eq_refl) as (_ & Hl & Hne).
    unfold run_onended, bind, gets.
    apply (playFromPlaylist_quiet _ _ s v tx (captured_list c)); trivial.
  - destruct outcome; [|discriminate]. run_with Hv; reflexivity.
  - run_with Hv; reflexivity.
Qed.

Lemma texture_stays (e : Event) (s : State) :
  videoTexture s <> None ->
  videoTexture (handle Math_sin playlists e s) <> None.
Proof.
  revert s.
  change (keeps (fun s s' => videoTexture s <> None -> videoTexture s' <> None)
            (dispatch Math_sin playlists e)).
  assert (Hrefl : forall s : State, videoTexture s <> None -> videoTexture s <> None)
    by auto.
  assert (Htrans : forall s1 s2 s3 : State,
            (videoTexture s1 <> None -> videoTexture s2 <> None) ->
            (videoTexture s2 <> None -> videoTexture s3 <> None) ->
            videoTexture s1 <> None -> videoTexture s3 <> None) by auto.
  destruct e; cbn [dispatch]; keeps_all Hrefl Htrans.
  all: cbn; repeat split_match; cbn; auto; discriminate.
Qed.

(** X1.  Once the first video has data, no error is ever reported again, as
    long as the browser reports no fault of its own and the seek buttons are
    left alone: whatever cards are clicked or selected, whatever the other
    buttons, the frames and the media events do in whatever order, the log
    of errors stays as it is. *)
Theorem ready_page_reports_nothing (es : list Event) (s : State) :
  playable playlists trendingItems -> trendingItems <> [] ->
  reachable Math_sin playlists trendingItems s ->
  videoTexture s <> None ->
  Forall (fun e => is_fault e = false /\ is_seek e = false) es ->
  errors (run Math_sin playlists es s) = errors s.
Proof.
  intros Hplay Hitems Hr Htx Hes. revert s Hr Htx. unfold run.
  induction Hes as [|e es [Hf Hs] _ IH]; intros s Hr Htx; cbn [fold_left];
    [reflexivity|].
  rewrite IH.
  - apply quiet_step; assumption.
  - apply reach_step, Hr.
  - apply texture_stays, Htx.
Qed.

End Reports.
(* ================================================================== *)
(** ** Sound and seeking at the edges *)
(* ================================================================== *)

Section Edges.

Variable Math_sin : float -> float.
Variable playlists : Playlists.
Variable trendingItems : list Item.

Local Open Scope float_scope.

Lemma add_nan_r (a d : float) : is_nan d = true -> is_nan (a + d) = true.
Proof.
  rewrite !FloatFacts.is_nan_spec, add_spec. intros ->.
  destruct (Prim2SF a) as [sa|sa| |sa ma ea]; reflexivity.
Qed.

Lemma nan_is_nan (f : float) : is_nan f = true -> f = nan.
Proof.
  intros H. apply FloatFacts.is_nan_spec in H.
  rewrite <- (SF2Prim_Prim2SF f), H. reflexivity.
Qed.

(** X22.  [changeVolume(NaN)]: the clamp lets NaN through, the setter of
    [volume] refuses it, and the function reports the exception and leaves
    the volume, the mute flag and [audioEnabled] as they were. *)
Theorem changeVolume_rejects_nan (delta : float) (s : State) (v : Video) :
  htmlVideo s = Some v -> is_nan delta = true ->
  exec (changeVolume delta) s =
    set_errors
      (("changeVolume"%string, TypeError "volume is not finite") :: errors s) s.
Proof.
  intros Hv Hd.
  assert (E : JS.Math_max 0 (JS.Math_min 1 (volume v + delta)) = nan).
  { unfold JS.Math_min. rewrite (add_nan_r (volume v) delta Hd).
    rewrite orb_true_r. reflexivity. }
  unfold exec, changeVolume, assign_volume, update_video, the_video,
    reportError.
  monad_unfold. rewrite Hv. cbn. rewrite E. reflexivity.
Qed.

(** X23.  [seekBy] at its edges: while the position of the video is NaN nothing
    happens at all; a target that is not a finite number is refused by the
    setter of [currentTime], and the function reports the exception and leaves
    the position where it was. *)
Theorem seekBy_refuses_bad_targets (delta : float) (s : State) (v : Video) :
  htmlVideo s = Some v ->
  (is_nan (currentTime v) = true -> exec (seekBy delta) s = s) /\
  (is_nan (currentTime v) = false ->
   is_finite (seek_target (currentTime v) (duration v) delta) = false ->
   exec (seekBy delta) s =
     set_errors
       (("Seek"%string, TypeError "currentTime is not finite") :: errors s) s).
Proof.
  intros Hv. split.
  - intros Hn. unfold exec, seekBy. monad_unfold. rewrite Hv. cbn.
    rewrite Hn. reflexivity.
  - intros Hn Hf.
    unfold exec, seekBy, assign_currentTime, update_video, the_video,
      reportError.
    monad_unfold. rewrite Hv. cbn. rewrite Hn.
    unfold seek_target, clamp_above, clamp_below_zero in Hf.
    destruct (JS.truthy (duration v)) eqn:Ht.
    + rewrite Ht. cbn.
      destruct (duration v - 0.1 <?
                (if currentTime v + delta <? 0 then 0
                 else currentTime v + delta));
        rewrite Hf; reflexivity.
    + replace (JS.truthy 0) with false by reflexivity. cbn.
      rewrite Hf. reflexivity.
Qed.

(** X14.  The mute button: a click on a muted or silent video unmutes it at full
    volume and enables the audio; a click on an audible video mutes it and
    keeps its volume, so that muting and unmuting an audible video ends at
    volume 1 whatever the volume was. *)
Theorem unmuting_restores_full_volume (s : State) (v : Video) :
  htmlVideo s = Some v ->
  let s1 := handle Math_sin playlists UnmuteClick s in
  let s2 := handle Math_sin playlists UnmuteClick s1 in
  (muted v || (volume v =? 0) = true ->
   s1 = set_audioEnabled true
          (set_htmlVideo (Some (with_volume 1 (with_muted false v))) s)) /\
  (muted v || (volume v =? 0) = false ->
   s1 = set_htmlVideo (Some (with_muted true v)) s /\
   exists v2,
     htmlVideo s2 = Some v2 /\ muted v2 = false /\ volume v2 = 1 /\
     audioEnabled s2 = true /\ src v2 = src v /\ currentTime v2 = currentTime v).
Proof.
  intros Hv s1 s2.
  assert (E1 : s1 = fst (toggleMute s)).
  { subst s1. unfold handle, dispatch, onUnmuteClick, exec.
    rewrite (try_catch_skip _ _ s toggleMute_total). reflexivity. }
  assert (E2 : s2 = fst (toggleMute s1)).
  { subst s2. unfold handle, dispatch, onUnmuteClick, exec.
    rewrite (try_catch_skip _ _ s1 toggleMute_total). reflexivity. }
  rewrite (toggleMute_run s v Hv) in E1.
  split; intros Hm; rewrite Hm in E1; cbn [fst] in E1; [exact E1|].
  split; [exact E1|].
  rewrite (toggleMute_run s1 (with_muted true v)) in E2
    by (rewrite E1; reflexivity).
  cbn [muted with_muted orb fst] in E2.
  rewrite E2. eexists. split; [reflexivity|]. cbn. auto.
Qed.

End Edges.
(* ================================================================== *)
(** ** What no handler does *)
(* ================================================================== *)

Section Never.

Variable Math_sin : float -> float.
Variable playlists : Playlists.

Local Open Scope float_scope.

(** X15.  [audioEnabled] is a latch: no handler writes [false] to it, so once
    the audio has been enabled it stays enabled, whatever happens. *)
Theorem audio_stays_enabled (e : Event) (s : State) :
  audioEnabled s = true ->
  audioEnabled (handle Math_sin playlists e s) = true.
Proof.
  revert s.
  change (keeps (fun s s' => audioEnabled s = true -> audioEnabled s' = true)
            (dispatch Math_sin playlists e)).
  assert (Hrefl : forall s : State, audioEnabled s = true -> audioEnabled s = true)
    by auto.
  assert (Htrans : forall s1 s2 s3 : State,
            (audioEnabled s1 = true -> audioEnabled s2 = true) ->
            (audioEnabled s2 = true -> audioEnabled s3 = true) ->
            audioEnabled s1 = true -> audioEnabled s3 = true) by auto.
  destruct e; cbn [dispatch]; keeps_all Hrefl Htrans.
  all: cbn; repeat split_match; cbn; auto.
Qed.

(** X16.  [isPlaying] becomes true in one place only, the fulfilment of a
    promise of [play()]: a click, a frame or a media event never sets it. *)
Theorem only_a_fulfilled_play_sets_isPlaying (e : Event) (s : State) :
  isPlaying s = false ->
  isPlaying (handle Math_sin playlists e s) = true ->
  e = PlaySettled Fulfilled /\ (0 < pendingPlay s)%nat.
Proof.
  intros Hp Hq.
  assert (Hrefl : forall s : State, isPlaying s = true -> isPlaying s = true)
    by auto.
  assert (Htrans : forall s1 s2 s3 : State,
            (isPlaying s2 = true -> isPlaying s1 = true) ->
            (isPlaying s3 = true -> isPlaying s2 = true) ->
            isPlaying s3 = true -> isPlaying s1 = true) by auto.
  assert (Hother : e <> PlaySettled Fulfilled ->
            keeps (fun s s' => isPlaying s' = true -> isPlaying s = true)
              (dispatch Math_sin playlists e)).
  { intros Hne. destruct e as [| | | | | | | | | | | | |[|err]|];
      try congruence; cbn [dispatch]; keeps_all Hrefl Htrans.
    all: cbn; repeat split_match; cbn; auto; discriminate. }
  destruct e as [| | | | | | | | | | | | |[|err]|];
    try (apply Hother in Hq; [congruence|discriminate]).
  split; [reflexivity|].
  unfold handle, exec, dispatch, bind, gets in Hq.
  destruct (pendingPlay s); [cbn in Hq; congruence|lia].
Qed.

End Never.
(* ================================================================== *)
(** ** Activating a card: the audio, and a card clicked too early *)
(* ================================================================== *)

Section Cards.

Variable Math_sin : float -> float.
Variable playlists : Playlists.
Variable trendingItems : list Item.

Local Open Scope float_scope.

(** [playFromPlaylist] writes neither the mute flag nor the volume. *)
Lemma playFromPlaylist_sound (pid : JS.str) (start : Z) (s : State) (v : Video) :
  htmlVideo s = Some v ->
  exists v',
    htmlVideo (exec (playFromPlaylist playlists pid start) s) = Some v' /\
    muted v' = muted v /\ volume v' = volume v /\
    audioEnabled (exec (playFromPlaylist playlists pid start) s)
      = audioEnabled s.
Proof.
  intros Hv. unfold exec.
  rewrite (playFromPlaylist_run playlists pid start s v Hv).
  destruct (lookup playlists pid) as [[|u rest]|]; cbn [fst];
    try (exists v; repeat split; exact Hv).
  unfold installed, started.
  destruct (videoTexture s); cbn; eexists; repeat split.
Qed.

(** The item a mesh of the running page carries. *)
Lemma panel_has_item (s : State) (ref : nat) (mesh : Panel) :
  panels_ok trendingItems s -> nth_error (panels s) ref = Some mesh ->
  exists item, userData_item mesh = Some item.
Proof.
  intros (children & Hg & Hmap & _) Hn. unfold panels in Hn. rewrite Hg in Hn.
  apply (f_equal (fun l => nth_error l ref)) in Hmap.
  rewrite !nth_error_map, Hn in Hmap. cbn in Hmap.
  destruct (nth_error trendingItems ref) as [it|]; [|discriminate].
  exists it. cbn in Hmap. congruence.
Qed.

(** X13.  The first activation of a card unmutes the video at full volume; every
    later one leaves the mute flag and the volume as the visitor set them. *)
Theorem cards_unmute_once (s : State) (v : Video) (ref : nat) (mesh : Panel)
    (e : Event) :
  reachable Math_sin playlists trendingItems s ->
  htmlVideo s = Some v ->
  nth_error (panels s) ref = Some mesh ->
  activates ref e ->
  let s' := handle Math_sin playlists e s in
  exists v',
    htmlVideo s' = Some v' /\ audioEnabled s' = true /\
    (audioEnabled s = false -> muted v' = false /\ volume v' = 1) /\
    (audioEnabled s = true ->
     muted v' = muted v /\ volume v' = volume v).
Proof.
  intros Hr Hv Hn Hact. cbn zeta.
  pose proof (reachable_Inv _ _ _ _ Hr) as (_ & Hpanels & _).
  destruct (panel_has_item s ref mesh Hpanels Hn) as (item & Hi).
  rewrite (activation_runs Math_sin playlists ref e s Hact).
  unfold exec, activatePanel, try_catch, bind, gets, modify. cbn.
  rewrite Hn, Hi.
  rewrite (ensureAudioEnabled_run (set_currentItem (Some item) s) v Hv).
  cbn [audioEnabled set_currentItem].
  destruct (audioEnabled s) eqn:Ha; cbn [fst snd].
  - destruct (JS.nonempty (playlistId item)).
    + rewrite (playFromPlaylist_total playlists _ _ _). cbn [fst].
      destruct (playFromPlaylist_sound (playlistId item) 0
                  (set_currentItem (Some item) s) v Hv)
        as (v' & Hv' & Hm & Hvol & Hau).
      exists v'. cbn in Hau. rewrite Hau. repeat split; trivial; congruence.
    + cbn. exists v. repeat split; trivial; congruence.
  - destruct (JS.nonempty (playlistId item)).
    + rewrite (playFromPlaylist_total playlists _ _ _). cbn [fst].
      destruct (playFromPlaylist_sound (playlistId item) 0
                  (set_audioEnabled true
                     (set_htmlVideo
                        (Some (with_volume 1 (with_muted false v)))
                        (set_currentItem (Some item) s)))
                  (with_volume 1 (with_muted false v)) eq_refl)
        as (v' & Hv' & Hm & Hvol & Hau).
      exists v'. rewrite Hau. repeat split; trivial; congruence.
    + cbn. eexists. repeat split; congruence.
Qed.

(** X12.  A card activated before the first video has data: the cursor and the
    source move to the first entry of the card's playlist, but the missing
    texture stops [playFromPlaylist] short; the exception is reported and
    [onended] is not installed, so the end of that video changes nothing. *)
Theorem card_clicked_too_early (s : State) (ref : nat) (mesh : Panel)
    (e : Event) :
  playable playlists trendingItems ->
  reachable Math_sin playlists trendingItems s ->
  videoTexture s = None ->
  nth_error (panels s) ref = Some mesh ->
  activates ref e ->
  let s' := handle Math_sin playlists e s in
  exists item first rest v',
    userData_item mesh = Some item /\
    lookup playlists (playlistId item) = Some (first :: rest) /\
    currentPlaylistId s' = Some (playlistId item) /\
    currentPlaylistIndex s' = 0%Z /\
    htmlVideo s' = Some v' /\ src v' = first /\ onended v' = None /\
    errors s' =
      ("playFromPlaylist"%string, TypeError "videoTexture is undefined")
      :: errors s /\
    handle Math_sin playlists Ended s' = s'.
Proof.
  intros Hplay Hr Ht Hn Hact. cbn zeta.
  pose proof (reachable_Inv _ _ _ _ Hr)
    as ((v & Hv & _ & _ & Hnone & _) & Hpanels & _).
  destruct (panel_has_item s ref mesh Hpanels Hn) as (item & Hi).
  destruct (Hplay item
              (panel_item_listed trendingItems s ref mesh item Hpanels Hn Hi))
    as (Hne & first & rest & Hl).
  exists item, first, rest.
  rewrite (activation_runs Math_sin playlists ref e s Hact).
  unfold exec, activatePanel, try_catch, bind, gets, modify. cbn.
  rewrite Hn, Hi, Hne.
  rewrite (ensureAudioEnabled_run (set_currentItem (Some item) s) v Hv).
  cbn [audioEnabled set_currentItem].
  destruct (audioEnabled s); cbn [fst snd];
    erewrite playFromPlaylist_run by first [exact Hv | reflexivity];
    rewrite Hl; cbn; rewrite Ht; cbn;
    eexists; repeat split; trivial;
    unfold handle, dispatch, exec, bind, gets; cbn;
    rewrite (Hnone Ht); reflexivity.
Qed.

End Cards.
(* ================================================================== *)
(** ** A playlist played to its end, again and again *)
(* ================================================================== *)

Section Rounds.

Variable Math_sin : float -> float.
Variable playlists : Playlists.
Variable trendingItems : list Item.

Local Open Scope float_scope.

Lemma iter_reachable (e : Event) (k : nat) (s : State) :
  reachable Math_sin playlists trendingItems s ->
  reachable Math_sin playlists trendingItems
    (Nat.iter k (handle Math_sin playlists e) s).
Proof.
  intros Hr. induction k as [|k IH]; [exact Hr|].
  cbn. apply reach_step, IH.
Qed.

(** One [ended] event on a page whose closure is installed. *)
Lemma ended_run (s : State) (v : Video) (c : EndedClosure) :
  reachable Math_sin playlists trendingItems s ->
  htmlVideo s = Some v -> onended v = Some c ->
  let n := Z.of_nat (List.length (captured_list c)) in
  let s' := handle Math_sin playlists Ended s in
  currentPlaylistId s' = Some (captured_id c) /\
  currentPlaylistIndex s' = ((currentPlaylistIndex s + 1) mod n)%Z /\
  exists v',
    htmlVideo s' = Some v' /\ onended v' = Some c /\
    at_index (captured_list c) (currentPlaylistIndex s') = Some (src v').
Proof.
  intros Hr Hv Hc n s'.
  pose proof (reachable_Inv _ _ _ _ Hr)
    as ((v0 & Hv0 & _ & _ & Ht & Hclo) & _ & [Hi _] & _).
  rewrite Hv in Hv0. injection Hv0 as <-.
  destruct (Hclo c Hc) as (_ & Hl & Hne).
  assert (Hn : (0 < n)%Z)
    by (subst n; destruct (captured_list c); [congruence|cbn; lia]).
  destruct (videoTexture s) as [tx|] eqn:Etx;
    [|rewrite (Ht eq_refl) in Hc; discriminate].
  assert (Hs' : s' = installed (captured_id c) (captured_list c)
                       (started (captured_id c) (captured_list c)
                          ((currentPlaylistIndex s + 1) mod n)%Z v s)).
  { subst s'. unfold handle, dispatch, exec, bind, gets. rewrite Hv, Hc.
    unfold run_onended, bind, gets.
    rewrite (playFromPlaylist_found playlists _ _ s v _ Hv Hl Hne), Etx.
    cbn [fst].
    rewrite (rem_is_mod (currentPlaylistIndex s + 1) (captured_list c))
      by (trivial; lia).
    fold n.
    rewrite (rem_is_mod _ (captured_list c)) by
      (trivial; apply Z.mod_pos_bound; exact Hn).
    fold n. rewrite Z.mod_mod by lia. reflexivity. }
  destruct (at_index_in_range (captured_list c)
              ((currentPlaylistIndex s + 1) mod n)%Z) as (url & Hurl).
  { apply Z.mod_pos_bound. exact Hn. }
  rewrite Hs'. unfold installed, started. cbn. rewrite Hurl.
  split; [reflexivity|]. split; [reflexivity|].
  eexists. split; [reflexivity|]. cbn. destruct c. split; reflexivity.
Qed.

(** X3.  With the closure installed, [k] videos that end one after the other
    move the cursor [k] places round the playlist and leave the closure in
    place; after as many as the playlist has entries, the cursor is back
    where it was. *)
Theorem playlist_comes_round (s : State) (v : Video) (c : EndedClosure)
    (k : nat) :
  reachable Math_sin playlists trendingItems s ->
  htmlVideo s = Some v -> onended v = Some c ->
  let n := Z.of_nat (List.length (captured_list c)) in
  let s' := Nat.iter k (handle Math_sin playlists Ended) s in
  currentPlaylistId s' = Some (captured_id c) /\
  currentPlaylistIndex s' = ((currentPlaylistIndex s + Z.of_nat k) mod n)%Z /\
  (exists v',
     htmlVideo s' = Some v' /\ onended v' = Some c /\
     ((0 < k)%nat ->
      at_index (captured_list c) (currentPlaylistIndex s') = Some (src v'))) /\
  (Z.of_nat k = n -> currentPlaylistIndex s' = currentPlaylistIndex s).
Proof.
  intros Hr Hv Hc n.
  pose proof (reachable_Inv _ _ _ _ Hr)
    as ((v0 & Hv0 & _ & _ & _ & Hclo) & _ & [Hi Hp] & _).
  rewrite Hv in Hv0. injection Hv0 as <-.
  destruct (Hclo c Hc) as (Hid & Hl & Hne).
  destruct (Hp _ Hid) as (l & Hl' & Hlt).
  rewrite Hl in Hl'. injection Hl' as <-. fold n in Hlt.
  assert (Hk : let s' := Nat.iter k (handle Math_sin playlists Ended) s in
               currentPlaylistId s' = Some (captured_id c) /\
               currentPlaylistIndex s' =
                 ((currentPlaylistIndex s + Z.of_nat k) mod n)%Z /\
               exists v',
                 htmlVideo s' = Some v' /\ onended v' = Some c /\
                 ((0 < k)%nat ->
                  at_index (captured_list c) (currentPlaylistIndex s')
                    = Some (src v'))).
  { induction k as [|k IH].
    - cbn. split; [exact Hid|]. split.
      + rewrite Z.add_0_r, Z.mod_small by lia. reflexivity.
      + exists v. split; [exact Hv|]. split; [exact Hc|lia].
    - destruct IH as (_ & Eidx & vk & Hvk & Hck & _).
      destruct (ended_run _ vk c (iter_reachable Ended k s Hr) Hvk Hck)
        as (Eid' & Eidx' & v' & Hv' & Hc' & Hsrc).
      cbn zeta. rewrite !Nat.iter_succ. split; [exact Eid'|]. split.
      + rewrite Eidx', Eidx. fold n.
        rewrite Z.add_mod_idemp_l by lia. f_equal. lia.
      + exists v'. split; [exact Hv'|]. split; [exact Hc'|].
        intros _. exact Hsrc. }
  destruct Hk as (E1 & E2 & E3).
  split; [exact E1|]. split; [exact E2|]. split; [exact E3|].
  intros Hkn. cbn zeta. rewrite E2, Hkn.
  rewrite <- (Z.mul_1_l n) at 1. rewrite Z.mod_add by lia.
  apply Z.mod_small. lia.
Qed.

End Rounds.
(* ================================================================== *)
(** ** The screens of the scene *)
(* ================================================================== *)

Section Screens.

Variable Math_sin : float -> float.
Variable playlists : Playlists.

Local Open Scope float_scope.

Lemma same_screens_refl (s : State) : same_screens s s.
Proof. repeat split. Qed.

Lemma same_screens_trans (s1 s2 s3 : State) :
  same_screens s1 s2 -> same_screens s2 s3 -> same_screens s1 s3.
Proof.
  intros (L1 & C1 & N1) (L2 & C2 & N2). split; [congruence|].
  split; [congruence|].
  intros i Hi. rewrite N2, N1; trivial. congruence.
Qed.

(** X11.  Every video whose data arrives gets a screen mesh of its own, on top
    of the ones before it, and [curvedScreen] refers to the new one; nothing
    else adds or removes a screen, and no event moves a screen other than the
    one [curvedScreen] refers to, so the earlier screens stay in the scene
    where the last frame left them. *)
Theorem screens_pile_up (e : Event) (s : State) :
  let s' := handle Math_sin playlists e s in
  (is_loadeddata e = true ->
   screens s' =
     screens s ++ [{| screen_position := vec 0 3.0 (-4.4);
                      screen_rotation_y := 3.141592653589793 |}] /\
   curvedScreen s' = Some (List.length (screens s))) /\
  (is_loadeddata e = false -> same_screens s s').
Proof.
  cbn zeta. split; intros He.
  - destruct e; try discriminate. unfold handle.
    destruct (htmlVideo s) as [v|] eqn:Hv; cbn [dispatch]; run_with Hv;
      split; reflexivity.
  - revert s.
    change (keeps same_screens (dispatch Math_sin playlists e)).
    destruct e; try discriminate; cbn [dispatch];
      keeps_all same_screens_refl same_screens_trans.
    all: unfold same_screens; cbn; repeat split_match; cbn;
      repeat split; intros; try congruence.
    + apply length_update_nth.
    + rewrite nth_error_update_nth.
      destruct (Nat.eqb_spec i n); [congruence|reflexivity].
Qed.

End Screens.
(* ================================================================== *)
(** ** Which panel is hovered *)
(* ================================================================== *)

Section Rays.

Lemma first_controller_hit_some (rays : list (bool * list nat)) (h : nat) :
  first_controller_hit rays = Some h <->
  exists before hits after,
    rays = before ++ (true, h :: hits) :: after /\
    Forall (idle (A := nat)) before.
Proof.
  induction rays as [|[visible hits] rest IH]; cbn.
  - split; [discriminate|]. intros (before & hits & after & E & _).
    destruct before; discriminate.
  - split.
    + intros H.
      assert (Hcase : (visible = true /\ exists tl, hits = h :: tl) \/
                      (idle (visible, hits) /\
                       first_controller_hit rest = Some h)).
      { destruct visible; [destruct hits as [|h0 tl]|].
        - right. split; [right; reflexivity|exact H].
        - left. injection H as ->. eauto.
        - right. split; [left; reflexivity|exact H]. }
      destruct Hcase as [[-> [tl ->]]|[Hidle Hrest]].
      * exists [], tl, rest. split; [reflexivity|constructor].
      * apply IH in Hrest. destruct Hrest as (before & tl & after & -> & Hb).
        exists ((visible, hits) :: before), tl, after.
        split; [reflexivity|constructor; assumption].
    + intros (before & tl & after & E & Hb).
      destruct before as [|c before]; cbn in E.
      * injection E as -> -> ->. reflexivity.
      * injection E as <- ->. inversion Hb as [|c' l' Hc Hb']; subst.
        assert (Hrest : first_controller_hit (before ++ (true, h :: tl) :: after)
                        = Some h) by (apply IH; eauto).
        destruct Hc as [Hc|Hc]; cbn in Hc; subst; [exact Hrest|].
        destruct visible; exact Hrest.
Qed.

Lemma first_controller_hit_none (rays : list (bool * list nat)) :
  first_controller_hit rays = None <-> Forall (idle (A := nat)) rays.
Proof.
  induction rays as [|[visible hits] rest IH]; cbn.
  - split; [constructor|reflexivity].
  - split.
    + intros H. destruct visible; [destruct hits as [|h0 tl]|];
        try discriminate; constructor; try (apply IH; exact H).
      * right. reflexivity.
      * left. reflexivity.
    + intros H. inversion H as [|c l Hc Hrest]; subst.
      apply IH in Hrest.
      destruct Hc as [Hc|Hc]; cbn in Hc; subst; [exact Hrest|].
      destruct visible; exact Hrest.
Qed.

(** X9.  [getHoveredPanel] prefers the pointer: the hovered panel is the first
    one the pointer ray hits, and only when that ray hits none the first one
    hit by the ray of a controller, taking the controllers in order and
    passing over those that are hidden or hit nothing; it is [null] exactly
    when the pointer ray hits no panel and every controller is hidden or hits
    none. *)
Theorem pointer_before_controllers (r : Rays) :
  (forall h,
     getHoveredPanel r = Some h <->
     (exists rest, pointer_hits r = h :: rest) \/
     (pointer_hits r = [] /\
      exists before hits after,
        controller_rays r = before ++ (true, h :: hits) :: after /\
        Forall (idle (A := nat)) before)) /\
  (getHoveredPanel r = None <->
   pointer_hits r = [] /\ Forall (idle (A := nat)) (controller_rays r)).
Proof.
  unfold getHoveredPanel. split; [intros h|].
  - destruct (pointer_hits r) as [|p rest].
    + rewrite first_controller_hit_some. split.
      * intros H. right. split; [reflexivity|exact H].
      * intros [[rest' H]|[_ H]]; [discriminate|exact H].
    + split.
      * intros [= ->]. left. eauto.
      * intros [[rest' [= -> _]]|[H _]]; [reflexivity|discriminate].
  - destruct (pointer_hits r) as [|p rest].
    + rewrite first_controller_hit_none. split; [auto|intros [_ H]; exact H].
    + split; [discriminate|intros [H _]; discriminate].
Qed.

End Rays.
(* ================================================================== *)
(** ** A rejected [play()] *)
(* ================================================================== *)

Section Rejections.

Lemma starts_with_spec (p s : JS.str) :
  JS.starts_with p s = true <-> exists post, s = p ++ post.
Proof.
  revert s. induction p as [|a p IH]; intros s; cbn.
  - split; [eauto|reflexivity].
  - destruct s as [|b s].
    + split; [discriminate|intros (post & E); discriminate].
    + rewrite andb_true_iff, N.eqb_eq, IH. split.
      * intros (-> & post & ->). eauto.
      * intros (post & [= -> ->]). eauto.
Qed.

Lemma includes_spec (s p : JS.str) :
  JS.includes s p = true <-> exists pre post, s = pre ++ p ++ post.
Proof.
  induction s as [|c s IH]; cbn; rewrite orb_true_iff, starts_with_spec.
  - split.
    + intros [(post & E)|H]; [|discriminate]. exists [], post. exact E.
    + intros (pre & post & E). left.
      destruct pre; [eauto|discriminate].
  - rewrite IH. split.
    + intros [(post & E)|(pre & post & ->)].
      * exists [], post. exact E.
      * exists (c :: pre), post. reflexivity.
    + intros (pre & post & E). destruct pre as [|c' pre]; cbn in E.
      * left. eauto.
      * injection E as <- ->. right. eauto.
Qed.

Lemma str_eqb_spec (a b : JS.str) : JS.str_eqb a b = true <-> a = b.
Proof.
  unfold JS.str_eqb. destruct (JS.str_eq_dec a b); split; congruence.
Qed.

(** X19.  A promise of [play()] rejected because a new load interrupted it, by
    its name [AbortError] or by a message that contains the phrase of the
    browser anywhere, is passed over in silence; every other rejection is
    reported, and neither changes anything else. *)
Theorem interrupted_play_is_not_reported (err : exn) (s : State) :
  let interrupted :=
    name err = JS.lit "AbortError" \/
    exists pre post,
      message err =
        pre ++ JS.lit "interrupted by a new load request" ++ post in
  (interrupted -> exec (play_rejected err) s = s) /\
  (~ interrupted ->
   exec (play_rejected err) s =
     set_errors (("Video play"%string, err) :: errors s) s).
Proof.
  cbn zeta. unfold exec, play_rejected.
  destruct (JS.str_eqb (name err) (JS.lit "AbortError")
            || JS.includes (message err)
                 (JS.lit "interrupted by a new load request")) eqn:E.
  - split; [reflexivity|]. intros H. exfalso. apply H.
    apply orb_true_iff in E. destruct E as [E|E].
    + left. apply str_eqb_spec. exact E.
    + right. apply includes_spec. exact E.
  - split; [|reflexivity]. intros H. exfalso.
    apply orb_false_iff in E. destruct E as [E1 E2].
    destruct H as [H|H].
    + apply str_eqb_spec in H. congruence.
    + apply includes_spec in H. congruence.
Qed.

End Rejections.
(* ================================================================== *)
(** ** The URL field *)
(* ================================================================== *)

Section UrlField.

Variable Math_sin : float -> float.
Variable playlists : Playlists.
Variable trendingItems : list Item.

Lemma trim_start_spec (s : JS.str) :
  exists pre,
    s = pre ++ JS.trim_start s /\ white pre /\
    forall c rest, JS.trim_start s = c :: rest -> JS.is_white_space c = false.
Proof.
  induction s as [|c s (pre & E & Hpre & Hhd)]; cbn.
  - exists []. split; [reflexivity|]. split; [constructor|discriminate].
  - destruct (JS.is_white_space c) eqn:Hc.
    + exists (c :: pre). split; [cbn; congruence|].
      split; [constructor; assumption|exact Hhd].
    + exists []. split; [reflexivity|]. split; [constructor|].
      intros c' rest [= <- _]. exact Hc.
Qed.

Lemma white_rev (s : JS.str) : white s -> white (rev s).
Proof. apply Forall_rev. Qed.

(** [trim] cuts a run of white space off each end and stops at the first
    and at the last code unit that is not white space. *)
Lemma trim_spec (s : JS.str) :
  exists pre post,
    s = pre ++ JS.trim s ++ post /\ white pre /\ white post /\
    (forall c rest, JS.trim s = c :: rest -> JS.is_white_space c = false) /\
    (forall c front, JS.trim s = front ++ [c] -> JS.is_white_space c = false).
Proof.
  unfold JS.trim.
  destruct (trim_start_spec s) as (pre & E1 & Hpre & Hhd).
  destruct (trim_start_spec (rev (JS.trim_start s))) as (tail & E2 & Htail & Hlast).
  set (t := JS.trim_start s) in *.
  set (u := JS.trim_start (rev t)) in *.
  assert (Et : t = rev u ++ rev tail).
  { rewrite <- rev_app_distr, <- E2, rev_involutive. reflexivity. }
  exists pre, (rev tail).
  split; [rewrite <- Et; exact E1|].
  split; [exact Hpre|]. split; [apply white_rev; exact Htail|]. split.
  - intros c rest Hc. rewrite Hc in Et. cbn in Et.
    apply (Hhd c (rest ++ rev tail)). exact Et.
  - intros c front Hc.
    apply (f_equal (@rev N)) in Hc.
    rewrite rev_involutive, rev_app_distr in Hc. cbn in Hc.
    apply (Hlast c (rev front)). exact Hc.
Qed.

Lemma trim_white (s : JS.str) : white s -> JS.trim s = [].
Proof.
  intros Hs. unfold JS.trim.
  assert (E : JS.trim_start s = []).
  { induction Hs as [|c s Hc _ IH]; cbn; [reflexivity|]. rewrite Hc. exact IH. }
  rewrite E. reflexivity.
Qed.

Lemma trim_not_white (s : JS.str) : ~ white s -> JS.nonempty (JS.trim s) = true.
Proof.
  intros Hs. destruct (trim_spec s) as (pre & post & E & Hpre & Hpost & _).
  destruct (JS.trim s); [|reflexivity].
  exfalso. apply Hs. rewrite E. cbn. apply Forall_app. split; assumption.
Qed.

(** X20.  The load button reads the URL field through [trim]: a field that holds
    nothing but white space counts as empty, and from any other field the
    source of the video becomes the text between the first and the last code
    unit that is not white space, blanks in the middle included. *)
Theorem loaded_url_is_trimmed (value : JS.str) (s : State) :
  reachable Math_sin playlists trendingItems s ->
  let s' := handle Math_sin playlists (LoadClick (Some value)) s in
  (white value -> s' = handle Math_sin playlists (LoadClick None) s) /\
  (~ white value ->
   exists v' pre post,
     htmlVideo s' = Some v' /\
     value = pre ++ src v' ++ post /\ white pre /\ white post /\
     (forall c rest, src v' = c :: rest -> JS.is_white_space c = false) /\
     (forall c front, src v' = front ++ [c] -> JS.is_white_space c = false)).
Proof.
  intros Hr. cbn zeta.
  pose proof (reachable_Inv _ _ _ _ Hr) as ((v & Hv & _) & _).
  split; intros Hw.
  - unfold handle, exec. cbn [dispatch]. unfold onLoadClick.
    rewrite (trim_white value Hw). reflexivity.
  - destruct (trim_spec value) as (pre & post & E & Hpre & Hpost & Hhd & Hlast).
    assert (Hsrc : exists v',
              htmlVideo (handle Math_sin playlists (LoadClick (Some value)) s)
                = Some v' /\ src v' = JS.trim value).
    { unfold handle, exec. cbn [dispatch]. unfold onLoadClick.
      rewrite (trim_not_white value Hw).
      unfold video_pause, video_load, texture_needsUpdate, update_video,
        the_video, reportError.
      monad_unfold. cbn. rewrite Hv. cbn.
      destruct (videoTexture s); cbn; eexists; split; reflexivity. }
    destruct Hsrc as (v' & Hv' & Hs').
    exists v', pre, post. rewrite Hs'. repeat split; assumption.
Qed.

End UrlField.
(* ================================================================== *)
(** ** The init pipeline *)
(* ================================================================== *)

Section Boot.

Variable playlists : Playlists.
Variable trendingItems : list Item.

Local Open Scope float_scope.

(** X25.  Without the [#vs-video] element the pipeline stops in its fourth
    phase: the panels are built and the first item is current, no playlist
    is chosen, and the one exception is reported twice, by the phase and by
    the top level. *)
Theorem init_without_the_video_element :
  let missing := Error (JS.lit "Missing #vs-video element") in
  let built := exec (setupPanels trendingItems) globals in
  init_pipeline playlists trendingItems None globals =
    (set_errors [("Video screen setup"%string, missing)] built, inl missing) /\
  init playlists trendingItems None globals =
    (set_errors [("Top-level init"%string, missing);
                 ("Video screen setup"%string, missing)] built, inr tt) /\
  htmlVideo built = None /\ currentPlaylistId built = None /\
  currentItem built = hd_error trendingItems /\
  List.map userData_item (panels built) = List.map Some trendingItems.
Proof.
  cbn zeta. split; [reflexivity|]. split; [reflexivity|].
  split; [reflexivity|]. split; [reflexivity|]. split; [reflexivity|].
  apply map_item_build_panels.
Qed.


End Boot.
(* ================================================================== *)
(** ** The row of cards *)
(* ================================================================== *)

Section Row.

Variable Math_sin : float -> float.
Variable playlists : Playlists.
Variable trendingItems : list Item.

Local Open Scope float_scope.

Lemma nth_error_build_panels_at (startX : float) (k : nat) (items : list Item)
    (i : nat) :
  nth_error (build_panels startX k items) i =
  option_map (new_panel startX (k + i)) (nth_error items i).
Proof.
  revert k i. induction items as [|item rest IH]; intros k [|i]; cbn;
    try reflexivity.
  - rewrite Nat.add_0_r. reflexivity.
  - rewrite IH, Nat.add_succ_r. reflexivity.
Qed.

Lemma length_build_panels (startX : float) (k : nat) (items : list Item) :
  List.length (build_panels startX k items) = List.length items.
Proof.
  revert k. induction items as [|item rest IH]; intros k; cbn;
    rewrite ?IH; reflexivity.
Qed.

Lemma anchor_highlight (m : Panel) : anchor (highlight m) = anchor m.
Proof.
  unfold anchor, highlight. cbn. destruct (material m) as [mat|]; [|reflexivity].
  destruct (emissive mat); reflexivity.
Qed.

Lemma anchor_unhighlight (m : Panel) : anchor (unhighlight m) = anchor m.
Proof.
  unfold anchor, unhighlight. cbn.
  destruct (material m) as [mat|]; [|reflexivity].
  destruct (emissive mat); reflexivity.
Qed.

Lemma map_anchor_rehover (previous hit : option nat) (children : list Panel) :
  List.map anchor (rehover previous hit children) = List.map anchor children.
Proof.
  unfold rehover.
  destruct hit as [h|], previous as [p|]; try destruct (Nat.eqb p h);
    rewrite ?(map_update_nth anchor highlight _ _ anchor_highlight),
            ?(map_update_nth anchor unhighlight _ _ anchor_unhighlight);
    reflexivity.
Qed.

Lemma map_anchor_bob_panels (t : float) (k : nat) (children : list Panel) :
  List.map anchor (bob_panels Math_sin t k children) = List.map anchor children.
Proof.
  revert k. induction children as [|m l IH]; intros k; cbn;
    rewrite ?IH; reflexivity.
Qed.

Lemma init_panels (v : Video) (s : State) :
  init_pipeline playlists trendingItems (Some v) globals = (s, inr tt) ->
  panelGroup s =
    Some (build_panels
            (- ((JS.of_nat (List.length trendingItems) - 1) * spacing) / 2)
            0 trendingItems).
Proof.
  unfold init_pipeline, setupPanels, setupVideoScreen, video_load, update_video,
    the_video, reportError.
  monad_unfold. cbn.
  repeat (split_match; cbn); intros [= <-]; reflexivity.
Qed.

Lemma reachable_anchors (s : State) :
  reachable Math_sin playlists trendingItems s ->
  List.map anchor (panels s) =
  List.map anchor
    (build_panels
       (- ((JS.of_nat (List.length trendingItems) - 1) * spacing) / 2)
       0 trendingItems).
Proof.
  induction 1 as [v s Hf Hinit|s e Hr IH].
  - unfold panels. rewrite (init_panels v s Hinit). reflexivity.
  - destruct (is_frame e) eqn:He.
    + destruct e; try discriminate.
      pose proof (reachable_Inv _ _ _ _ Hr) as (_ & (children & Hg & _) & _).
      destruct (render_effect Math_sin now r s children Hg) as (Eg & _).
      unfold handle. cbn [dispatch]. unfold panels in *. rewrite Eg.
      rewrite Hg in IH.
      rewrite map_anchor_rehover, map_anchor_bob_panels. exact IH.
    + destruct (playback_leaves_hover Math_sin playlists e s He) as [_ Eg].
      unfold panels in *. rewrite Eg. exact IH.
Qed.

(** X6.  The cards stay in their row: in every state of the running page there
    is one panel for each trending item, in the order of the catalogue and
    carrying its item, at the same place along the row and at the same depth
    and angle as [setupPanels] put it; frames move a panel up and down and
    never sideways, and no handler adds, removes or reorders panels. *)
Theorem cards_stay_in_their_row (s : State) (i : nat) :
  reachable Math_sin playlists trendingItems s ->
  let startX :=
    - ((JS.of_nat (List.length trendingItems) - 1) * spacing) / 2 in
  List.length (panels s) = List.length trendingItems /\
  match nth_error trendingItems i with
  | Some item =>
      exists mesh,
        nth_error (panels s) i = Some mesh /\
        userData_item mesh = Some item /\
        x (position mesh) = startX + JS.of_nat i * spacing /\
        z (position mesh) = -4 /\
        rotation_y mesh = ((JS.of_nat i - 1.5) * 5) * DEG2RAD
  | None => nth_error (panels s) i = None
  end.
Proof.
  intros Hr startX. pose proof (reachable_anchors s Hr) as Ha.
  fold startX in Ha. split.
  - apply (f_equal (@List.length _)) in Ha. rewrite !length_map in Ha.
    rewrite Ha. apply length_build_panels.
  - apply (f_equal (fun l => nth_error l i)) in Ha.
    rewrite !nth_error_map, nth_error_build_panels_at in Ha.
    destruct (nth_error trendingItems i) as [item|]; cbn in Ha.
    + destruct (nth_error (panels s) i) as [mesh|]; [|discriminate].
      exists mesh. split; [reflexivity|].
      cbn in Ha. injection Ha as H1 H2 H3 H4. auto.
    + destruct (nth_error (panels s) i); [discriminate|reflexivity].
Qed.

End Row.
(* ================================================================== *)
(** ** A frame rendered twice *)
(* ================================================================== *)

Section Repaint.

Variable Math_sin : float -> float.
Variable playlists : Playlists.

Local Open Scope float_scope.

Lemma update_nth_idem {A : Type} (f : A -> A) (n : nat) (l : list A) :
  (forall a, f (f a) = f a) ->
  update_nth n f (update_nth n f l) = update_nth n f l.
Proof.
  intros Hf. revert n. induction l as [|a l IH]; intros [|n]; cbn;
    rewrite ?Hf, ?IH; reflexivity.
Qed.

Lemma highlight_idem (m : Panel) : highlight (highlight m) = highlight m.
Proof.
  unfold highlight. cbn. destruct (material m) as [mat|] eqn:Hm; cbn;
    [destruct (emissive mat) eqn:He; cbn|]; rewrite ?Hm; cbn; rewrite ?He;
    reflexivity.
Qed.

Lemma bob_highlight (t : float) (i : nat) (m : Panel) :
  bob Math_sin t i (highlight m) = highlight (bob Math_sin t i m).
Proof.
  unfold bob, highlight. cbn. destruct (material m) as [mat|]; [|reflexivity].
  destruct (emissive mat); reflexivity.
Qed.

Lemma bob_unhighlight (t : float) (i : nat) (m : Panel) :
  bob Math_sin t i (unhighlight m) = unhighlight (bob Math_sin t i m).
Proof.
  unfold bob, unhighlight. cbn. destruct (material m) as [mat|]; [|reflexivity].
  destruct (emissive mat); reflexivity.
Qed.

Lemma bob_panels_update_nth (t : float) (f : Panel -> Panel) (n k : nat)
    (l : list Panel) :
  (forall i m, bob Math_sin t i (f m) = f (bob Math_sin t i m)) ->
  bob_panels Math_sin t k (update_nth n f l) =
  update_nth n f (bob_panels Math_sin t k l).
Proof.
  intros Hf. revert n k. induction l as [|a l IH]; intros [|n] k; cbn;
    try reflexivity.
  - f_equal. apply (Hf k a).
  - f_equal. apply IH.
Qed.

Lemma bob_panels_idem (t : float) (k : nat) (l : list Panel) :
  bob_panels Math_sin t k (bob_panels Math_sin t k l) = bob_panels Math_sin t k l.
Proof.
  revert k. induction l as [|a l IH]; intros k; cbn; [reflexivity|].
  rewrite IH. reflexivity.
Qed.

Lemma bob_panels_rehover (t : float) (previous hit : option nat)
    (l : list Panel) :
  bob_panels Math_sin t 0 (rehover previous hit l) =
  rehover previous hit (bob_panels Math_sin t 0 l).
Proof.
  unfold rehover.
  destruct hit as [h|], previous as [p|]; try destruct (Nat.eqb p h);
    rewrite ?(bob_panels_update_nth t highlight _ _ _ (bob_highlight t)),
            ?(bob_panels_update_nth t unhighlight _ _ _ (bob_unhighlight t));
    reflexivity.
Qed.

Lemma rehover_settled (previous hit : option nat) (l : list Panel) :
  rehover hit hit (rehover previous hit l) = rehover previous hit l.
Proof.
  unfold rehover. destruct hit as [h|]; [|reflexivity].
  rewrite Nat.eqb_refl. apply update_nth_idem, highlight_idem.
Qed.

(** What a frame leaves, in one piece. *)
Lemma render_run (now : float) (r : Rays) (s : State) :
  exec (render Math_sin now r) s =
    after_frame Math_sin (now * 0.001) (getHoveredPanel r) s.
Proof.
  unfold exec, render, try_catch, bind, modify, after_frame.
  destruct (panelGroup s) as [children|] eqn:Hg; cbn.
  - destruct (curvedScreen s) as [ref|] eqn:Hc; cbn;
      rewrite (updateHover_run r _ (bob_panels Math_sin (now * 0.001) 0 children))
        by reflexivity;
      cbn; rewrite ?Hg, ?Hc; reflexivity.
  - unfold updateHover, update_panel. monad_unfold.
    destruct s as [g scr cs tx hv it pid idx au pl hp er pp].
    cbn in *. subst g.
    destruct cs as [ref|], (getHoveredPanel r) as [h|], hp as [p|]; cbn;
      try destruct (Nat.eqb p h); reflexivity.
Qed.

(** X10.  Rendering the same instant twice is rendering it once: a frame sets
    heights, scales and glow to values that depend on the time and on the
    rays alone, and adds nothing to what the frame before it left. *)
Theorem a_frame_rendered_twice (now : float) (r : Rays) (s : State) :
  handle Math_sin playlists (Frame now r)
    (handle Math_sin playlists (Frame now r) s)
  = handle Math_sin playlists (Frame now r) s.
Proof.
  unfold handle. cbn [dispatch]. rewrite !render_run.
  set (t := now * 0.001). set (hit := getHoveredPanel r).
  unfold after_frame at 1. 
  assert (Es : match curvedScreen (after_frame Math_sin t hit s) with
               | Some ref =>
                   update_nth ref (bob_screen Math_sin t)
                     (screens (after_frame Math_sin t hit s))
               | None => screens (after_frame Math_sin t hit s)
               end = screens (after_frame Math_sin t hit s)).
  { unfold after_frame. cbn. destruct (curvedScreen s) as [ref|]; [|reflexivity].
    apply update_nth_idem. reflexivity. }
  assert (Eg : option_map
                 (fun children =>
                    rehover (hoveredPanel (after_frame Math_sin t hit s)) hit
                      (bob_panels Math_sin t 0 children))
                 (panelGroup (after_frame Math_sin t hit s))
               = panelGroup (after_frame Math_sin t hit s)).
  { unfold after_frame. cbn. destruct (panelGroup s) as [children|]; cbn;
      [|reflexivity].
    rewrite bob_panels_rehover, bob_panels_idem, rehover_settled.
    reflexivity. }
  rewrite Es, Eg. unfold after_frame. cbn. reflexivity.
Qed.

End Repaint.
(* ================================================================== *)
(** ** The card, the playlist and the source *)
(* ================================================================== *)

Section Coherence.

Variable Math_sin : float -> float.
Variable playlists : Playlists.
Variable trendingItems : list Item.

Hypothesis Hplay : playable playlists trendingItems.
Hypothesis Hitems : trendingItems <> [].

Local Open Scope float_scope.

Lemma same_track_refl (s : State) : same_track s s.
Proof. repeat split. Qed.

Lemma same_track_trans (s1 s2 s3 : State) :
  same_track s1 s2 -> same_track s2 s3 -> same_track s1 s3.
Proof.
  intros (A1 & B1 & C1 & D1) (A2 & B2 & C2 & D2). repeat split; congruence.
Qed.

Lemma same_track_coherent (s s' : State) :
  same_track s s' -> coherent playlists s -> coherent playlists s'.
Proof.
  intros (A & B & C & D) Hc pid Hpid. rewrite B in Hpid.
  destruct (Hc pid Hpid) as [Hitem Hsrc]. split.
  - rewrite A. exact Hitem.
  - intros list url v' Hl Hat Hne Hv'. rewrite C in Hat. rewrite Hv' in D.
    destruct (htmlVideo s) as [v|] eqn:Hv; [|discriminate].
    injection D as ->. apply (Hsrc list url v); trivial.
Qed.

(** The events that leave the card, the cursor and the source alone. *)
Lemma off_track (e : Event) (s : State) :
  changes_track e = false -> same_track s (handle Math_sin playlists e s).
Proof.
  intros He. unfold handle, same_track.
  destruct e; try discriminate; cbn [dispatch];
    try (rewrite render_run; repeat split);
    destruct (htmlVideo s) as [v|] eqn:Hv; run_with Hv;
    repeat split; rewrite ?Hv; reflexivity.
Qed.

Lemma playFromPlaylist_coherent (pid : JS.str) (start : Z) (s : State)
    (v : Video) (list : list JS.str) (item : Item) :
  htmlVideo s = Some v -> lookup playlists pid = Some list -> list <> [] ->
  currentItem s = Some item -> playlistId item = pid ->
  coherent playlists (exec (playFromPlaylist playlists pid start) s).
Proof.
  intros Hv Hl Hne Hi Hp. unfold exec.
  rewrite (playFromPlaylist_found playlists pid start s v list Hv Hl Hne).
  unfold installed, started.
  destruct (videoTexture s); cbn; intros pid' [= <-];
    (split; [exists item; split; assumption|]);
    intros list' url v' Hl' Hat Hnu [= <-]; cbn in *;
    rewrite Hl in Hl'; injection Hl' as <-; rewrite Hat; reflexivity.
Qed.

Lemma activatePanel_coherent (panel : option nat) (s : State) :
  Inv playlists trendingItems s -> coherent playlists s ->
  coherent playlists (exec (activatePanel playlists panel) s).
Proof.
  intros HI Hc.
  pose proof HI as ((v & Hv & _) & Hpanels & _).
  unfold exec, activatePanel, try_catch, bind, gets, modify. cbn.
  destruct panel as [ref|]; [|exact Hc].
  destruct (nth_error (panels s) ref) as [mesh|] eqn:Hn; [|exact Hc].
  destruct (userData_item mesh) as [item|] eqn:Hi; [|exact Hc].
  destruct (Hplay item
              (panel_item_listed trendingItems s ref mesh item Hpanels Hn Hi))
    as (Hne & first & rest & Hl).
  rewrite (ensureAudioEnabled_run (set_currentItem (Some item) s) v Hv), Hne.
  cbn [audioEnabled set_currentItem].
  destruct (audioEnabled s); cbn [fst snd];
    rewrite (playFromPlaylist_total playlists _ _ _); cbn [fst];
    eapply (playFromPlaylist_coherent _ _ _ _ (first :: rest) item);
    try reflexivity; try exact Hv; trivial; discriminate.
Qed.

Lemma step_coherent (e : Event) (s : State) :
  Inv playlists trendingItems s -> coherent playlists s ->
  coherent playlists (handle Math_sin playlists e s).
Proof.
  intros HI Hc.
  destruct (changes_track e) eqn:He;
    [|apply (same_track_coherent s); [apply off_track; exact He|exact Hc]].
  pose proof HI as ((v & Hv & _ & _ & _ & Hclo) & _ & _ & _ & Hitem).
  unfold handle. destruct e; try discriminate; cbn [dispatch].
  - unfold exec, onLoadClick.
    destruct (JS.nonempty
                match input with Some value => JS.trim value | None => [] end).
    + unfold video_pause, video_load, texture_needsUpdate, update_video,
        the_video, reportError.
      monad_unfold. cbn. rewrite Hv. cbn.
      destruct (videoTexture s); cbn; intros pid; discriminate.
    + unfold try_catch, bind, gets. cbn. unfold item_ok in Hitem.
      destruct (currentItem s) as [it|] eqn:Hit; [|congruence].
      destruct (Hplay it Hitem) as (Hne & first & rest & Hl). rewrite Hne.
      rewrite (playFromPlaylist_total playlists _ _ s). cbn [fst].
      apply (playFromPlaylist_coherent _ _ s v (first :: rest) it);
        trivial; discriminate.
  - unfold onWindowClick, exec.
    destruct (getHoveredPanel r) as [h|]; [|exact Hc].
    rewrite (try_catch_skip _ _ s (activatePanel_total playlists _)).
    apply activatePanel_coherent; assumption.
  - unfold onXRSelect, exec.
    destruct hits as [|h rest]; [exact Hc|].
    rewrite (try_catch_skip _ _ s (activatePanel_total playlists _)).
    apply activatePanel_coherent; assumption.
  - unfold exec, bind, gets. rewrite Hv.
    destruct (onended v) as [c|] eqn:Hcl; [|exact Hc].
    destruct (Hclo c eq_refl) as (Hid & Hl & Hne).
    destruct (Hc _ Hid) as [(item & Hi & Hp) _].
    unfold run_onended, bind, gets.
    apply (playFromPlaylist_coherent _ _ s v (captured_list c) item); trivial.
Qed.

Lemma init_coherent (v : Video) (s : State) :
  init_pipeline playlists trendingItems (Some v) globals = (s, inr tt) ->
  coherent playlists s.
Proof.
  unfold init_pipeline, setupPanels, setupVideoScreen, video_load, update_video,
    the_video, reportError.
  monad_unfold. cbn.
  destruct (hd_error trendingItems) as [item|] eqn:Hhd; cbn;
    [destruct (JS.nonempty (playlistId item)) eqn:Hid; cbn;
     [destruct (lookup playlists (playlistId item)) as [[|first rest]|] eqn:Hl;
      cbn|]|].
  all: intros [= <-]; intros pid; cbn; try discriminate.
  intros [= <-]. split; [eauto|].
  intros list url v' Hl' Hat Hne [= <-]. cbn.
  rewrite Hl in Hl'. injection Hl' as <-. cbn in Hat. injection Hat as ->.
  rewrite Hne. reflexivity.
Qed.

Lemma reachable_coherent (s : State) :
  reachable Math_sin playlists trendingItems s -> coherent playlists s.
Proof.
  induction 1 as [v s Hf Hinit|s e Hr IH].
  - eapply init_coherent; eassumption.
  - apply step_coherent; [|exact IH].
    apply (reachable_Inv Math_sin), Hr.
Qed.

End Coherence.

Section Track.

Variable Math_sin : float -> float.
Variable playlists : Playlists.
Variable trendingItems : list Item.

(** X4.  While a playlist is current it is the playlist of the current card:
    [currentPlaylistId] is never the id of one card's playlist while
    [currentItem] is another card. *)
Theorem playlist_follows_the_card (s : State) (pid : JS.str) :
  playable playlists trendingItems -> trendingItems <> [] ->
  reachable Math_sin playlists trendingItems s ->
  currentPlaylistId s = Some pid ->
  exists item,
    currentItem s = Some item /\ In item trendingItems /\
    playlistId item = pid.
Proof.
  intros Hplay Hitems Hr Hpid.
  destruct (reachable_coherent Math_sin playlists trendingItems Hplay Hitems
              s Hr pid Hpid) as [(item & Hi & Hp) _].
  pose proof (reachable_Inv _ _ _ _ Hr) as (_ & _ & _ & _ & Hitem).
  unfold item_ok in Hitem. rewrite Hi in Hitem. eauto.
Qed.

(** X5.  While a playlist is current, the cursor points at one of its entries
    and the source of the video is that entry (an entry that is the empty
    string apart, which the init pipeline replaces). *)
Theorem source_is_under_the_cursor (s : State) (pid : JS.str) :
  playable playlists trendingItems -> trendingItems <> [] ->
  reachable Math_sin playlists trendingItems s ->
  currentPlaylistId s = Some pid ->
  exists list url v,
    lookup playlists pid = Some list /\
    at_index list (currentPlaylistIndex s) = Some url /\
    htmlVideo s = Some v /\
    (JS.nonempty url = true -> src v = url).
Proof.
  intros Hplay Hitems Hr Hpid.
  destruct (reachable_coherent Math_sin playlists trendingItems Hplay Hitems
              s Hr pid Hpid) as [_ Hsrc].
  pose proof (reachable_Inv _ _ _ _ Hr)
    as ((v & Hv & _) & _ & [Hi Hp] & _).
  destruct (Hp pid Hpid) as (list & Hl & Hlt).
  destruct (at_index_in_range list (currentPlaylistIndex s)) as (url & Hurl);
    [lia|].
  exists list, url, v. repeat split; trivial.
  intros Hne. apply (Hsrc list url v); trivial.
Qed.

End Track.
(* ================================================================== *)
(** ** Failures stay inside the handlers *)
(* ================================================================== *)

Section Containment.

Variable Math_sin : float -> float.
Variable playlists : Playlists.

Local Open Scope float_scope.

Lemma same_errors_refl (s : State) : same_errors s s.
Proof. reflexivity. Qed.

Lemma same_errors_trans (s1 s2 s3 : State) :
  same_errors s1 s2 -> same_errors s2 s3 -> same_errors s1 s3.
Proof. unfold same_errors. congruence. Qed.

Lemma same_errors_once (s s' : State) : same_errors s s' -> at_most_one_report s s'.
Proof. intros H. exists []. split; [exact H|cbn; lia]. Qed.

Lemma once_after (s s1 s2 : State) :
  same_errors s s1 -> at_most_one_report s1 s2 -> at_most_one_report s s2.
Proof.
  intros H (new & E & Hn). exists new. unfold same_errors in H.
  rewrite <- H. auto.
Qed.

(** A body that reports nothing itself, inside a [try] whose [catch]
    reports. *)
Lemma guarded_once (body : M unit) (stage : string) (s : State) :
  keeps same_errors body ->
  at_most_one_report s (exec (try_catch body (reportError stage)) s).
Proof.
  intros Hb. specialize (Hb s). unfold exec, try_catch, reportError, modify.
  destruct (body s) as [s' [e|[]]]; cbn in *.
  - exists [(stage, e)]. unfold same_errors in Hb. rewrite Hb. auto.
  - apply same_errors_once, Hb.
Qed.

Ltac same_errors_all :=
  keeps_all same_errors_refl same_errors_trans;
  unfold same_errors; cbn; repeat split_match; reflexivity.

Lemma playFromPlaylist_once (pid : JS.str) (start : Z) (s : State) :
  at_most_one_report s (exec (playFromPlaylist playlists pid start) s).
Proof.
  unfold playFromPlaylist.
  destruct (lookup playlists pid) as [[|u rest]|];
    try (unfold exec, try_catch, reportError, modify; cbn;
         eexists [_]; split; [reflexivity|cbn; lia]).
  apply guarded_once. same_errors_all.
Qed.

Lemma ensureAudioEnabled_quiet (s : State) :
  same_errors s (exec ensureAudioEnabled s).
Proof.
  unfold same_errors, exec. destruct (htmlVideo s) as [v|] eqn:Hv.
  - rewrite (ensureAudioEnabled_run s v Hv). destruct (audioEnabled s); reflexivity.
  - unfold ensureAudioEnabled. monad_unfold. rewrite Hv. reflexivity.
Qed.

Lemma activatePanel_once (panel : option nat) (s : State) :
  at_most_one_report s (exec (activatePanel playlists panel) s).
Proof.
  unfold exec, activatePanel, try_catch, bind, gets, modify. cbn.
  destruct panel as [ref|]; [|apply same_errors_once; reflexivity].
  destruct (nth_error (panels s) ref) as [mesh|];
    [|apply same_errors_once; reflexivity].
  destruct (userData_item mesh) as [item|];
    [|apply same_errors_once; reflexivity].
  rewrite (ensureAudioEnabled_total _). cbn [fst snd].
  pose proof (ensureAudioEnabled_quiet (set_currentItem (Some item) s)) as Hq.
  destruct (JS.nonempty (playlistId item)).
  - rewrite (playFromPlaylist_total playlists _ _ _). cbn [fst].
    eapply once_after; [exact Hq|apply playFromPlaylist_once].
  - cbn. apply same_errors_once. exact Hq.
Qed.

(** X2.  No exception leaves a listener, and an event reports at most one error:
    what a handler throws is caught and written to the log once, on top of
    what the log holds. *)
Theorem failures_stay_inside (e : Event) (s : State) :
  dispatch Math_sin playlists e s = (handle Math_sin playlists e s, inr tt) /\
  at_most_one_report s (handle Math_sin playlists e s).
Proof.
  unfold handle. destruct e; cbn [dispatch].
  - split; [apply try_catch_report_total|]. unfold onLoadClick.
    destruct (JS.nonempty
                match input with Some value => JS.trim value | None => [] end).
    + apply guarded_once. same_errors_all.
    + unfold exec, try_catch, bind, gets. cbn.
      destruct (currentItem s) as [it|];
        [destruct (JS.nonempty (playlistId it))|];
        rewrite (playFromPlaylist_total playlists _ _ s); cbn [fst];
        apply playFromPlaylist_once.
  - split; [apply try_catch_report_total|].
    destruct (htmlVideo s) as [v|] eqn:Hv; apply same_errors_once;
      unfold same_errors; run_with Hv; reflexivity.
  - split; [apply try_catch_report_total|]. unfold onUnmuteClick, exec.
    rewrite (try_catch_skip _ _ s toggleMute_total).
    apply guarded_once. same_errors_all.
  - split; [apply try_catch_report_total|]. unfold onSeekBackClick, exec.
    rewrite (try_catch_skip _ _ s (seekBy_total _)).
    apply guarded_once. same_errors_all.
  - split; [apply try_catch_report_total|]. unfold onSeekForwardClick, exec.
    rewrite (try_catch_skip _ _ s (seekBy_total _)).
    apply guarded_once. same_errors_all.
  - split; [apply try_catch_report_total|]. unfold onVolDownClick, exec.
    rewrite (try_catch_skip _ _ s (changeVolume_total _)).
    apply guarded_once. same_errors_all.
  - split; [apply try_catch_report_total|]. unfold onVolUpClick, exec.
    rewrite (try_catch_skip _ _ s (changeVolume_total _)).
    apply guarded_once. same_errors_all.
  - split; [apply try_catch_report_total|]. unfold onWindowClick, exec.
    destruct (getHoveredPanel r) as [h|];
      [|apply same_errors_once; reflexivity].
    rewrite (try_catch_skip _ _ s (activatePanel_total playlists _)).
    apply activatePanel_once.
  - split; [apply try_catch_report_total|]. unfold onXRSelect, exec.
    destruct hits as [|h rest]; [apply same_errors_once; reflexivity|].
    rewrite (try_catch_skip _ _ s (activatePanel_total playlists _)).
    apply activatePanel_once.
  - split; [apply try_catch_report_total|].
    rewrite render_run. apply same_errors_once. reflexivity.
  - destruct (htmlVideo s) as [v|] eqn:Hv; run_with Hv;
      (split; [reflexivity|apply same_errors_once; reflexivity]).
  - unfold exec, bind, gets.
    destruct (htmlVideo s) as [v|];
      [|split; [reflexivity|apply same_errors_once; reflexivity]].
    destruct (onended v) as [c|];
      [|split; [reflexivity|apply same_errors_once; reflexivity]].
    unfold run_onended, bind, gets. cbn.
    split; [apply playFromPlaylist_total|apply playFromPlaylist_once].
  - destruct (htmlVideo s) as [v|] eqn:Hv; run_with Hv;
      (split; [reflexivity|]);
      first [apply same_errors_once; reflexivity
            |eexists [_]; split; [reflexivity|cbn; lia]].
  - destruct (htmlVideo s) as [v|] eqn:Hv; run_with Hv;
      (split; [reflexivity|]);
      first [apply same_errors_once; reflexivity
            |eexists [_]; split; [reflexivity|cbn; lia]].
  - destruct (htmlVideo s) as [v|] eqn:Hv; run_with Hv;
      (split; [reflexivity|apply same_errors_once; reflexivity]).
Qed.

End Containment.
(* ================================================================== *)
(** ** Starting and pausing playback *)
(* ================================================================== *)

Section Playback.

Variable Math_sin : float -> float.
Variable playlists : Playlists.

Local Open Scope float_scope.

(** X17.  The play/pause button goes by [isPlaying], not by the element: while
    [isPlaying] is true a click pauses the video; while it is false a click
    calls [play()] and leaves [isPlaying] false until the promise is
    fulfilled, so a second click before that calls [play()] again and does
    not pause.  Either way the click enables the audio, at full volume the
    first time. *)
Theorem play_pause_button (s : State) (v : Video) :
  htmlVideo s = Some v ->
  let s1 := handle Math_sin playlists PlayPauseClick s in
  let s2 := handle Math_sin playlists PlayPauseClick s1 in
  exists v1,
    htmlVideo s1 = Some v1 /\ isPlaying s1 = false /\
    audioEnabled s1 = true /\
    (audioEnabled s = false -> muted v1 = false /\ volume v1 = 1) /\
    (audioEnabled s = true ->
     muted v1 = muted v /\ volume v1 = volume v) /\
    (isPlaying s = true ->
     paused v1 = true /\ pendingPlay s1 = pendingPlay s) /\
    (isPlaying s = false ->
     paused v1 = false /\ pendingPlay s1 = S (pendingPlay s) /\
     pendingPlay s2 = S (S (pendingPlay s)) /\
     exists v2, htmlVideo s2 = Some v2 /\ paused v2 = false).
Proof.
  intros Hv. cbn zeta. unfold handle. cbn [dispatch].
  destruct (isPlaying s) eqn:Hp, (audioEnabled s) eqn:Ha;
    run_with Hv; rewrite ?Hp, ?Ha; cbn;
    eexists; (split; [reflexivity|]); cbn;
    repeat split; try congruence; try reflexivity;
    eexists; split; reflexivity.
Qed.

(** X18.  When the data of a video arrives, a fresh texture is made and [play()]
    is called once by the listener of the init pipeline and once more by the
    [onloadeddata] handler, if a load has installed it; [isPlaying] waits for
    the promise. *)
Theorem data_arrival_calls_play (s : State) (v : Video) :
  htmlVideo s = Some v ->
  let s' := handle Math_sin playlists LoadedData s in
  htmlVideo s' = Some (with_paused false v) /\
  pendingPlay s' =
    (pendingPlay s + (if onloadeddata v then 2 else 1))%nat /\
  videoTexture s' = Some {| needsUpdate := false |} /\
  isPlaying s' = isPlaying s.
Proof.
  intros Hv. cbn zeta. unfold handle. cbn [dispatch].
  run_with Hv; repeat split; try reflexivity; try lia.
  all: destruct v; cbn in *; subst; reflexivity.
Qed.

End Playback.
(* ================================================================== *)
(** ** The colour and the title on a card *)
(* ================================================================== *)

Section CardArt.

Lemma hex_digit_value_digit (d : N) :
  (d < 16)%N -> hex_digit_value (hex_digit d) = Some d.
Proof.
  intros Hd. unfold hex_digit, hex_digit_value.
  destruct (N.ltb_spec d 10).
  - destruct (N.leb_spec 48 (48 + d)); [|lia].
    destruct (N.leb_spec (48 + d) 57); [|lia].
    cbv [andb]. f_equal. lia.
  - destruct (N.leb_spec 48 (87 + d)); [|lia].
    destruct (N.leb_spec (87 + d) 57); [lia|].
    destruct (N.leb_spec 97 (87 + d)); [|lia].
    destruct (N.leb_spec (87 + d) 102); [|lia].
    cbv [andb]. f_equal. lia.
Qed.

Lemma hex_value_from_app (acc : N) (a b : JS.str) :
  hex_value_from acc (a ++ b) =
  match hex_value_from acc a with
  | Some n => hex_value_from n b
  | None => None
  end.
Proof.
  revert acc. induction a as [|c a IH]; intros acc; cbn; [reflexivity|].
  destruct (hex_digit_value c); [apply IH|reflexivity].
Qed.

Lemma hex_digits_acc (fuel : nat) (n : N) (acc : JS.str) :
  hex_digits fuel n acc = hex_digits fuel n [] ++ acc.
Proof.
  revert n acc. induction fuel as [|fuel IH]; intros n acc; cbn;
    [reflexivity|].
  destruct (n / 16 =? 0)%N; [reflexivity|].
  rewrite (IH _ (_ :: acc)), (IH _ [_]), <- app_assoc. reflexivity.
Qed.

Lemma div16_lt (n : N) (fuel : nat) :
  (n < 2 ^ N.of_nat (S fuel))%N -> (n / 16 < 2 ^ N.of_nat fuel)%N.
Proof.
  intros Hn. rewrite Nat2N.inj_succ, N.pow_succ_r' in Hn.
  apply N.Div0.div_lt_upper_bound. lia.
Qed.

(** The digits written for [n] read back as [n]: the binary digits of [n]
    are fuel enough. *)
Lemma hex_digits_value (fuel : nat) (n k : N) :
  (n < 2 ^ N.of_nat fuel)%N ->
  hex_value_from k (hex_digits fuel n []) =
  Some (k * 16 ^ N.of_nat (List.length (hex_digits fuel n [])) + n)%N.
Proof.
  revert n k. induction fuel as [|fuel IH]; intros n k Hn.
  - cbn in *. f_equal. lia.
  - cbn [hex_digits].
    pose proof (N.div_mod n 16 ltac:(lia)) as Hdm.
    pose proof (N.mod_lt n 16 ltac:(lia)) as Hlt.
    destruct (N.eqb_spec (n / 16) 0) as [Hz|Hz].
    + cbn [hex_value_from List.length].
      rewrite (hex_digit_value_digit _ Hlt). f_equal.
      change (N.of_nat 1) with 1%N. rewrite N.pow_1_r. lia.
    + rewrite hex_digits_acc, hex_value_from_app.
      rewrite (IH _ k (div16_lt n fuel Hn)).
      cbn [hex_value_from]. rewrite (hex_digit_value_digit _ Hlt). f_equal.
      rewrite length_app. cbn [List.length].
      rewrite Nat.add_1_r, Nat2N.inj_succ, N.pow_succ_r'. lia.
Qed.

Lemma hex_digits_length (fuel : nat) (n : N) (k : nat) :
  (n < 16 ^ N.of_nat (S k))%N ->
  (List.length (hex_digits fuel n []) <= S k)%nat.
Proof.
  revert n k. induction fuel as [|fuel IH]; intros n k Hn; [cbn; lia|].
  cbn [hex_digits]. destruct (N.eqb_spec (n / 16) 0) as [Hz|Hz]; [cbn; lia|].
  rewrite hex_digits_acc, length_app. cbn [List.length].
  destruct k as [|k].
  - exfalso. apply Hz. apply N.div_small. cbn in Hn. lia.
  - assert (Hd : (n / 16 < 16 ^ N.of_nat (S k))%N).
    { rewrite (Nat2N.inj_succ (S k)), N.pow_succ_r' in Hn.
      apply N.Div0.div_lt_upper_bound. lia. }
    specialize (IH _ k Hd). lia.
Qed.

Lemma hex_value_from_zeros (k : nat) (s : JS.str) :
  hex_value_from 0 (repeat 48%N k ++ s) = hex_value_from 0 s.
Proof. induction k as [|k IH]; cbn; [reflexivity|exact IH]. Qed.

(** X28.  The colour of a card, a number below [0x1000000], reaches the canvas as
    [#] and six hexadecimal digits that read back as the number; the title
    is painted up to its thirtieth code unit. *)
Theorem card_colour_and_title (title : JS.str) (colorHex : Z) :
  (0 <= colorHex < 2 ^ 24)%Z ->
  exists rrggbb headline rest,
    strokes (createPanelTexture title colorHex) =
      [ fillRect (Colour (JS.lit "#050714")) 1 0 0 1024 512;
        fillRect
          (LinearGradient 0 0 1024 512
             [(0%float, JS.lit "#0c1028"); (1%float, 35%N :: rrggbb)])
          0.9 0 0 1024 512;
        fillText (Colour (JS.lit "#ffffff")) (JS.lit "bold 64px system-ui")
          headline 60 236;
        fillText (Colour (JS.lit "rgba(220,220,255,0.85)"))
          (JS.lit "32px system-ui") (JS.lit "Click or pinch to play")
          60 326 ] /\
    List.length rrggbb = 6%nat /\
    hex_value rrggbb = Some (Z.to_N colorHex) /\
    title = headline ++ rest /\
    (List.length headline = 30%nat \/ rest = []).
Proof.
  intros [Hlo Hhi].
  exists (padStart 6 48 (toString16 colorHex)), (firstn 30 title),
    (skipn 30 title).
  split; [reflexivity|].
  assert (Hdigits : (List.length (toString16 colorHex) <= 6)%nat /\
                    hex_value (toString16 colorHex) = Some (Z.to_N colorHex)).
  { destruct colorHex as [|p|p]; [split; [cbn; lia|reflexivity]| |lia].
    unfold toString16, hex_value. cbn [Z.to_N].
    assert (Hfuel : (N.pos p < 2 ^ N.of_nat (N.to_nat (N.size (N.pos p))))%N)
      by (rewrite N2Nat.id; apply N.size_gt).
    split.
    - apply hex_digits_length. change (16 ^ N.of_nat 6)%N with (2 ^ 24)%N.
      lia.
    - rewrite (hex_digits_value _ _ 0 Hfuel). f_equal. }
  destruct Hdigits as [Hlen Hval].
  split; [|split; [|split]].
  - unfold padStart. rewrite length_app, repeat_length. lia.
  - unfold padStart, hex_value. rewrite hex_value_from_zeros. exact Hval.
  - symmetry. apply firstn_skipn.
  - destruct (Nat.le_gt_cases 30 (List.length title)) as [H|H].
    + left. apply firstn_length_le. exact H.
    + right. apply skipn_all2. lia.
Qed.

End CardArt.
(* ================================================================== *)
(** ** Phases that must succeed and phases that may fail *)
(* ================================================================== *)

Section Phases.

Variable playlists : Playlists.
Variable trendingItems : list Item.

(** [setupPanels] and, with the element in the page, [setupVideoScreen]
    return, and neither reads nor writes the log of errors. *)
Lemma init_pipeline_with_errors (v : Video) (log : list (string * exn))
    (s : State) :
  init_pipeline playlists trendingItems (Some v) (set_errors log s) =
    (set_errors log (fst (init_pipeline playlists trendingItems (Some v) s)),
     inr tt).
Proof.
  unfold init_pipeline, setupPanels, setupVideoScreen, video_load, update_video,
    the_video, reportError.
  monad_unfold. cbn.
  repeat (split_match; cbn); reflexivity.
Qed.

Lemma init_pipeline_globals (v : Video) :
  init_pipeline playlists trendingItems (Some v) globals =
    (exec (init playlists trendingItems (Some v)) globals, inr tt) /\
  set_errors [] (exec (init playlists trendingItems (Some v)) globals) =
    exec (init playlists trendingItems (Some v)) globals.
Proof.
  pose proof (init_pipeline_with_errors v [] globals) as E.
  change (set_errors [] globals) with globals in E.
  unfold exec, init, try_catch. rewrite E. cbn. split; reflexivity.
Qed.

(** The first four phases, regrouped. *)
Lemma main_body (lib : Library) (element : option Video) (rest : M unit)
    (s : State) :
  (setupRendererAndScene lib ;; setupRoom lib ;; setupPanels trendingItems ;;
   setupVideoScreen playlists trendingItems element ;; rest) s =
  (setupRendererAndScene lib ;; setupRoom lib ;;
   (init_pipeline playlists trendingItems element ;; rest)) s.
Proof.
  unfold init_pipeline, bind.
  destruct (setupRendererAndScene lib s) as [s1 [e|[]]]; [reflexivity|].
  destruct (setupRoom lib s1) as [s2 [e|[]]]; [reflexivity|].
  destruct (setupPanels trendingItems s2) as [s3 [e|[]]]; reflexivity.
Qed.


(** X27.  The phases that must succeed: when the library throws while the
    renderer and the scene or the room are set up, the exception is reported
    by the phase and again by the top level, and the pipeline stops there:
    no panel is built and no video is chosen.  When it throws as the loop is
    started, the page is set up and the exception is reported twice. *)
Theorem required_phases_stop_the_pipeline (lib : Library) (v : Video)
    (err : exn) :
  (renderer_calls lib = Some err ->
   main lib playlists trendingItems (Some v) globals =
     (set_errors [("Top-level init"%string, err);
                  ("Renderer/Scene setup"%string, err)] globals, inr tt)) /\
  (renderer_calls lib = None -> vr_button_calls lib = None ->
   lights_calls lib = None -> room_calls lib = Some err ->
   main lib playlists trendingItems (Some v) globals =
     (set_errors [("Top-level init"%string, err);
                  ("Room setup"%string, err)] globals, inr tt)) /\
  (renderer_calls lib = None -> vr_button_calls lib = None ->
   lights_calls lib = None -> room_calls lib = None ->
   controller_calls lib = None -> dom_calls lib = None ->
   desktop_calls lib = None -> loop_calls lib = Some err ->
   main lib playlists trendingItems (Some v) globals =
     (set_errors [("Top-level init"%string, err);
                  ("Start loop"%string, err)]
        (exec (init playlists trendingItems (Some v)) globals), inr tt)).
Proof.
  destruct lib as [r vb l ro c d de lo]. cbn.
  destruct (init_pipeline_globals v) as [Eg E0].
  set (done := exec (init playlists trendingItems (Some v)) globals) in *.
  assert (E1 : errors done = []) by (rewrite <- E0; reflexivity).
  split; [|split].
  - intros ->. unfold main. unfold try_catch at 1. rewrite main_body.
    reflexivity.
  - intros -> -> -> ->. unfold main. unfold try_catch at 1.
    rewrite main_body. reflexivity.
  - intros -> -> -> -> -> -> -> ->. unfold main. unfold try_catch at 1.
    rewrite main_body.
    unfold setupRendererAndScene, setupRoom, setupXRControllers,
      setupDOMControls, setupDesktopInteraction, startLoop, calls, reportError.
    cbn [renderer_calls vr_button_calls lights_calls room_calls
         controller_calls dom_calls desktop_calls loop_calls].
    unfold bind at 1 2 3 4 5. unfold try_catch at 1 2 3. cbn.
    unfold bind at 1. rewrite Eg. cbn. rewrite E1. reflexivity.
Qed.

End Phases.
(* ================================================================== *)
(** ** The highlighted card and the click *)
(* ================================================================== *)

Section Pointing.

Variable Math_sin : float -> float.
Variable playlists : Playlists.

(** X8.  What is highlighted is what a click plays: after a frame, a click in
    the window with the rays where they were activates the panel that
    [hoveredPanel] refers to, and does nothing when no panel is hovered. *)
Theorem a_click_plays_the_hovered_card (now : float) (r : Rays) (s : State) :
  let s' := handle Math_sin playlists (Frame now r) s in
  handle Math_sin playlists (WindowClick r) s' =
    match hoveredPanel s' with
    | Some h => exec (activatePanel playlists (Some h)) s'
    | None => s'
    end.
Proof.
  cbn zeta.
  assert (Eh : hoveredPanel (handle Math_sin playlists (Frame now r) s)
               = getHoveredPanel r).
  { unfold handle. cbn [dispatch]. rewrite render_run. reflexivity. }
  rewrite Eh. unfold handle at 1. cbn [dispatch]. unfold onWindowClick, exec.
  destruct (getHoveredPanel r) as [h|]; [|reflexivity].
  rewrite (try_catch_skip _ _ _ (activatePanel_total playlists (Some h))).
  reflexivity.
Qed.

End Pointing.
(* ================================================================== *)
(** ** The hover variable and the highlight *)
(* ================================================================== *)

Section Highlight.

Variable Math_sin : float -> float.
Variable playlists : Playlists.
Variable trendingItems : list Item.

Lemma step_hovered_lit (e : Event) (s : State) :
  Inv playlists trendingItems s ->
  hovered_lit s -> hovered_lit (handle Math_sin playlists e s).
Proof.
  intros HI Hl. destruct (is_frame e) eqn:He.
  - destruct e; try discriminate.
    destruct HI as (_ & (children & Hg & _ & Hem & Hrest) & _).
    destruct (render_effect Math_sin now r s children Hg) as (Eg & Eh & _).
    unfold handle. cbn [dispatch].
    intros h m Hh Hn. unfold panels in Hn. rewrite Eg in Hn. rewrite Eh in Hh.
    eapply (rehover_spec (hoveredPanel s) (getHoveredPanel r));
      [| |exact Hn|exact Hh].
    + intros j mj. rewrite nth_error_bob_panels.
      destruct (nth_error children j) as [m0|] eqn:E; [|discriminate].
      intros [= <-]. apply (Hem j m0 E).
    + intros j mj. rewrite nth_error_bob_panels.
      destruct (nth_error children j) as [m0|] eqn:E; [|discriminate].
      intros [= <-] Hne. apply (Hrest j m0 E Hne).
  - destruct (playback_leaves_hover Math_sin playlists e s He) as [Eh Eg].
    intros h m. unfold panels. rewrite Eh, Eg. apply Hl.
Qed.

Lemma reachable_hovered_lit (s : State) :
  reachable Math_sin playlists trendingItems s -> hovered_lit s.
Proof.
  induction 1 as [v s Hf Hinit|s e Hr IH].
  - intros h m Hh. exfalso. revert Hinit Hh.
    unfold init_pipeline, setupPanels, setupVideoScreen, video_load,
      update_video, the_video, reportError.
    monad_unfold. cbn.
    repeat (split_match; cbn); intros [= <-]; discriminate.
  - apply step_hovered_lit; [|exact IH].
    apply (reachable_Inv Math_sin), Hr.
Qed.

(** X7.  The hover variable and the highlight agree in every state of the
    running page: a panel is highlighted, with scale 1.05 and emissive
    intensity 0.25, exactly when [hoveredPanel] refers to it, and every other
    panel is at rest. *)
Theorem the_hovered_card_is_the_highlighted_one (s : State) (i : nat)
    (mesh : Panel) :
  reachable Math_sin playlists trendingItems s ->
  nth_error (panels s) i = Some mesh ->
  (hoveredPanel s = Some i -> lit_up mesh) /\
  (hoveredPanel s <> Some i -> plain mesh) /\
  (lit_up mesh <-> hoveredPanel s = Some i).
Proof.
  intros Hr Hn.
  pose proof (reachable_hovered_lit s Hr) as Hl.
  pose proof (reachable_Inv _ _ _ _ Hr)
    as (_ & (children & Hg & _ & _ & Hrest) & _).
  assert (Hp : hoveredPanel s <> Some i -> plain mesh).
  { intros Hne. unfold panels in Hn. rewrite Hg in Hn.
    apply (Hrest i mesh Hn Hne). }
  split; [intros Hh; apply (Hl i mesh Hh Hn)|]. split; [exact Hp|].
  split.
  - intros Hlit. destruct (hoveredPanel s) as [h|] eqn:Hh.
    + destruct (Nat.eq_dec h i) as [->|Hne]; [reflexivity|].
      exfalso. apply (lit_up_not_plain mesh Hlit), Hp. congruence.
    + exfalso. apply (lit_up_not_plain mesh Hlit), Hp. discriminate.
  - intros Hh. apply (Hl i mesh Hh Hn).
Qed.

End Highlight.
(* ================================================================== *)
(** ** Controls that do not disturb each other *)
(* ================================================================== *)

Section Independence.

Variable Math_sin : float -> float.
Variable playlists : Playlists.

Local Open Scope float_scope.

(** [seekBy] in one piece. *)
Lemma seekBy_closed (delta : float) (s : State) (v : Video) :
  htmlVideo s = Some v ->
  exec (seekBy delta) s =
    if is_nan (currentTime v) then s
    else if is_finite (seek_target (currentTime v) (duration v) delta)
    then set_htmlVideo
           (Some (with_currentTime
                    (seek_target (currentTime v) (duration v) delta) v)) s
    else set_errors
           (("Seek"%string, TypeError "currentTime is not finite")
            :: errors s) s.
Proof.
  intros Hv. destruct (is_nan (currentTime v)) eqn:Hn.
  - unfold exec, seekBy. monad_unfold. rewrite Hv. cbn. rewrite Hn.
    reflexivity.
  - destruct (is_finite (seek_target (currentTime v) (duration v) delta))
      eqn:Hf.
    + unfold exec. rewrite (seekBy_run delta s v Hv Hn Hf). reflexivity.
    + unfold exec, seekBy, assign_currentTime, update_video, the_video,
        reportError.
      monad_unfold. rewrite Hv. cbn. rewrite Hn.
      unfold seek_target, clamp_above, clamp_below_zero in Hf.
      destruct (JS.truthy (duration v)) eqn:Ht.
      * rewrite Ht. cbn.
        destruct (duration v - 0.1 <?
                  (if currentTime v + delta <? 0 then 0
                   else currentTime v + delta));
          rewrite Hf; reflexivity.
      * replace (JS.truthy 0) with false by reflexivity. cbn.
        rewrite Hf. reflexivity.
Qed.

Lemma seek_click_run (e : Event) (s : State) :
  is_seek e = true ->
  handle Math_sin playlists e s =
    exec (seekBy (match e with SeekBackClick => -10 | _ => 10 end)) s.
Proof.
  intros He. unfold handle.
  destruct e; try discriminate; cbn [dispatch];
    unfold onSeekBackClick, onSeekForwardClick, exec;
    rewrite (try_catch_skip _ _ s (seekBy_total _)); reflexivity.
Qed.

Lemma volume_click_run (e : Event) (s : State) :
  is_volume e = true ->
  handle Math_sin playlists e s =
    exec (changeVolume (match e with VolDownClick => -0.1 | _ => 0.1 end)) s.
Proof.
  intros He. unfold handle.
  destruct e; try discriminate; cbn [dispatch];
    unfold onVolDownClick, onVolUpClick, exec;
    rewrite (try_catch_skip _ _ s (changeVolume_total _)); reflexivity.
Qed.

(** X21.  A volume button and a seek button can be clicked in either order: the
    volume buttons read and write the volume, the mute flag and
    [audioEnabled], the seek buttons the position, and the page ends in the
    same state, report for report. *)
Theorem volume_and_seek_commute (volume_click seek_click : Event) (s : State)
    (v : Video) :
  htmlVideo s = Some v ->
  (0 <=? volume v) = true -> (volume v <=? 1) = true ->
  is_volume volume_click = true -> is_seek seek_click = true ->
  handle Math_sin playlists volume_click
    (handle Math_sin playlists seek_click s)
  = handle Math_sin playlists seek_click
      (handle Math_sin playlists volume_click s).
Proof.
  intros Hv H0 H1 Hvol Hseek.
  set (dv := match volume_click with VolDownClick => -0.1 | _ => 0.1 end).
  set (ds := match seek_click with SeekBackClick => -10 | _ => 10 end).
  assert (Hdv : is_nan dv = false)
    by (subst dv; destruct volume_click; reflexivity).
  rewrite (seek_click_run seek_click s Hseek).
  rewrite (volume_click_run volume_click s Hvol).
  rewrite (volume_click_run volume_click _ Hvol).
  rewrite (seek_click_run seek_click _ Hseek).
  fold dv ds.
  rewrite (seekBy_closed ds s v Hv).
  unfold exec at 3. rewrite (changeVolume_run dv s v Hv H0 H1 Hdv). cbn [fst].
  set (newVol := JS.Math_max 0 (JS.Math_min 1 (volume v + dv))).
  destruct (is_nan (currentTime v)) eqn:Hn.
  - unfold exec at 1. rewrite (changeVolume_run dv s v Hv H0 H1 Hdv).
    cbn [fst]. fold newVol.
    destruct (0 <? newVol);
      erewrite seekBy_closed by reflexivity; cbn; rewrite Hn; reflexivity.
  - destruct (is_finite (seek_target (currentTime v) (duration v) ds)) eqn:Hf.
    + set (t := seek_target (currentTime v) (duration v) ds) in *.
      unfold exec at 1.
      rewrite (changeVolume_run dv
                 (set_htmlVideo (Some (with_currentTime t v)) s)
                 (with_currentTime t v) eq_refl H0 H1 Hdv).
      cbn [fst]. cbn [volume with_currentTime]. fold newVol.
      destruct (0 <? newVol);
        erewrite seekBy_closed by reflexivity; cbn; fold t; rewrite Hn, Hf;
        reflexivity.
    + unfold exec at 1.
      rewrite (changeVolume_run dv
                 (set_errors
                    (("Seek"%string, TypeError "currentTime is not finite")
                     :: errors s) s) v Hv H0 H1 Hdv).
      cbn [fst]. fold newVol.
      destruct (0 <? newVol);
        erewrite seekBy_closed by reflexivity; cbn; rewrite Hn, Hf;
        reflexivity.
Qed.

End Independence.
(* ================================================================== *)
(** ** Rounding to binary64: a larger value rounds to a larger float *)
(* ================================================================== *)

Module RoundingFacts.

Import Rounding.

Local Open Scope Z_scope.

(** *** Shifting a mantissa right *)

(** An invariant that counts the steps of [iter_pos]. *)
Lemma iter_pos_count (A : Type) (f : A -> A) (P : nat -> A -> Prop) :
  (forall j a, P j a -> P (S j) (f a)) ->
  forall p j a, P j a -> P (j + Pos.to_nat p)%nat (iter_pos f p a).
Proof.
  intros Hstep. induction p as [p IH|p IH|]; intros j a Ha; cbn [iter_pos].
  - replace (j + Pos.to_nat p~1)%nat
      with ((S j + Pos.to_nat p) + Pos.to_nat p)%nat
      by (rewrite Pos2Nat.inj_xI; lia).
    apply IH, IH, Hstep, Ha.
  - replace (j + Pos.to_nat p~0)%nat
      with ((j + Pos.to_nat p) + Pos.to_nat p)%nat
      by (rewrite Pos2Nat.inj_xO; lia).
    apply IH, IH, Ha.
  - replace (j + Pos.to_nat 1)%nat with (S j) by (cbn; lia).
    apply Hstep, Ha.
Qed.

Lemma shr_1_spec (m : Z) (r s : bool) :
  0 <= m ->
  shr_1 {| shr_m := m; shr_r := r; shr_s := s |} =
    {| shr_m := Z.div2 m; shr_r := Z.odd m; shr_s := r || s |}.
Proof.
  intros Hm. destruct m as [|[p|p|]|p]; try lia; reflexivity.
Qed.

Lemma mod_pow2_succ (M : Z) (j : Z) :
  0 <= j ->
  M mod 2 ^ (j + 1) = M mod 2 ^ j + 2 ^ j * Z.b2z (Z.testbit M j).
Proof.
  intros Hj. rewrite Z.pow_add_r, Z.pow_1_r by lia.
  rewrite Z.rem_mul_r by (try apply Z.pow_nonzero; lia).
  rewrite Z.testbit_spec' by exact Hj. reflexivity.
Qed.

Lemma shr_1_shifted (M : Z) (j : nat) :
  0 <= M -> shr_1 (shifted M j) = shifted M (S j).
Proof.
  intros HM. unfold shifted.
  assert (Hq : 0 <= M / 2 ^ Z.of_nat j)
    by (apply Z.div_pos; [exact HM|apply Z.pow_pos_nonneg; lia]).
  rewrite (shr_1_spec _ _ _ Hq). f_equal.
  - rewrite Z.div2_div, Z.div_div by (try apply Z.pow_pos_nonneg; lia).
    rewrite Nat2Z.inj_succ, Z.pow_succ_r by lia.
    f_equal. lia.
  - cbn [half_bit]. rewrite Z.testbit_odd, Z.shiftr_div_pow2 by lia.
    reflexivity.
  - destruct j as [|j']; cbn [half_bit sticky].
    + cbn. rewrite Z.mod_1_r. reflexivity.
    + pose proof (mod_pow2_succ M (Z.of_nat j') ltac:(lia)) as E.
      rewrite (Nat2Z.inj_succ j'). unfold Z.succ. rewrite E.
      pose proof (Z.mod_pos_bound M (2 ^ Z.of_nat j')
                    ltac:(apply Z.pow_pos_nonneg; lia)) as Hb.
      pose proof (Z.pow_pos_nonneg 2 (Z.of_nat j') ltac:(lia) ltac:(lia)) as Hp.
      destruct (Z.testbit M (Z.of_nat j')); cbn [Z.b2z] in *;
        destruct (Z.eqb_spec (M mod 2 ^ Z.of_nat j') 0); cbn [orb negb];
        symmetry.
      * apply negb_true_iff, Z.eqb_neq. lia.
      * apply negb_true_iff, Z.eqb_neq. lia.
      * apply negb_false_iff, Z.eqb_eq. lia.
      * apply negb_true_iff, Z.eqb_neq. lia.
Qed.

Lemma shifted_0 (M : Z) :
  shifted M 0 = {| shr_m := M; shr_r := false; shr_s := false |}.
Proof. unfold shifted. cbn. rewrite Z.div_1_r. reflexivity. Qed.

Lemma iter_shr (M : Z) (p : positive) :
  0 <= M ->
  iter_pos shr_1 p {| shr_m := M; shr_r := false; shr_s := false |} =
  shifted M (Pos.to_nat p).
Proof.
  intros HM. rewrite <- shifted_0.
  apply (iter_pos_count _ shr_1 (fun j a => a = shifted M j)
           (fun j a Ha => eq_trans (f_equal shr_1 Ha) (shr_1_shifted M j HM))
           p 0%nat).
  reflexivity.
Qed.



(** *** Rounding to nearest, ties to even *)

Lemma rne_is_arith (M : Z) (j : nat) :
  rne M j = rne_arith M (2 ^ Z.of_nat j).
Proof.
  unfold rne, rne_arith, shifted. cbn [shr_m loc_of_shr_record shr_r shr_s].
  destruct j as [|j']; cbn [half_bit sticky].
  - cbn. rewrite Z.mod_1_r, Z.div_1_r. cbn. lia.
  - rewrite (Nat2Z.inj_succ j'). unfold Z.succ.
    pose proof (mod_pow2_succ M (Z.of_nat j') ltac:(lia)) as E.
    pose proof (Z.mod_pos_bound M (2 ^ Z.of_nat j')
                  ltac:(apply Z.pow_pos_nonneg; lia)) as Hb.
    assert (Hp : 2 ^ (Z.of_nat j' + 1) = 2 * 2 ^ Z.of_nat j')
      by (rewrite Z.pow_add_r, Z.pow_1_r by lia; lia).
    rewrite E. rewrite Hp in *.
    set (q := M / (2 * 2 ^ Z.of_nat j')).
    destruct (Z.testbit M (Z.of_nat j')); cbn [Z.b2z];
      destruct (Z.eqb_spec (M mod 2 ^ Z.of_nat j') 0); cbn [negb];
      cbn [round_nearest_even];
      repeat match goal with
             | |- context [?a <? ?b] => destruct (Z.ltb_spec a b)
             | |- context [?a =? ?b] => destruct (Z.eqb_spec a b)
             end; try lia;
      destruct (Z.even q); lia.
Qed.

Lemma rne_arith_bounds (M P : Z) :
  M / P <= rne_arith M P <= M / P + 1.
Proof.
  unfold rne_arith.
  repeat match goal with
         | |- context [?a <? ?b] => destruct (Z.ltb_spec a b)
         | |- context [?a =? ?b] => destruct (Z.eqb_spec a b)
         end; try lia; destruct (Z.even (M / P)); lia.
Qed.

Lemma rne_arith_mono (M1 M2 P : Z) :
  0 < P -> M1 <= M2 -> rne_arith M1 P <= rne_arith M2 P.
Proof.
  intros HP HM.
  pose proof (Z.div_le_mono M1 M2 P HP HM) as Hq.
  destruct (Z.eq_dec (M1 / P) (M2 / P)) as [Eq|Ne].
  - pose proof (Z.div_mod M1 P ltac:(lia)) as D1.
    pose proof (Z.div_mod M2 P ltac:(lia)) as D2.
    assert (Hr : M1 mod P <= M2 mod P) by (rewrite Eq in D1; lia).
    unfold rne_arith. rewrite Eq.
    repeat match goal with
           | |- context [?a <? ?b] => destruct (Z.ltb_spec a b)
           | |- context [?a =? ?b] => destruct (Z.eqb_spec a b)
           end; try lia; destruct (Z.even (M2 / P)); lia.
  - pose proof (rne_arith_bounds M1 P). pose proof (rne_arith_bounds M2 P).
    lia.
Qed.

Lemma rne_arith_scale (M P K : Z) :
  0 < P -> 0 < K -> rne_arith (M * K) (P * K) = rne_arith M P.
Proof.
  intros HP HK. unfold rne_arith.
  rewrite Z.div_mul_cancel_r by lia.
  rewrite Z.mul_mod_distr_r by lia.
  repeat match goal with
         | |- context [?a <? ?b] => destruct (Z.ltb_spec a b)
         | |- context [?a =? ?b] => destruct (Z.eqb_spec a b)
         end; try reflexivity; try nia.
Qed.

Lemma rne_arith_exact (M : Z) : rne_arith M 1 = M.
Proof.
  unfold rne_arith. rewrite Z.mod_1_r, Z.div_1_r. cbn. lia.
Qed.

Lemma rne_mono (M1 M2 : Z) (j : nat) :
  M1 <= M2 -> rne M1 j <= rne M2 j.
Proof.
  intros H. rewrite !rne_is_arith.
  apply rne_arith_mono; [apply Z.pow_pos_nonneg; lia|exact H].
Qed.

Lemma rne_scale (M : Z) (i j : nat) :
  rne (M * 2 ^ Z.of_nat i) (j + i) = rne M j.
Proof.
  rewrite !rne_is_arith, Nat2Z.inj_add, Z.pow_add_r by lia.
  apply rne_arith_scale; apply Z.pow_pos_nonneg; lia.
Qed.

Lemma rne_0 (M : Z) : rne M 0 = M.
Proof. rewrite rne_is_arith. apply rne_arith_exact. Qed.

Lemma rne_nonneg (M : Z) (j : nat) : 0 <= M -> 0 <= rne M j.
Proof.
  intros HM. rewrite rne_is_arith.
  pose proof (rne_arith_bounds M (2 ^ Z.of_nat j)).
  pose proof (Z.div_pos M (2 ^ Z.of_nat j) HM
                ltac:(apply Z.pow_pos_nonneg; lia)).
  lia.
Qed.

(** A value below [2^(j+b)] rounds to at most [2^b]. *)
Lemma rne_upper (M : Z) (j : nat) (b : Z) :
  0 <= b -> M < 2 ^ (Z.of_nat j + b) -> rne M j <= 2 ^ b.
Proof.
  intros Hb HM. rewrite rne_is_arith.
  pose proof (rne_arith_bounds M (2 ^ Z.of_nat j)).
  assert (M / 2 ^ Z.of_nat j < 2 ^ b).
  { apply Z.div_lt_upper_bound; [apply Z.pow_pos_nonneg; lia|].
    rewrite <- Z.pow_add_r by lia. exact HM. }
  lia.
Qed.

(** A value of at least [2^(j+b)] rounds to at least [2^b]. *)
Lemma rne_lower (M : Z) (j : nat) (b : Z) :
  0 <= b -> 2 ^ (Z.of_nat j + b) <= M -> 2 ^ b <= rne M j.
Proof.
  intros Hb HM. rewrite rne_is_arith.
  pose proof (rne_arith_bounds M (2 ^ Z.of_nat j)).
  assert (2 ^ b <= M / 2 ^ Z.of_nat j).
  { apply Z.div_le_lower_bound; [apply Z.pow_pos_nonneg; lia|].
    rewrite <- Z.pow_add_r by lia. exact HM. }
  lia.
Qed.



(** *** The exponent and the digits of a binary64 *)

Lemma fexp_spec (e : Z) : fexp prec emax e = Z.max (e - 53) (-1074).
Proof. reflexivity. Qed.

Lemma dig_bounds (m : positive) : 2 ^ (dig m - 1) <= Zpos m < 2 ^ dig m.
Proof.
  unfold dig. induction m as [m IH|m IH|]; cbn [digits2_pos].
  - rewrite Pos2Z.inj_succ, (Pos2Z.inj_xI m).
    replace (Z.succ (Z.pos (digits2_pos m)) - 1)
      with (Z.succ (Z.pos (digits2_pos m) - 1)) by lia.
    rewrite !Z.pow_succ_r by lia.
    set (a := 2 ^ (Z.pos (digits2_pos m) - 1)) in *.
    set (b := 2 ^ Z.pos (digits2_pos m)) in *. clearbody a b. lia.
  - rewrite Pos2Z.inj_succ, (Pos2Z.inj_xO m).
    replace (Z.succ (Z.pos (digits2_pos m)) - 1)
      with (Z.succ (Z.pos (digits2_pos m) - 1)) by lia.
    rewrite !Z.pow_succ_r by lia.
    set (a := 2 ^ (Z.pos (digits2_pos m) - 1)) in *.
    set (b := 2 ^ Z.pos (digits2_pos m)) in *. clearbody a b. lia.
  - cbn. lia.
Qed.

Lemma dig_pos (m : positive) : 1 <= dig m.
Proof. unfold dig. lia. Qed.

Lemma dig_log2 (m : positive) : dig m = Z.log2 (Zpos m) + 1.
Proof.
  pose proof (dig_bounds m) as H. pose proof (dig_pos m).
  rewrite (Z.log2_unique (Zpos m) (dig m - 1)); [lia|lia|].
  replace (Z.succ (dig m - 1)) with (dig m) by lia. exact H.
Qed.

Lemma dig_le (m : positive) (b : Z) : Zpos m < 2 ^ b -> dig m <= b.
Proof.
  intros H. pose proof (dig_bounds m) as [Hl _]. pose proof (dig_pos m).
  destruct (Z_le_gt_dec (dig m) b) as [|Hgt]; [assumption|].
  assert (2 ^ b <= 2 ^ (dig m - 1)).
  { destruct (Z_lt_le_dec b 0).
    - rewrite Z.pow_neg_r by lia. apply Z.pow_nonneg. lia.
    - apply Z.pow_le_mono_r; lia. }
  lia.
Qed.

(** *** The result of rounding, from the rounded mantissa and its exponent *)

Lemma binary_round_aux_finish (m e : Z) :
  binary_round_aux prec emax false m e loc_Exact =
  finish
    (let '(mrs', e') := shr_fexp prec emax m e loc_Exact in
     shr_fexp prec emax
       (round_nearest_even (shr_m mrs') (loc_of_shr_record mrs')) e' loc_Exact).
Proof.
  unfold binary_round_aux, finish.
  destruct (shr_fexp prec emax m e loc_Exact) as [mrs' e'].
  destruct (shr_fexp prec emax _ e' loc_Exact) as [mrs'' e''].
  reflexivity.
Qed.

Lemma second_shift (q E : Z) :
  0 <= q <= 2 ^ 53 -> -1074 <= E ->
  finish (shr_fexp prec emax q E loc_Exact) = pack q E.
Proof.
  intros Hq HE. unfold shr_fexp, shr_record_of_loc, pack.
  destruct q as [|mq|mq]; [| |lia].
  - cbn [Zdigits2 Z.eqb]. rewrite fexp_spec.
    unfold shr. destruct (Z.max (0 + E - 53) (-1074) - E) eqn:Ek; try lia;
      reflexivity.
  - cbn [Zdigits2 Z.eqb]. fold (dig mq). rewrite fexp_spec.
    destruct (Z.ltb_spec (Zpos mq) (2 ^ 53)) as [Hlt|Hge].
    + pose proof (dig_le mq 53 Hlt).
      unfold shr.
      destruct (Z.max (dig mq + E - 53) (-1074) - E) eqn:Ek; try lia;
        cbn [finish shr_m]; rewrite Pos2Z.id; reflexivity.
    + assert (Eq : Zpos mq = 2 ^ 53) by lia.
      injection Eq as ->.
      replace (Z.max (dig _ + E - 53) (-1074) - E) with 1
        by (unfold dig; cbn [digits2_pos Pos.succ]; lia).
      cbn [shr iter_pos shr_1 orb finish shr_m].
      reflexivity.
Qed.

(** Rounding a positive mantissa [m] with exponent [e] that needs no left
    shift: the mantissa is shifted right to the exponent [E] of the format,
    rounded to nearest even, and packed. *)
Lemma bra_spec (m : positive) (e : Z) :
  e <= fexp prec emax (dig m + e) ->
  binary_round_aux prec emax false (Zpos m) e loc_Exact =
  pack (rne (Zpos m) (Z.to_nat (fexp prec emax (dig m + e) - e)))
       (fexp prec emax (dig m + e)).
Proof.
  intros Hk. rewrite binary_round_aux_finish.
  unfold shr_fexp at 1. cbn [Zdigits2 shr_record_of_loc]. fold (dig m).
  set (E := fexp prec emax (dig m + e)) in *.
  assert (HE : -1074 <= E) by (subst E; rewrite fexp_spec; lia).
  assert (HEd : dig m + e - 53 <= E) by (subst E; rewrite fexp_spec; lia).
  pose proof (dig_bounds m) as [_ Hm].
  unfold shr. destruct (E - e) as [|p|p] eqn:Ek; [| |lia].
  - cbn [shr_m loc_of_shr_record round_nearest_even Z.to_nat].
    rewrite rne_0, second_shift; [f_equal; lia| |lia].
    split; [lia|]. apply Z.lt_le_incl.
    eapply Z.lt_le_trans; [exact Hm|]. apply Z.pow_le_mono_r; lia.
  - rewrite iter_shr by lia.
    replace (e + Z.pos p) with E by lia.
    change (round_nearest_even _ _) with (rne (Zpos m) (Pos.to_nat p)).
    cbn [Z.to_nat]. apply second_shift; [|exact HE].
    split; [apply rne_nonneg; lia|].
    apply rne_upper; [lia|].
    eapply Z.lt_le_trans; [exact Hm|]. apply Z.pow_le_mono_r; lia.
Qed.



(** *** Rounding as a function of the exact value *)

Lemma exponent_of_min (V : Z) : -1074 <= exponent_of V.
Proof. unfold exponent_of. rewrite fexp_spec. lia. Qed.

Lemma exponent_of_mono (V1 V2 : Z) :
  V1 <= V2 -> exponent_of V1 <= exponent_of V2.
Proof.
  intros H. unfold exponent_of, magnitude. rewrite !fexp_spec.
  pose proof (Z.log2_le_mono V1 V2 H). lia.
Qed.

Lemma mantissa_of_range (V : Z) : 0 < V -> 0 <= mantissa_of V <= 2 ^ 53.
Proof.
  intros HV. unfold mantissa_of.
  pose proof (exponent_of_min V) as Hmin.
  split; [apply rne_nonneg; lia|].
  apply rne_upper; [lia|].
  rewrite Z2Nat.id by (unfold full_scale; lia).
  pose proof (Z.log2_spec V HV) as [_ Hlt].
  eapply Z.lt_le_trans; [exact Hlt|].
  apply Z.pow_le_mono_r; [lia|].
  unfold exponent_of, magnitude. rewrite fexp_spec. lia.
Qed.

Lemma mantissa_of_normal (V : Z) :
  0 < V -> -1074 < exponent_of V -> 2 ^ 52 <= mantissa_of V.
Proof.
  intros HV HE. unfold mantissa_of.
  apply rne_lower; [lia|].
  rewrite Z2Nat.id by (unfold full_scale; lia).
  pose proof (Z.log2_spec V HV) as [Hle _].
  eapply Z.le_trans; [|exact Hle].
  apply Z.pow_le_mono_r; [lia|].
  revert HE. unfold exponent_of, magnitude. rewrite fexp_spec. lia.
Qed.

Lemma mantissa_of_mono (V1 V2 : Z) :
  V1 <= V2 -> exponent_of V1 = exponent_of V2 ->
  mantissa_of V1 <= mantissa_of V2.
Proof.
  intros H E. unfold mantissa_of. rewrite E. apply rne_mono, H.
Qed.

(** *** The order of binary64 *)

Lemma SFleb_finite_pos (m1 m2 : positive) (e1 e2 : Z) :
  SFleb (S754_finite false m1 e1) (S754_finite false m2 e2) = true <->
  e1 < e2 \/ (e1 = e2 /\ Zpos m1 <= Zpos m2).
Proof.
  unfold SFleb, SFcompare.
  destruct (Z.compare_spec e1 e2) as [He|He|He].
  - change (Pos.compare_cont Eq m1 m2) with (Pos.compare m1 m2).
    destruct (Pos.compare_spec m1 m2) as [Hm|Hm|Hm];
      split; intros H; try discriminate; try reflexivity; lia.
  - split; intros H; [lia|reflexivity].
  - split; intros H; [discriminate|lia].
Qed.

Lemma pack_le (q1 E1 q2 E2 : Z) :
  0 <= q1 <= 2 ^ 53 -> 0 <= q2 <= 2 ^ 53 ->
  -1074 <= E1 -> E1 <= E2 ->
  (E1 = E2 -> q1 <= q2) ->
  (-1074 < E2 -> 2 ^ 52 <= q2) ->
  SFleb (pack q1 E1) (pack q2 E2) = true.
Proof.
  intros H1 H2 Hmin HE Hq Hn. unfold pack.
  assert (P52 : Z.pos (Z.to_pos (2 ^ 52)) = 2 ^ 52) by reflexivity.
  assert (P53 : 2 ^ 53 = 2 * 2 ^ 52) by reflexivity.
  set (a := 2 ^ 52) in *. clearbody a. rewrite P53 in *. clear P53.
  repeat match goal with
         | |- context [?x =? ?y] => destruct (Z.eqb_spec x y)
         | |- context [?x <? ?y] => destruct (Z.ltb_spec x y)
         | |- context [?x <=? ?y] => destruct (Z.leb_spec x y)
         end;
    try reflexivity; try lia;
    try (apply SFleb_finite_pos; rewrite ?P52, ?Z2Pos.id by lia; lia).
Qed.

(** A larger value rounds to a larger binary64. *)
Lemma nearest_mono (V1 V2 : Z) :
  0 < V1 -> V1 <= V2 -> SFleb (nearest V1) (nearest V2) = true.
Proof.
  intros H1 H. unfold nearest.
  apply pack_le.
  - apply mantissa_of_range, H1.
  - apply mantissa_of_range. lia.
  - apply exponent_of_min.
  - apply exponent_of_mono, H.
  - apply mantissa_of_mono, H.
  - apply mantissa_of_normal. lia.
Qed.

(** What [binary_round_aux] returns is the binary64 nearest to the value of
    its input. *)
Lemma bra_nearest (m : positive) (e : Z) :
  - full_scale <= e ->
  e <= fexp prec emax (dig m + e) ->
  binary_round_aux prec emax false (Zpos m) e loc_Exact =
  nearest (Zpos m * 2 ^ (e + full_scale)).
Proof.
  intros He Hk. rewrite (bra_spec m e Hk).
  unfold nearest, mantissa_of, exponent_of, magnitude.
  rewrite Z.log2_mul_pow2 by lia.
  replace (e + full_scale + Z.log2 (Z.pos m) + 1 - full_scale) with (dig m + e)
    by (rewrite dig_log2; lia).
  set (E := fexp prec emax (dig m + e)) in *.
  f_equal.
  replace (Z.to_nat (E + full_scale))
    with (Z.to_nat (E - e) + Z.to_nat (e + full_scale))%nat by lia.
  rewrite <- (rne_scale (Zpos m) (Z.to_nat (e + full_scale))
               (Z.to_nat (E - e))).
  rewrite Z2Nat.id by lia. reflexivity.
Qed.



(** *** The value of a binary64 *)

Lemma valid_bounds (s : bool) (m : positive) (e : Z) :
  valid_binary (S754_finite s m e) = true ->
  fexp prec emax (dig m + e) = e /\ -1074 <= e <= 971 /\ dig m <= 53 /\
  (-1074 < e -> dig m = 53).
Proof.
  cbn [SpecFloat.valid_binary]. unfold bounded, canonical_mantissa.
  fold (dig m).
  intros H. apply andb_true_iff in H as [Hc He].
  apply Z.eqb_eq in Hc. apply Z.leb_le in He.
  change (emax - prec) with 971 in He.
  split; [exact Hc|]. rewrite fexp_spec in Hc. lia.
Qed.

Lemma valid_mantissa (s : bool) (m : positive) (e : Z) :
  valid_binary (S754_finite s m e) = true ->
  Zpos m < 2 ^ 53 /\ (-1074 < e -> 2 ^ 52 <= Zpos m).
Proof.
  intros H. apply valid_bounds in H as (_ & _ & Hd & Hn).
  pose proof (dig_bounds m) as [Hl Hu]. split.
  - eapply Z.lt_le_trans; [exact Hu|]. apply Z.pow_le_mono_r; lia.
  - intros He. rewrite (Hn He) in Hl. exact Hl.
Qed.

Lemma pow2_pos (k : Z) : 0 <= k -> 0 < 2 ^ k.
Proof. intros. apply Z.pow_pos_nonneg; lia. Qed.

Lemma pow2_split (a b : Z) : 0 <= a -> 0 <= b -> 2 ^ (a + b) = 2 ^ a * 2 ^ b.
Proof. intros. apply Z.pow_add_r; assumption. Qed.

(** A binary64 is the nearest binary64 to its own value. *)
Lemma nearest_exact (m : positive) (e : Z) :
  valid_binary (S754_finite false m e) = true ->
  nearest (Zpos m * 2 ^ (e + full_scale)) = S754_finite false m e.
Proof.
  intros Hv. pose proof (valid_bounds _ _ _ Hv) as (Hc & He & _ & _).
  pose proof (valid_mantissa _ _ _ Hv) as [Hm _].
  rewrite <- bra_nearest by (unfold full_scale; lia).
  rewrite bra_spec by lia. rewrite Hc, Z.sub_diag. cbn [Z.to_nat].
  rewrite rne_0. unfold pack.
  destruct (Z.eqb_spec (Zpos m) 0); [lia|].
  destruct (Z.ltb_spec (Zpos m) (2 ^ 53)); [|lia].
  destruct (Z.leb_spec e 971); [|lia].
  rewrite Pos2Z.id. reflexivity.
Qed.

(** The order of two positive binary64 is the order of their values. *)
Lemma SFleb_value_pos (m1 m2 : positive) (e1 e2 : Z) :
  valid_binary (S754_finite false m1 e1) = true ->
  valid_binary (S754_finite false m2 e2) = true ->
  SFleb (S754_finite false m1 e1) (S754_finite false m2 e2) = true ->
  Zpos m1 * 2 ^ (e1 + unit_scale) <= Zpos m2 * 2 ^ (e2 + unit_scale).
Proof.
  intros V1 V2 H. apply SFleb_finite_pos in H.
  pose proof (valid_bounds _ _ _ V1) as (_ & B1 & _ & _).
  pose proof (valid_bounds _ _ _ V2) as (_ & B2 & _ & _).
  pose proof (valid_mantissa _ _ _ V1) as [M1 _].
  pose proof (valid_mantissa _ _ _ V2) as [_ M2].
  destruct H as [Hlt|[-> Hm]].
  - specialize (M2 ltac:(lia)).
    replace (e2 + unit_scale) with ((e2 - e1 - 1) + 1 + (e1 + unit_scale))
      by lia.
    rewrite (pow2_split (e2 - e1 - 1 + 1) (e1 + unit_scale)),
      (pow2_split (e2 - e1 - 1) 1) by (unfold unit_scale; lia).
    pose proof (pow2_pos (e1 + unit_scale) ltac:(unfold unit_scale; lia)) as HP.
    pose proof (pow2_pos (e2 - e1 - 1) ltac:(lia)) as HK.
    change (2 ^ 1) with 2. change (2 ^ 53) with (2 * 2 ^ 52) in M1.
    set (P := 2 ^ (e1 + unit_scale)) in *.
    set (K := 2 ^ (e2 - e1 - 1)) in *.
    set (a := 2 ^ 52) in *. clearbody P K a.
    assert (H1 : Z.pos m1 * P <= 2 * a * P)
      by (apply Z.mul_le_mono_nonneg_r; lia).
    assert (H2 : a * 1 <= Z.pos m2 * K)
      by (apply Z.mul_le_mono_nonneg; lia).
    assert (H3 : 2 * a * P <= Z.pos m2 * (K * 2) * P)
      by (apply Z.mul_le_mono_nonneg_r; lia).
    lia.
  - apply Z.mul_le_mono_nonneg_r; [|exact Hm].
    apply Z.lt_le_incl, pow2_pos. unfold unit_scale. lia.
Qed.

Lemma SFleb_finite_neg (m1 m2 : positive) (e1 e2 : Z) :
  SFleb (S754_finite true m1 e1) (S754_finite true m2 e2) =
  SFleb (S754_finite false m2 e2) (S754_finite false m1 e1).
Proof.
  unfold SFleb, SFcompare.
  rewrite (Z.compare_antisym e1 e2).
  change (Pos.compare_cont Eq m1 m2) with (Pos.compare m1 m2).
  change (Pos.compare_cont Eq m2 m1) with (Pos.compare m2 m1).
  rewrite (Pos.compare_antisym m1 m2).
  destruct (e1 ?= e2), (m1 ?= m2)%positive; reflexivity.
Qed.

Lemma value_sign (s : bool) (m : positive) (e : Z) :
  -1074 <= e ->
  if s then value (S754_finite s m e) < 0 else 0 < value (S754_finite s m e).
Proof.
  intros He. cbn [value].
  pose proof (pow2_pos (e + unit_scale) ltac:(unfold unit_scale; lia)).
  destruct s; cbn [cond_Zopp]; nia.
Qed.

(** The order of two real binary64 is the order of their values. *)
Lemma SFleb_value (x y : spec_float) :
  valid_binary x = true -> valid_binary y = true ->
  is_real x = true -> is_real y = true ->
  SFleb x y = true -> value x <= value y.
Proof.
  intros Vx Vy Rx Ry H.
  destruct x as [sx|sx| |sx mx ex]; try discriminate Rx;
    destruct y as [sy|sy| |sy my ey]; try discriminate Ry.
  - reflexivity.
  - pose proof (valid_bounds _ _ _ Vy) as (_ & By & _ & _).
    pose proof (value_sign sy my ey ltac:(lia)) as S.
    destruct sy; [discriminate H|]. cbn [value] in *. lia.
  - pose proof (valid_bounds _ _ _ Vx) as (_ & Bx & _ & _).
    pose proof (value_sign sx mx ex ltac:(lia)) as S.
    destruct sx; [|discriminate H]. cbn [value] in *. lia.
  - pose proof (valid_bounds _ _ _ Vx) as (_ & Bx & _ & _).
    pose proof (valid_bounds _ _ _ Vy) as (_ & By & _ & _).
    pose proof (value_sign sx mx ex ltac:(lia)) as Sx.
    pose proof (value_sign sy my ey ltac:(lia)) as Sy.
    destruct sx, sy.
    + rewrite SFleb_finite_neg in H.
      apply SFleb_value_pos in H; [|exact Vy|exact Vx].
      cbn [value cond_Zopp]. lia.
    + lia.
    + discriminate H.
    + apply SFleb_value_pos in H; [|exact Vx|exact Vy].
      cbn [value cond_Zopp]. exact H.
Qed.

(** *** Products *)

Lemma dig_mul (m1 m2 : positive) : dig m1 + dig m2 - 1 <= dig (m1 * m2).
Proof.
  pose proof (dig_bounds m1) as [L1 _]. pose proof (dig_bounds m2) as [L2 _].
  pose proof (dig_bounds (m1 * m2)) as [_ U].
  pose proof (dig_pos m1). pose proof (dig_pos m2).
  pose proof (dig_pos (m1 * m2)).
  rewrite Pos2Z.inj_mul in U.
  assert (Hlt : 2 ^ (dig m1 - 1 + (dig m2 - 1)) < 2 ^ dig (m1 * m2)).
  { rewrite pow2_split by lia.
    eapply Z.le_lt_trans; [|exact U].
    apply Z.mul_le_mono_nonneg; try assumption;
      apply Z.lt_le_incl, pow2_pos; lia. }
  apply Z.pow_lt_mono_r_iff in Hlt; lia.
Qed.

(** The product of two positive binary64 is the binary64 nearest to the
    product of their values. *)
Lemma SFmul_nearest (m1 m2 : positive) (e1 e2 : Z) :
  valid_binary (S754_finite false m1 e1) = true ->
  valid_binary (S754_finite false m2 e2) = true ->
  SFmul prec emax (S754_finite false m1 e1) (S754_finite false m2 e2) =
  nearest (value (S754_finite false m1 e1) * value (S754_finite false m2 e2)).
Proof.
  intros V1 V2. cbn [SFmul xorb value cond_Zopp].
  pose proof (valid_bounds _ _ _ V1) as (C1 & B1 & D1 & N1).
  pose proof (valid_bounds _ _ _ V2) as (C2 & B2 & D2 & N2).
  pose proof (dig_mul m1 m2) as Hd.
  pose proof (dig_pos m1). pose proof (dig_pos m2).
  rewrite bra_nearest.
  - f_equal. rewrite Pos2Z.inj_mul.
    replace (e1 + e2 + full_scale) with ((e1 + unit_scale) + (e2 + unit_scale))
      by (unfold full_scale, unit_scale; lia).
    rewrite pow2_split by (unfold unit_scale; lia). ring.
  - unfold full_scale. lia.
  - rewrite fexp_spec in *. lia.
Qed.

(** *** Sums *)

Lemma iter_xO_value (m d : positive) :
  Zpos (Pos.iter xO m d) = Zpos m * 2 ^ Zpos d.
Proof.
  induction d as [|d IH] using Pos.peano_ind.
  - cbn [Pos.iter]. rewrite (Pos2Z.inj_xO m). change (2 ^ 1) with 2. lia.
  - rewrite Pos.iter_succ, (Pos2Z.inj_xO (Pos.iter xO m d)), IH.
    rewrite Pos2Z.inj_succ, Z.pow_succ_r by lia. ring.
Qed.

Lemma iter_xO_dig (m d : positive) :
  dig (Pos.iter xO m d) = dig m + Zpos d.
Proof.
  unfold dig. induction d as [|d IH] using Pos.peano_ind.
  - cbn [Pos.iter digits2_pos]. lia.
  - rewrite Pos.iter_succ. cbn [digits2_pos].
    rewrite Pos2Z.inj_succ, IH. lia.
Qed.

Lemma shl_align_value (m : positive) (e e' : Z) :
  e' <= e ->
  Zpos (fst (shl_align m e e')) = Zpos m * 2 ^ (e - e').
Proof.
  intros H. unfold shl_align.
  destruct (e' - e) as [|p|p] eqn:Ed; cbn [fst]; try lia.
  - replace (e - e') with 0 by lia. cbn. lia.
  - rewrite iter_xO_value. f_equal. f_equal. lia.
Qed.

(** [binary_round] returns the binary64 nearest to the value of its input. *)
Lemma binary_round_nearest (m : positive) (e : Z) :
  - full_scale <= e -> -1074 <= e ->
  binary_round prec emax false m e = nearest (Zpos m * 2 ^ (e + full_scale)).
Proof.
  intros He He'. unfold binary_round, shl_align. fold (dig m).
  set (E := fexp prec emax (dig m + e)).
  assert (HE : -1074 <= E) by (subst E; rewrite fexp_spec; lia).
  destruct (E - e) as [|p|p] eqn:Ed.
  - apply bra_nearest; [exact He|]. fold E. lia.
  - apply bra_nearest; [exact He|]. fold E. lia.
  - rewrite bra_nearest.
    + f_equal. rewrite iter_xO_value.
      replace (e + full_scale) with (Zpos p + (E + full_scale)) by lia.
      rewrite (pow2_split (Zpos p) (E + full_scale))
        by (unfold full_scale; lia).
      ring.
    + unfold full_scale. lia.
    + rewrite iter_xO_dig.
      replace (dig m + Z.pos p + E) with (dig m + e) by lia.
      fold E. lia.
Qed.

(** The sum of a positive binary64 and a real one, when it is positive, is
    the binary64 nearest to the sum of their values. *)
Lemma SFadd_nearest (ma : positive) (ea : Z) (p : spec_float) :
  valid_binary (S754_finite false ma ea) = true ->
  valid_binary p = true -> is_real p = true ->
  0 < value (S754_finite false ma ea) + value p ->
  SFadd prec emax (S754_finite false ma ea) p =
  nearest ((value (S754_finite false ma ea) + value p) * 2 ^ unit_scale).
Proof.
  intros Va Vp Rp Hpos.
  pose proof (valid_bounds _ _ _ Va) as (_ & Ba & _ & _).
  destruct p as [sp|sp| |sp mp ep]; try discriminate Rp.
  - cbn [SFadd value cond_Zopp]. rewrite Z.add_0_r.
    rewrite <- (nearest_exact ma ea Va). f_equal.
    rewrite <- Z.mul_assoc. f_equal.
    rewrite <- pow2_split by (unfold unit_scale; lia).
    f_equal. unfold full_scale, unit_scale. lia.
  - pose proof (valid_bounds _ _ _ Vp) as (_ & Bp & _ & _).
    cbn [SFadd]. set (ez := Z.min ea ep).
    rewrite (shl_align_value ma ea ez) by (subst ez; lia).
    rewrite (shl_align_value mp ep ez) by (subst ez; lia).
    assert (Hez : -1074 <= ez) by (subst ez; lia).
    assert (Hsum :
      (cond_Zopp false (Z.pos ma * 2 ^ (ea - ez)) +
       cond_Zopp sp (Z.pos mp * 2 ^ (ep - ez))) * 2 ^ (ez + full_scale) =
      (value (S754_finite false ma ea) + value (S754_finite sp mp ep)) *
      2 ^ unit_scale).
    { cbn [value].
      replace (ea + unit_scale) with ((ea - ez) + (ez + unit_scale)) by lia.
      replace (ep + unit_scale) with ((ep - ez) + (ez + unit_scale)) by lia.
      replace (ez + full_scale) with ((ez + unit_scale) + unit_scale)
        by (unfold full_scale, unit_scale; lia).
      rewrite (pow2_split (ea - ez)), (pow2_split (ep - ez)),
        (pow2_split (ez + unit_scale))
        by (subst ez; unfold unit_scale; lia).
      destruct sp; cbn [cond_Zopp]; ring. }
    rewrite <- Hsum.
    pose proof (pow2_pos (ez + full_scale) ltac:(unfold full_scale; lia)) as HP.
    pose proof (pow2_pos unit_scale ltac:(unfold unit_scale; lia)) as HU.
    assert (Hs : 0 < cond_Zopp false (Z.pos ma * 2 ^ (ea - ez)) +
                     cond_Zopp sp (Z.pos mp * 2 ^ (ep - ez))).
    { apply (Z.mul_lt_mono_pos_r (2 ^ (ez + full_scale))); [exact HP|].
      rewrite Hsum. apply Z.mul_pos_pos; [exact Hpos|exact HU]. }
    destruct (cond_Zopp false _ + cond_Zopp sp _) as [|S|S] eqn:ES;
      [lia| |lia].
    cbn [binary_normalize].
    apply binary_round_nearest; [unfold full_scale; lia|exact Hez].
Qed.



(** *** Signs *)

Lemma binary_round_aux_sign (m e : Z) (l : location) :
  binary_round_aux prec emax true m e l =
  SFopp (binary_round_aux prec emax false m e l).
Proof.
  unfold binary_round_aux.
  destruct (shr_fexp prec emax m e l) as [mrs' e'].
  destruct (shr_fexp prec emax _ e' loc_Exact) as [mrs'' e''].
  destruct (shr_m mrs'') as [|q|q]; try reflexivity.
  destruct (e'' <=? emax - prec); reflexivity.
Qed.

Lemma SFleb_opp (x y : spec_float) :
  SFleb (SFopp x) (SFopp y) = SFleb y x.
Proof.
  destruct x as [[|]|[|]| |[|] m1 e1], y as [[|]|[|]| |[|] m2 e2];
    try reflexivity; cbn [SFopp negb].
  - symmetry. apply SFleb_finite_neg.
  - apply SFleb_finite_neg.
Qed.

Lemma pack_cases (q E : Z) :
  pack q E = S754_zero false \/
  (exists m e, pack q E = S754_finite false m e) \/
  pack q E = S754_infinity false.
Proof.
  unfold pack.
  destruct (q =? 0); [left; reflexivity|right].
  destruct (q <? 2 ^ 53).
  - destruct (E <=? 971); [left; eauto|right; reflexivity].
  - destruct (E + 1 <=? 971); [left; eauto|right; reflexivity].
Qed.

(** Whatever is rounded from a positive value is above every negative
    binary64, and its opposite below every positive one. *)
Lemma negative_le_nearest (m : positive) (e : Z) (V : Z) :
  SFleb (S754_finite true m e) (nearest V) = true.
Proof.
  unfold nearest.
  destruct (pack_cases (mantissa_of V) (exponent_of V))
    as [->|[(m' & e' & ->)| ->]]; reflexivity.
Qed.

Lemma opp_nearest_le_positive (m : positive) (e : Z) (V : Z) :
  SFleb (SFopp (nearest V)) (S754_finite false m e) = true.
Proof.
  unfold nearest.
  destruct (pack_cases (mantissa_of V) (exponent_of V))
    as [->|[(m' & e' & ->)| ->]]; reflexivity.
Qed.

(** *** A factor in [[-1, 1]] *)

Lemma SF_one_valid : valid_binary SF_one = true.
Proof. reflexivity. Qed.

Lemma value_one : value SF_one = 2 ^ unit_scale.
Proof. reflexivity. Qed.

Lemma nearest_times_one (mc : positive) (ec : Z) :
  valid_binary (S754_finite false mc ec) = true ->
  nearest (2 ^ unit_scale * value (S754_finite false mc ec)) =
  S754_finite false mc ec.
Proof.
  intros Vc. pose proof (valid_bounds _ _ _ Vc) as (_ & Bc & _ & _).
  transitivity (nearest (Zpos mc * 2 ^ (ec + full_scale)));
    [|apply nearest_exact, Vc].
  f_equal. cbn [value cond_Zopp].
  replace (ec + full_scale) with (unit_scale + (ec + unit_scale))
    by (unfold full_scale, unit_scale; lia).
  rewrite (pow2_split unit_scale (ec + unit_scale))
    by (unfold unit_scale; lia).
  ring.
Qed.

(** A positive factor of at most one gives a product of at most [c]. *)
Lemma SFmul_below (ms mc : positive) (es ec : Z) :
  valid_binary (S754_finite false ms es) = true ->
  valid_binary (S754_finite false mc ec) = true ->
  SFleb (S754_finite false ms es) SF_one = true ->
  SFleb (SFmul prec emax (S754_finite false ms es) (S754_finite false mc ec))
        (S754_finite false mc ec) = true.
Proof.
  intros Vs Vc H1.
  pose proof (valid_bounds _ _ _ Vs) as (_ & Bs & _ & _).
  pose proof (valid_bounds _ _ _ Vc) as (_ & Bc & _ & _).
  rewrite (SFmul_nearest _ _ _ _ Vs Vc).
  pose proof (nearest_times_one mc ec Vc) as E1.
  pose proof (SFleb_value _ _ Vs SF_one_valid eq_refl eq_refl H1) as Hv.
  rewrite value_one in Hv.
  pose proof (value_sign false ms es ltac:(lia)) as Ps.
  pose proof (value_sign false mc ec ltac:(lia)) as Pc.
  cbn beta iota in Ps, Pc.
  set (vs := value (S754_finite false ms es)) in *.
  set (vc := value (S754_finite false mc ec)) in *.
  clearbody vs vc. rewrite <- E1.
  apply nearest_mono.
  - apply Z.mul_pos_pos; assumption.
  - apply Z.mul_le_mono_nonneg_r; [lia|exact Hv].
Qed.

Lemma SFmul_opp_l (ms mc : positive) (es ec : Z) :
  SFmul prec emax (S754_finite true ms es) (S754_finite false mc ec) =
  SFopp (SFmul prec emax (S754_finite false ms es) (S754_finite false mc ec)).
Proof. cbn [SFmul xorb]. apply binary_round_aux_sign. Qed.

(** A factor [s] in [[-1, 1]] times a positive [c] is in [[-c, c]]. *)
Lemma SFmul_within (s : spec_float) (mc : positive) (ec : Z) :
  valid_binary s = true ->
  valid_binary (S754_finite false mc ec) = true ->
  SFleb (SFopp SF_one) s = true -> SFleb s SF_one = true ->
  SFleb (S754_finite true mc ec)
        (SFmul prec emax s (S754_finite false mc ec)) = true /\
  SFleb (SFmul prec emax s (S754_finite false mc ec))
        (S754_finite false mc ec) = true.
Proof.
  intros Vs Vc Hlo Hhi.
  destruct s as [sz|[|]| |[|] ms es]; try discriminate.
  - split; destruct sz; reflexivity.
  - rewrite SFmul_opp_l. split.
    + change (S754_finite true mc ec) with (SFopp (S754_finite false mc ec)).
      rewrite SFleb_opp. apply SFmul_below; [exact Vs|exact Vc|].
      change (S754_finite true ms es)
        with (SFopp (S754_finite false ms es)) in Hlo.
      rewrite SFleb_opp in Hlo. exact Hlo.
    + rewrite (SFmul_nearest _ _ _ _ Vs Vc). apply opp_nearest_le_positive.
  - split.
    + rewrite (SFmul_nearest _ _ _ _ Vs Vc). apply negative_le_nearest.
    + apply SFmul_below; assumption.
Qed.

(** *** An offset in [[-c, c]] added to a larger [a] *)

Lemma between_is_real (p : spec_float) (mc : positive) (ec : Z) :
  SFleb (S754_finite true mc ec) p = true ->
  SFleb p (S754_finite false mc ec) = true ->
  is_real p = true.
Proof.
  destruct p as [sp|[|]| |sp mp ep]; try reflexivity; discriminate.
Qed.

Lemma SFadd_mono (ma : positive) (ea : Z) (p1 p2 : spec_float) :
  valid_binary (S754_finite false ma ea) = true ->
  valid_binary p1 = true -> valid_binary p2 = true ->
  is_real p1 = true -> is_real p2 = true ->
  0 < value (S754_finite false ma ea) + value p1 ->
  SFleb p1 p2 = true ->
  SFleb (SFadd prec emax (S754_finite false ma ea) p1)
        (SFadd prec emax (S754_finite false ma ea) p2) = true.
Proof.
  intros Va V1 V2 R1 R2 Hpos H.
  pose proof (SFleb_value _ _ V1 V2 R1 R2 H) as Hv.
  rewrite (SFadd_nearest ma ea p1 Va V1 R1 Hpos).
  rewrite (SFadd_nearest ma ea p2 Va V2 R2 ltac:(lia)).
  pose proof (pow2_pos unit_scale ltac:(unfold unit_scale; lia)) as HU.
  apply nearest_mono.
  - apply Z.mul_pos_pos; assumption.
  - apply Z.mul_le_mono_nonneg_r; lia.
Qed.

Lemma SFadd_within (ma mc : positive) (ea ec : Z) (p : spec_float) :
  valid_binary (S754_finite false ma ea) = true ->
  valid_binary (S754_finite false mc ec) = true ->
  valid_binary p = true ->
  value (S754_finite false mc ec) < value (S754_finite false ma ea) ->
  SFleb (S754_finite true mc ec) p = true ->
  SFleb p (S754_finite false mc ec) = true ->
  SFleb (SFadd prec emax (S754_finite false ma ea) (S754_finite true mc ec))
        (SFadd prec emax (S754_finite false ma ea) p) = true /\
  SFleb (SFadd prec emax (S754_finite false ma ea) p)
        (SFadd prec emax (S754_finite false ma ea) (S754_finite false mc ec))
    = true.
Proof.
  intros Va Vc Vp Hlt Hlo Hhi.
  pose proof (between_is_real p mc ec Hlo Hhi) as Rp.
  assert (Vc' : valid_binary (S754_finite true mc ec) = true) by exact Vc.
  assert (Hneg : value (S754_finite true mc ec) =
                 - value (S754_finite false mc ec)) by reflexivity.
  pose proof (SFleb_value _ _ Vc' Vp eq_refl Rp Hlo) as Hv.
  split; apply SFadd_mono; try assumption; try reflexivity; lia.
Qed.

(** *** The same for the floats of the machine *)

Local Open Scope float_scope.

(** With [s] in [[-1, 1]], a positive [c] and a larger [a], the float
    [a + s * c] lies between the floats [a + -c] and [a + c]. *)
Lemma offset_within (a c s : float) (ma mc : positive) (ea ec : Z) :
  Prim2SF a = S754_finite false ma ea ->
  Prim2SF c = S754_finite false mc ec ->
  (value (Prim2SF c) < value (Prim2SF a))%Z ->
  (-1 <=? s) = true -> (s <=? 1) = true ->
  (a + - c <=? a + s * c) = true /\ (a + s * c <=? a + c) = true.
Proof.
  intros Ea Ec Hlt Hlo Hhi.
  pose proof (Prim2SF_valid a) as Va. pose proof (Prim2SF_valid c) as Vc.
  pose proof (Prim2SF_valid s) as Vs.
  pose proof (Prim2SF_valid (s * c)) as Vp.
  rewrite leb_spec in Hlo, Hhi.
  rewrite !leb_spec, !add_spec, opp_spec, mul_spec in *.
  rewrite Ea, Ec in *. cbn [SFopp negb].
  change (Prim2SF (-1)) with (SFopp SF_one) in Hlo.
  change (Prim2SF 1) with SF_one in Hhi.
  destruct (SFmul_within (Prim2SF s) mc ec Vs Vc Hlo Hhi) as [Plo Phi].
  apply SFadd_within; assumption.
Qed.


(** *** Differences *)

Local Open Scope Z_scope.

(** The difference of two positive binary64, the larger first, is [+0] or
    the binary64 nearest to the difference of their values. *)
Lemma SFsub_nearest (mx mc : positive) (ex ec : Z) :
  valid_binary (S754_finite false mx ex) = true ->
  valid_binary (S754_finite false mc ec) = true ->
  value (S754_finite false mc ec) <= value (S754_finite false mx ex) ->
  SFsub prec emax (S754_finite false mx ex) (S754_finite false mc ec) =
    S754_zero false \/
  (0 < value (S754_finite false mx ex) - value (S754_finite false mc ec) /\
   SFsub prec emax (S754_finite false mx ex) (S754_finite false mc ec) =
     nearest ((value (S754_finite false mx ex) -
               value (S754_finite false mc ec)) * 2 ^ unit_scale)).
Proof.
  intros Vx Vc Hle.
  pose proof (valid_bounds _ _ _ Vx) as (_ & Bx & _ & _).
  pose proof (valid_bounds _ _ _ Vc) as (_ & Bc & _ & _).
  cbn [SFsub]. set (ez := Z.min ex ec).
  rewrite (shl_align_value mx ex ez) by (subst ez; lia).
  rewrite (shl_align_value mc ec ez) by (subst ez; lia).
  assert (Hez : -1074 <= ez) by (subst ez; lia).
  assert (Hsum :
    (cond_Zopp false (Z.pos mx * 2 ^ (ex - ez)) -
     cond_Zopp false (Z.pos mc * 2 ^ (ec - ez))) * 2 ^ (ez + full_scale) =
    (value (S754_finite false mx ex) - value (S754_finite false mc ec)) *
    2 ^ unit_scale).
  { cbn [value cond_Zopp].
    replace (ex + unit_scale) with ((ex - ez) + (ez + unit_scale)) by lia.
    replace (ec + unit_scale) with ((ec - ez) + (ez + unit_scale)) by lia.
    replace (ez + full_scale) with ((ez + unit_scale) + unit_scale)
      by (unfold full_scale, unit_scale; lia).
    rewrite (pow2_split (ex - ez)), (pow2_split (ec - ez)),
      (pow2_split (ez + unit_scale))
      by (subst ez; unfold unit_scale; lia).
    ring. }
  pose proof (pow2_pos (ez + full_scale) ltac:(unfold full_scale; lia)) as HP.
  pose proof (pow2_pos unit_scale ltac:(unfold unit_scale; lia)) as HU.
  set (vx := value (S754_finite false mx ex)) in *.
  set (vc := value (S754_finite false mc ec)) in *.
  destruct (cond_Zopp false _ - cond_Zopp false _) as [|S|S] eqn:ES.
  - left. reflexivity.
  - right. cbn [binary_normalize].
    assert (Hpos : 0 < vx - vc).
    { apply (Z.mul_lt_mono_pos_r (2 ^ unit_scale)); [exact HU|].
      rewrite <- Hsum. apply Z.mul_pos_pos; [lia|exact HP]. }
    split; [exact Hpos|].
    rewrite <- Hsum.
    apply binary_round_nearest; [unfold full_scale; lia|exact Hez].
  - exfalso.
    assert (Z.neg S * 2 ^ (ez + full_scale) < 0)
      by (apply Z.mul_neg_pos; [lia|exact HP]).
    assert (0 <= (vx - vc) * 2 ^ unit_scale)
      by (apply Z.mul_nonneg_nonneg; lia).
    lia.
Qed.

Lemma zero_le_nearest (V : Z) :
  SFleb (S754_zero false) (nearest V) = true.
Proof.
  unfold nearest.
  destruct (pack_cases (mantissa_of V) (exponent_of V))
    as [->|[(m' & e' & ->)| ->]]; reflexivity.
Qed.

(** Taking a smaller positive binary64 from a larger one leaves a binary64
    between zero and the larger one. *)
Lemma SFsub_within (mx mc : positive) (ex ec : Z) :
  valid_binary (S754_finite false mx ex) = true ->
  valid_binary (S754_finite false mc ec) = true ->
  SFleb (S754_finite false mc ec) (S754_finite false mx ex) = true ->
  SFleb (S754_zero false)
        (SFsub prec emax (S754_finite false mx ex) (S754_finite false mc ec))
    = true /\
  SFleb (SFsub prec emax (S754_finite false mx ex) (S754_finite false mc ec))
        (S754_finite false mx ex) = true.
Proof.
  intros Vx Vc H.
  pose proof (SFleb_value _ _ Vc Vx eq_refl eq_refl H) as Hv.
  pose proof (valid_bounds _ _ _ Vx) as (_ & Bx & _ & _).
  pose proof (valid_bounds _ _ _ Vc) as (_ & Bc & _ & _).
  pose proof (value_sign false mc ec ltac:(lia)) as Pc. cbn beta iota in Pc.
  destruct (SFsub_nearest mx mc ex ec Vx Vc Hv) as [->|[Hpos ->]].
  - split; reflexivity.
  - split; [apply zero_le_nearest|].
    pose proof (pow2_pos unit_scale ltac:(unfold unit_scale; lia)) as HU.
    assert (Ex : nearest (value (S754_finite false mx ex) * 2 ^ unit_scale) =
                 S754_finite false mx ex).
    { rewrite Z.mul_comm. apply nearest_times_one, Vx. }
    set (vx := value (S754_finite false mx ex)) in *.
    set (vc := value (S754_finite false mc ec)) in *.
    clearbody vx vc. rewrite <- Ex.
    apply nearest_mono.
    + apply Z.mul_pos_pos; assumption.
    + apply Z.mul_le_mono_nonneg_r; lia.
Qed.

(** *** Finite floats *)

Local Open Scope float_scope.

Lemma is_finite_real (f : float) : is_finite f = is_real (Prim2SF f).
Proof.
  unfold is_finite, is_nan, is_infinity. rewrite !eqb_spec, abs_spec.
  unfold SFeqb.
  change (Prim2SF infinity) with (S754_infinity false).
  destruct (Prim2SF f) as [sf|sf| |sf m e]; cbn [SFabs is_real];
    try (rewrite FloatFacts.SFcompare_refl by congruence);
    try (destruct sf; reflexivity); reflexivity.
Qed.

(** A float between zero and a finite float is finite. *)
Lemma between_finite (lim v : float) :
  is_finite lim = true -> (0 <=? v) = true -> (v <=? lim) = true ->
  is_finite v = true.
Proof.
  rewrite !is_finite_real, !leb_spec. rewrite FloatFacts.Prim2SF_zero.
  destruct (Prim2SF v) as [sv|[|]| |sv mv ev]; try reflexivity;
    try discriminate.
  destruct (Prim2SF lim) as [sl|sl| |sl ml el]; discriminate.
Qed.

(** With [c] positive and [d] a finite float of at least [c], the float
    [d - c] lies between [0] and [d]. *)
Lemma sub_within (d c : float) (mc : positive) (ec : Z) :
  Prim2SF c = S754_finite false mc ec ->
  is_finite d = true -> (c <=? d) = true ->
  (0 <=? d - c) = true /\ (d - c <=? d) = true.
Proof.
  intros Ec Hf Hle.
  pose proof (Prim2SF_valid d) as Vd. pose proof (Prim2SF_valid c) as Vc.
  rewrite is_finite_real in Hf.
  rewrite leb_spec in Hle. rewrite !leb_spec, sub_spec.
  rewrite FloatFacts.Prim2SF_zero. rewrite Ec in *.
  destruct (Prim2SF d) as [sd|sd| |[|] md ed]; try discriminate.
  apply SFsub_within; assumption.
Qed.

End RoundingFacts.

(* ================================================================== *)
(** ** The range of the bobbing and of a seek *)
(* ================================================================== *)

Section Ranges.

Variable Math_sin : float -> float.
Variable playlists : Playlists.

Import Rounding.

Local Open Scope float_scope.

Lemma within_spec (lo hi v : float) :
  within lo hi v = true <-> (lo <=? v) = true /\ (v <=? hi) = true.
Proof. unfold within. apply andb_true_iff. Qed.

(** The heights [bob_panels] writes, by the index of the panel. *)
Lemma bob_panels_heights (t : float) (k : nat) (children : list Panel)
    (mesh : Panel) :
  In mesh (bob_panels Math_sin t k children) ->
  exists i, (k <= i < k + List.length children)%nat /\
    y (position mesh) = 0.65 + Math_sin (t + JS.of_nat i) * 0.03.
Proof.
  revert k. induction children as [|m l IH]; intros k; cbn [bob_panels].
  - intros [].
  - intros [<-|H].
    + exists k. split; [cbn [List.length]; lia|reflexivity].
    + destruct (IH (S k) H) as (i & Hi & E).
      exists i. split; [cbn [List.length]; lia|exact E].
Qed.

Lemma rehover_heights (previous hit : option nat) (children : list Panel)
    (mesh : Panel) :
  In mesh (rehover previous hit children) ->
  exists mesh0, In mesh0 children /\ position mesh0 = position mesh.
Proof.
  intros H. apply (in_map position) in H.
  rewrite map_position_rehover in H. apply in_map_iff in H.
  destruct H as (mesh0 & E & Hin). exists mesh0. split; assumption.
Qed.

(** A sine in [[-1, 1]] keeps a panel within 0.03 of its base height, and
    the screen within 0.05. *)
Lemma panel_height_within (a : float) :
  within (-1) 1 a = true ->
  within (0.65 - 0.03) (0.65 + 0.03) (0.65 + a * 0.03) = true.
Proof.
  intros H. apply within_spec in H as [Hlo Hhi]. apply within_spec.
  change (0.65 - 0.03) with (0.65 + - 0.03).
  refine (RoundingFacts.offset_within 0.65 0.03 a _ _ _ _ _ _ _ Hlo Hhi);
    vm_compute; reflexivity.
Qed.

Lemma screen_height_within (a : float) :
  within (-1) 1 a = true ->
  within (2.1 - 0.05) (2.1 + 0.05) (2.1 + a * 0.05) = true.
Proof.
  intros H. apply within_spec in H as [Hlo Hhi]. apply within_spec.
  change (2.1 - 0.05) with (2.1 + - 0.05).
  refine (RoundingFacts.offset_within 2.1 0.05 a _ _ _ _ _ _ _ Hlo Hhi);
    vm_compute; reflexivity.
Qed.

(** X29.  The bobbing is bounded: a frame leaves every card at a height between
    [0.65 - 0.03] and [0.65 + 0.03] and the screen between [2.1 - 0.05] and
    [2.1 + 0.05], in the floats the script computes with, whenever the sines
    the frame takes are between -1 and 1. *)
Theorem bobbing_stays_in_range (now : float) (r : Rays) (s : State) :
  let t := now * 0.001 in
  (forall i, (i < List.length (panels s))%nat ->
     within (-1) 1 (Math_sin (t + JS.of_nat i)) = true) ->
  within (-1) 1 (Math_sin (t * 0.5)) = true ->
  let s' := handle Math_sin playlists (Frame now r) s in
  (forall mesh, In mesh (panels s') ->
     within (0.65 - 0.03) (0.65 + 0.03) (y (position mesh)) = true) /\
  (forall ref screen,
     curvedScreen s' = Some ref ->
     nth_error (screens s') ref = Some screen ->
     within (2.1 - 0.05) (2.1 + 0.05) (y (screen_position screen)) = true).
Proof.
  intros t Hcards Hscreen s'.
  assert (Es : s' = after_frame Math_sin t (getHoveredPanel r) s).
  { subst s' t. unfold handle. cbn [dispatch]. apply render_run. }
  rewrite Es. clear Es s'. split.
  - intros mesh Hin. unfold panels, after_frame in Hin. cbn in Hin.
    unfold panels in Hcards.
    destruct (panelGroup s) as [children|]; cbn in Hin; [|destruct Hin].
    apply rehover_heights in Hin. destruct Hin as (mesh0 & Hin & <-).
    apply bob_panels_heights in Hin. destruct Hin as (i & Hi & ->).
    apply panel_height_within, Hcards. lia.
  - intros ref screen Hc Hn. unfold after_frame in Hc, Hn. cbn in Hc, Hn.
    rewrite Hc in Hn. rewrite nth_error_update_nth, Nat.eqb_refl in Hn.
    destruct (nth_error (screens s) ref) as [sc|]; [|discriminate].
    injection Hn as <-. cbn [bob_screen screen_position y with_y].
    apply screen_height_within, Hscreen.
Qed.

(** *** Seeking *)

Lemma leb_not_nan (a b : float) :
  (a <=? b) = true -> is_nan a = false /\ is_nan b = false.
Proof.
  rewrite leb_spec, !FloatFacts.not_nan_spec. unfold SFleb.
  destruct (Prim2SF a), (Prim2SF b); cbn; intros H; split; congruence.
Qed.

Lemma leb_refl (a : float) : is_nan a = false -> (a <=? a) = true.
Proof.
  rewrite FloatFacts.not_nan_spec, leb_spec. intros H. unfold SFleb.
  rewrite (FloatFacts.SFcompare_refl _ H). reflexivity.
Qed.

(** A position that is a number, moved by a finite step, is a number. *)
Lemma moved_not_nan (position delta : float) :
  is_nan position = false -> is_finite delta = true ->
  is_nan (position + delta) = false.
Proof.
  rewrite RoundingFacts.is_finite_real, !FloatFacts.not_nan_spec, add_spec.
  intros Hp Hd. unfold SF64add, SFadd.
  destruct (Prim2SF position) as [sp|sp| |sp mp ep]; try congruence;
    destruct (Prim2SF delta) as [sd|sd| |sd md ed]; try discriminate;
    try congruence; try (destruct sp, sd; congruence).
  apply FloatFacts.binary_normalize_not_nan.
Qed.

Lemma known_duration_truthy (length : float) :
  (0.1 <=? length) = true -> JS.truthy length = true.
Proof.
  intros H. destruct (leb_not_nan _ _ H) as [_ Hn].
  unfold JS.truthy. rewrite Hn. cbn [orb].
  unfold is_zero. rewrite eqb_spec. rewrite leb_spec in H.
  change (Prim2SF zero) with (S754_zero false).
  change (Prim2SF 0.1) with (S754_finite false 7205759403792794 (-56)) in H.
  destruct (Prim2SF length) as [sl|[|]| |[|] ml el]; try discriminate;
    reflexivity.
Qed.

(** The target of a seek in a clip of known length. *)
Lemma seek_target_within (position length delta : float) :
  is_nan position = false -> is_finite delta = true ->
  is_finite length = true -> (0.1 <=? length) = true ->
  is_finite (seek_target position length delta) = true /\
  within 0 (length - 0.1) (seek_target position length delta) = true.
Proof.
  intros Hp Hd Hf Hl.
  pose proof (moved_not_nan position delta Hp Hd) as Hn.
  destruct (RoundingFacts.sub_within length 0.1 7205759403792794 (-56)
              ltac:(vm_compute; reflexivity) Hf Hl) as [L0 L1].
  pose proof (RoundingFacts.between_finite _ _ Hf L0 L1) as FL.
  destruct (leb_not_nan _ _ L0) as [_ NL].
  unfold seek_target. rewrite (known_duration_truthy length Hl).
  set (t1 := clamp_below_zero (position + delta)).
  assert (H1 : (0 <=? t1) = true).
  { subst t1. unfold clamp_below_zero.
    destruct (position + delta <? 0) eqn:C; [reflexivity|].
    apply FloatFacts.not_ltb_leb; [exact Hn|reflexivity|exact C]. }
  destruct (leb_not_nan _ _ H1) as [_ N1].
  assert (Hw : within 0 (length - 0.1) (clamp_above (length - 0.1) t1) = true).
  { unfold clamp_above. apply within_spec.
    destruct (length - 0.1 <? t1) eqn:C.
    - split; [exact L0|apply leb_refl, NL].
    - split; [exact H1|].
      apply FloatFacts.not_ltb_leb; [exact NL|exact N1|exact C]. }
  split; [|exact Hw].
  apply within_spec in Hw as [W0 W1].
  exact (RoundingFacts.between_finite _ _ FL W0 W1).
Qed.

(** X30.  A seek lands inside the clip: when the video has a position, a finite
    length of at least 0.1 seconds and the step is finite, [seekBy] reports
    nothing, changes nothing but the position, and leaves the position
    between 0 and the length less 0.1 seconds. *)
Theorem seek_lands_inside_the_clip (delta : float) (s : State) (v : Video) :
  htmlVideo s = Some v ->
  is_nan (currentTime v) = false ->
  is_finite delta = true ->
  is_finite (duration v) = true ->
  (0.1 <=? duration v) = true ->
  exists target,
    exec (seekBy delta) s =
      set_htmlVideo (Some (with_currentTime target v)) s /\
    within 0 (duration v - 0.1) target = true.
Proof.
  intros Hv Hn Hd Hf Hl.
  destruct (seek_target_within (currentTime v) (duration v) delta Hn Hd Hf Hl)
    as [Fin Hw].
  exists (seek_target (currentTime v) (duration v) delta).
  split; [|exact Hw].
  rewrite (seekBy_closed delta s v Hv), Hn, Fin. reflexivity.
Qed.

End Ranges.


(* ================================================================== *)
(** ** Runs on the sample page *)
(* ================================================================== *)

Section Runs.

Local Open Scope float_scope.

(** The init pipeline picks the first video of the first item's playlist
    and leaves the element muted and looping. *)
Example booted_cursor :
  cursor Sample.booted =
    (hd_error Catalog.trendingItems, Some (JS.lit "creators"), 0%Z, false) /\
  src (Sample.video Sample.booted) = Catalog.sample "BigBuckBunny.mp4" /\
  muted (Sample.video Sample.booted) = true /\
  loop (Sample.video Sample.booted) = true.
Proof. vm_compute. repeat split. Qed.

(** Two clicks on volume-down from full volume: binary64 arithmetic. *)
Example two_steps_down :
  volume (Sample.video
            (Sample.on VolDownClick (Sample.on VolDownClick Sample.ready)))
  = 0.9 + -0.1.
Proof. vm_compute. reflexivity. Qed.

(** Ten clicks on volume-up from silence stop just short of full volume:
    ten times 0.1 stays below 1 in binary64. *)
Example ten_steps_up :
  let quiet := set_htmlVideo
                 (Some (with_volume 0 (Sample.video Sample.ready)))
                 Sample.ready in
  let up := Sample.on VolUpClick in
  volume (Sample.video (up (up (up (up (up (up (up (up (up quiet))))))))))
    = 0.1 + 0.1 + 0.1 + 0.1 + 0.1 + 0.1 + 0.1 + 0.1 + 0.1 /\
  volume (Sample.video
            (up (up (up (up (up (up (up (up (up (up quiet)))))))))))
    = 0.1 + 0.1 + 0.1 + 0.1 + 0.1 + 0.1 + 0.1 + 0.1 + 0.1 + 0.1 /\
  (0.1 + 0.1 + 0.1 + 0.1 + 0.1 + 0.1 + 0.1 + 0.1 + 0.1 + 0.1 <? 1) = true.
Proof. vm_compute. repeat split. Qed.

(** Seeking at 5 of 12 seconds: back to 0, forward to 11.9. *)
Example seek_midway :
  currentTime (Sample.video (Sample.on SeekBackClick Sample.midway)) = 0 /\
  currentTime (Sample.video (Sample.on SeekForwardClick Sample.midway))
    = 12 - 0.1.
Proof. vm_compute. split; reflexivity. Qed.

(** On a clip shorter than a tenth of a second the upper clamp decides, and
    the position asked for is below 0. *)
Example seek_short_clip :
  currentTime
    (Sample.video
       (Sample.on SeekForwardClick
          (Sample.on (MediaClock 0 0.05) Sample.ready)))
  = 0.05 - 0.1.
Proof. vm_compute. reflexivity. Qed.

(** A click on a panel before the first video has data: the source is
    switched, but the texture does not exist yet, the handler throws and
    [onended] is not installed. *)
Example early_activation :
  let s := Sample.on (WindowClick (Sample.pointer_at 2)) Sample.booted in
  src (Sample.video s) = Catalog.sample "ForBiggerEscapes.mp4" /\
  List.map fst (errors s) = ["playFromPlaylist"%string] /\
  onended (Sample.video s) = None /\
  Sample.on Ended s = s.
Proof. vm_compute. repeat split. Qed.

(** The playlist of the second panel wraps after its two entries. *)
Example playlist_round_trip :
  let s1 := Sample.on Ended Sample.browsing in
  let s2 := Sample.on Ended s1 in
  currentPlaylistIndex Sample.browsing = 0%Z /\
  currentPlaylistIndex s1 = 1%Z /\
  src (Sample.video s1) = Catalog.sample "ForBiggerBlazes.mp4" /\
  currentPlaylistIndex s2 = 0%Z /\
  src (Sample.video s2) = Catalog.sample "ForBiggerJoyrides.mp4".
Proof. vm_compute. repeat split. Qed.

(** Hovering the second panel, then nothing. *)
Example hover_then_leave :
  let s1 := Sample.on (Frame 0 (Sample.pointer_at 1)) Sample.ready in
  let nothing := {| pointer_hits := []; controller_rays := [] |} in
  let s2 := Sample.on (Frame 16 nothing) s1 in
  List.map scale (panels s1) =
    [vec 1 1 1; vec 1.05 1.05 1.05; vec 1 1 1; vec 1 1 1] /\
  List.map glow (panels s1) = [Some 0; Some 0.25; Some 0; Some 0] /\
  List.map scale (panels s2) = [vec 1 1 1; vec 1 1 1; vec 1 1 1; vec 1 1 1] /\
  List.map glow (panels s2) = [Some 0; Some 0; Some 0; Some 0].
Proof. vm_compute. repeat split. Qed.

(** [trim] removes white space at both ends only. *)
Example trim_url :
  JS.trim (JS.lit "  https://example.org/a b.mp4 ") =
  JS.lit "https://example.org/a b.mp4".
Proof. vm_compute. reflexivity. Qed.

End Runs.

(* ================================================================== *)
(** ** The theorems at work on the sample page *)
(* ================================================================== *)

Section Witnesses.

Local Open Scope float_scope.

Lemma activation_plays_playlist_witness :
  let s1 := Sample.on (XRSelect [2%nat; 3%nat]) Sample.booted in
  let s2 := Sample.on LoadedData s1 in
  exists item list url,
    userData_item (Sample.mesh Sample.booted 2) = Some item /\
    lookup Catalog.playlists (playlistId item) = Some list /\
    at_index list 0 = Some url /\
    currentItem s1 = Some item /\
    currentPlaylistId s1 = Some (playlistId item) /\
    currentPlaylistIndex s1 = 0%Z /\
    (exists v1, htmlVideo s1 = Some v1 /\ src v1 = url) /\
    (exists v2 k screen,
       htmlVideo s2 = Some v2 /\ src v2 = url /\ paused v2 = false /\
       (pendingPlay s1 < pendingPlay s2)%nat /\
       curvedScreen s2 = Some k /\ nth_error (screens s2) k = Some screen /\
       videoTexture s2 <> None).
Proof.
  refine (activation_plays_playlist Sample.sine Catalog.playlists
            Catalog.trendingItems Sample.booted 2
            (Sample.mesh Sample.booted 2) (XRSelect [2%nat; 3%nat])
            catalogue_playable (booted_reachable Sample.sine) _ _).
  - vm_compute. reflexivity.
  - apply by_select.
Defined.

Lemma volume_buttons_witness :
  (exists up,
     htmlVideo (Sample.on VolUpClick Sample.midway) = Some up /\
     volume up =
       JS.Math_max 0 (JS.Math_min 1 (volume (Sample.video Sample.midway) + 0.1)) /\
     (0 <=? volume up) = true /\ (volume up <=? 1) = true) /\
  (exists down,
     htmlVideo (Sample.on VolDownClick Sample.midway) = Some down /\
     volume down =
       JS.Math_max 0 (JS.Math_min 1 (volume (Sample.video Sample.midway) + -0.1)) /\
     (0 <=? volume down) = true /\ (volume down <=? 1) = true).
Proof.
  refine (volume_buttons Sample.sine Catalog.playlists Sample.midway
            (Sample.video Sample.midway) _ _ _); vm_compute; reflexivity.
Defined.

Lemma seek_buttons_witness :
  let v := Sample.video Sample.midway in
  let back := seek_target (currentTime v) (duration v) (-10) in
  let forward := seek_target (currentTime v) (duration v) 10 in
  Sample.on SeekBackClick Sample.midway =
    set_htmlVideo (Some (with_currentTime back v)) Sample.midway /\
  Sample.on SeekForwardClick Sample.midway =
    set_htmlVideo (Some (with_currentTime forward v)) Sample.midway /\
  (JS.truthy (duration v) = false ->
   (back <? 0) = false /\ (forward <? 0) = false) /\
  (JS.truthy (duration v) = true ->
   (duration v - 0.1 <? back) = false /\
   (duration v - 0.1 <? forward) = false).
Proof.
  refine (seek_buttons Sample.sine Catalog.playlists Sample.midway
            (Sample.video Sample.midway) _ _ _ _); vm_compute; reflexivity.
Defined.

Lemma frame_bobbing_witness :
  let s' := Sample.on (Frame 2000 (Sample.pointer_at 1)) Sample.ready in
  let t := 2000 * 0.001 in
  (exists mesh',
     nth_error (panels s') 1 = Some mesh' /\
     y (position mesh') = 0.65 + Sample.sine (t + JS.of_nat 1) * 0.03 /\
     x (position mesh') = x (position (Sample.mesh Sample.ready 1)) /\
     z (position mesh') = z (position (Sample.mesh Sample.ready 1))) /\
  match curvedScreen Sample.ready with
  | Some ref =>
      exists screen',
        curvedScreen s' = Some ref /\
        nth_error (screens s') ref = Some screen' /\
        y (screen_position screen') = 2.1 + Sample.sine (t * 0.5) * 0.05
  | None => curvedScreen s' = None
  end.
Proof.
  refine (frame_bobbing Sample.sine Catalog.playlists Catalog.trendingItems
            2000 (Sample.pointer_at 1) Sample.ready 1
            (Sample.mesh Sample.ready 1) (ready_reachable Sample.sine) _).
  vm_compute. reflexivity.
Defined.



Lemma changeVolume_keeps_range_witness :
  exists v',
    htmlVideo (exec (changeVolume (-0.35)) Sample.booted) = Some v' /\
    (0 <=? volume v') = true /\ (volume v' <=? 1) = true /\
    ((0 <? volume v') = true ->
     muted v' = false /\
     audioEnabled (exec (changeVolume (-0.35)) Sample.booted) = true).
Proof.
  refine (changeVolume_keeps_range (-0.35) Sample.booted
            (Sample.video Sample.booted) _ _ _ _);
    vm_compute; reflexivity.
Defined.



End Witnesses.
(* ================================================================== *)
(** ** The further theorems at work on the sample page *)
(* ================================================================== *)

Section FurtherWitnesses.

Local Open Scope float_scope.

Lemma ready_page_reports_nothing_witness :
  errors (run Sample.sine Catalog.playlists
            [WindowClick (Sample.pointer_at 2); LoadedData; VolDownClick;
             Ended; Frame 16 (Sample.pointer_at 0); PlayPauseClick;
             LoadClick None]
            Sample.ready)
  = errors Sample.ready.
Proof.
  refine (ready_page_reports_nothing Sample.sine Catalog.playlists
            Catalog.trendingItems _ Sample.ready catalogue_playable _
            (ready_reachable Sample.sine) _ _).
  - discriminate.
  - vm_compute. discriminate.
  - repeat constructor.
Defined.

Lemma changeVolume_rejects_nan_witness :
  exec (changeVolume nan) Sample.ready =
    set_errors
      (("changeVolume"%string, TypeError "volume is not finite")
       :: errors Sample.ready) Sample.ready.
Proof.
  refine (changeVolume_rejects_nan nan Sample.ready
            (Sample.video Sample.ready) _ _); vm_compute; reflexivity.
Defined.

Lemma seekBy_refuses_bad_targets_witness :
  let v := Sample.video Sample.midway in
  (is_nan (currentTime v) = true -> exec (seekBy nan) Sample.midway = Sample.midway) /\
  (is_nan (currentTime v) = false ->
   is_finite (seek_target (currentTime v) (duration v) nan) = false ->
   exec (seekBy nan) Sample.midway =
     set_errors
       (("Seek"%string, TypeError "currentTime is not finite")
        :: errors Sample.midway) Sample.midway).
Proof.
  refine (seekBy_refuses_bad_targets nan Sample.midway
            (Sample.video Sample.midway) _).
  vm_compute. reflexivity.
Defined.

Lemma unmuting_restores_full_volume_witness :
  let s := Sample.on VolDownClick Sample.browsing in
  let v := Sample.video s in
  let s1 := Sample.on UnmuteClick s in
  let s2 := Sample.on UnmuteClick s1 in
  (muted v || (volume v =? 0) = true ->
   s1 = set_audioEnabled true
          (set_htmlVideo (Some (with_volume 1 (with_muted false v))) s)) /\
  (muted v || (volume v =? 0) = false ->
   s1 = set_htmlVideo (Some (with_muted true v)) s /\
   exists v2,
     htmlVideo s2 = Some v2 /\ muted v2 = false /\ volume v2 = 1 /\
     audioEnabled s2 = true /\ src v2 = src v /\ currentTime v2 = currentTime v).
Proof.
  refine (unmuting_restores_full_volume Sample.sine Catalog.playlists
            (Sample.on VolDownClick Sample.browsing)
            (Sample.video (Sample.on VolDownClick Sample.browsing)) _).
  vm_compute. reflexivity.
Defined.

Lemma audio_stays_enabled_witness :
  audioEnabled (Sample.on UnmuteClick Sample.browsing) = true.
Proof.
  refine (audio_stays_enabled Sample.sine Catalog.playlists UnmuteClick
            Sample.browsing _).
  vm_compute. reflexivity.
Defined.

Lemma only_a_fulfilled_play_sets_isPlaying_witness :
  PlaySettled Fulfilled = PlaySettled Fulfilled /\
  (0 < pendingPlay Sample.ready)%nat.
Proof.
  refine (only_a_fulfilled_play_sets_isPlaying Sample.sine Catalog.playlists
            (PlaySettled Fulfilled) Sample.ready _ _);
    vm_compute; reflexivity.
Defined.

Lemma cards_unmute_once_witness :
  let s := Sample.ready in
  let v := Sample.video Sample.ready in
  let s' := Sample.on (WindowClick (Sample.pointer_at 1)) s in
  exists v',
    htmlVideo s' = Some v' /\ audioEnabled s' = true /\
    (audioEnabled s = false -> muted v' = false /\ volume v' = 1) /\
    (audioEnabled s = true ->
     muted v' = muted v /\ volume v' = volume v).
Proof.
  refine (cards_unmute_once Sample.sine Catalog.playlists
            Catalog.trendingItems Sample.ready (Sample.video Sample.ready) 1
            (Sample.mesh Sample.ready 1) (WindowClick (Sample.pointer_at 1))
            (ready_reachable Sample.sine) _ _ _).
  - vm_compute. reflexivity.
  - vm_compute. reflexivity.
  - apply by_click. reflexivity.
Defined.

Lemma card_clicked_too_early_witness :
  let s' := Sample.on (XRSelect [3%nat]) Sample.booted in
  exists item first rest v',
    userData_item (Sample.mesh Sample.booted 3) = Some item /\
    lookup Catalog.playlists (playlistId item) = Some (first :: rest) /\
    currentPlaylistId s' = Some (playlistId item) /\
    currentPlaylistIndex s' = 0%Z /\
    htmlVideo s' = Some v' /\ src v' = first /\ onended v' = None /\
    errors s' =
      ("playFromPlaylist"%string, TypeError "videoTexture is undefined")
      :: errors Sample.booted /\
    Sample.on Ended s' = s'.
Proof.
  refine (card_clicked_too_early Sample.sine Catalog.playlists
            Catalog.trendingItems Sample.booted 3
            (Sample.mesh Sample.booted 3) (XRSelect [3%nat])
            catalogue_playable (booted_reachable Sample.sine) _ _ _).
  - vm_compute. reflexivity.
  - vm_compute. reflexivity.
  - apply by_select.
Defined.

Lemma playlist_comes_round_witness :
  let c := {| captured_id := JS.lit "music";
              captured_list := [Catalog.sample "ForBiggerJoyrides.mp4";
                                Catalog.sample "ForBiggerBlazes.mp4"] |} in
  let n := Z.of_nat (List.length (captured_list c)) in
  let s' := Nat.iter 2 (Sample.on Ended) Sample.browsing in
  currentPlaylistId s' = Some (captured_id c) /\
  currentPlaylistIndex s' =
    ((currentPlaylistIndex Sample.browsing + Z.of_nat 2) mod n)%Z /\
  (exists v',
     htmlVideo s' = Some v' /\ onended v' = Some c /\
     ((0 < 2)%nat ->
      at_index (captured_list c) (currentPlaylistIndex s') = Some (src v'))) /\
  (Z.of_nat 2 = n ->
   currentPlaylistIndex s' = currentPlaylistIndex Sample.browsing).
Proof.
  refine (playlist_comes_round Sample.sine Catalog.playlists
            Catalog.trendingItems Sample.browsing
            (Sample.video Sample.browsing)
            {| captured_id := JS.lit "music";
               captured_list := [Catalog.sample "ForBiggerJoyrides.mp4";
                                 Catalog.sample "ForBiggerBlazes.mp4"] |}
            2 (browsing_reachable Sample.sine) _ _);
    vm_compute; reflexivity.
Defined.

Lemma loaded_url_is_trimmed_witness :
  let value := JS.lit "  https://example.org/a clip.mp4 " in
  let s' := Sample.on (LoadClick (Some value)) Sample.ready in
  (white value -> s' = Sample.on (LoadClick None) Sample.ready) /\
  (~ white value ->
   exists v' pre post,
     htmlVideo s' = Some v' /\
     value = pre ++ src v' ++ post /\ white pre /\ white post /\
     (forall c rest, src v' = c :: rest -> JS.is_white_space c = false) /\
     (forall c front, src v' = front ++ [c] -> JS.is_white_space c = false)).
Proof.
  exact (loaded_url_is_trimmed Sample.sine Catalog.playlists
           Catalog.trendingItems (JS.lit "  https://example.org/a clip.mp4 ")
           Sample.ready (ready_reachable Sample.sine)).
Defined.

Lemma cards_stay_in_their_row_witness :
  let s := Sample.on (Frame 2000 (Sample.pointer_at 2)) Sample.browsing in
  let startX :=
    - ((JS.of_nat (List.length Catalog.trendingItems) - 1) * spacing) / 2 in
  List.length (panels s) = List.length Catalog.trendingItems /\
  match nth_error Catalog.trendingItems 2 with
  | Some item =>
      exists mesh,
        nth_error (panels s) 2 = Some mesh /\
        userData_item mesh = Some item /\
        x (position mesh) = startX + JS.of_nat 2 * spacing /\
        z (position mesh) = -4 /\
        rotation_y mesh = ((JS.of_nat 2 - 1.5) * 5) * DEG2RAD
  | None => nth_error (panels s) 2 = None
  end.
Proof.
  exact (cards_stay_in_their_row Sample.sine Catalog.playlists
           Catalog.trendingItems
           (Sample.on (Frame 2000 (Sample.pointer_at 2)) Sample.browsing) 2
           (reach_step Sample.sine Catalog.playlists Catalog.trendingItems
              Sample.browsing (Frame 2000 (Sample.pointer_at 2))
              (browsing_reachable Sample.sine))).
Defined.

Lemma playlist_follows_the_card_witness :
  exists item,
    currentItem Sample.browsing = Some item /\
    In item Catalog.trendingItems /\
    playlistId item = JS.lit "music".
Proof.
  refine (playlist_follows_the_card Sample.sine Catalog.playlists
            Catalog.trendingItems Sample.browsing (JS.lit "music")
            catalogue_playable _ (browsing_reachable Sample.sine) _).
  - discriminate.
  - vm_compute. reflexivity.
Defined.

Lemma source_is_under_the_cursor_witness :
  let s := Sample.on Ended Sample.browsing in
  exists list url v,
    lookup Catalog.playlists (JS.lit "music") = Some list /\
    at_index list (currentPlaylistIndex s) = Some url /\
    htmlVideo s = Some v /\
    (JS.nonempty url = true -> src v = url).
Proof.
  refine (source_is_under_the_cursor Sample.sine Catalog.playlists
            Catalog.trendingItems (Sample.on Ended Sample.browsing)
            (JS.lit "music") catalogue_playable _
            (reach_step Sample.sine Catalog.playlists Catalog.trendingItems
               Sample.browsing Ended (browsing_reachable Sample.sine)) _).
  - discriminate.
  - vm_compute. reflexivity.
Defined.

Lemma play_pause_button_witness :
  let s := Sample.booted in
  let v := Sample.video Sample.booted in
  let s1 := Sample.on PlayPauseClick s in
  let s2 := Sample.on PlayPauseClick s1 in
  exists v1,
    htmlVideo s1 = Some v1 /\ isPlaying s1 = false /\
    audioEnabled s1 = true /\
    (audioEnabled s = false -> muted v1 = false /\ volume v1 = 1) /\
    (audioEnabled s = true ->
     muted v1 = muted v /\ volume v1 = volume v) /\
    (isPlaying s = true ->
     paused v1 = true /\ pendingPlay s1 = pendingPlay s) /\
    (isPlaying s = false ->
     paused v1 = false /\ pendingPlay s1 = S (pendingPlay s) /\
     pendingPlay s2 = S (S (pendingPlay s)) /\
     exists v2, htmlVideo s2 = Some v2 /\ paused v2 = false).
Proof.
  refine (play_pause_button Sample.sine Catalog.playlists Sample.booted
            (Sample.video Sample.booted) _).
  vm_compute. reflexivity.
Defined.

Lemma data_arrival_calls_play_witness :
  let s := Sample.browsing in
  let v := Sample.video Sample.browsing in
  let s' := Sample.on LoadedData s in
  htmlVideo s' = Some (with_paused false v) /\
  pendingPlay s' =
    (pendingPlay s + (if onloadeddata v then 2 else 1))%nat /\
  videoTexture s' = Some {| needsUpdate := false |} /\
  isPlaying s' = isPlaying s.
Proof.
  refine (data_arrival_calls_play Sample.sine Catalog.playlists
            Sample.browsing (Sample.video Sample.browsing) _).
  vm_compute. reflexivity.
Defined.

Lemma card_colour_and_title_witness :
  exists rrggbb headline rest,
    strokes (createPanelTexture
               (JS.lit "Top Creator Clips and a great many more of them")
               0x7be0ff) =
      [ fillRect (Colour (JS.lit "#050714")) 1 0 0 1024 512;
        fillRect
          (LinearGradient 0 0 1024 512
             [(0%float, JS.lit "#0c1028"); (1%float, 35%N :: rrggbb)])
          0.9 0 0 1024 512;
        fillText (Colour (JS.lit "#ffffff")) (JS.lit "bold 64px system-ui")
          headline 60 236;
        fillText (Colour (JS.lit "rgba(220,220,255,0.85)"))
          (JS.lit "32px system-ui") (JS.lit "Click or pinch to play")
          60 326 ] /\
    List.length rrggbb = 6%nat /\
    hex_value rrggbb = Some (Z.to_N 0x7be0ff) /\
    JS.lit "Top Creator Clips and a great many more of them"
      = headline ++ rest /\
    (List.length headline = 30%nat \/ rest = []).
Proof.
  refine (card_colour_and_title
            (JS.lit "Top Creator Clips and a great many more of them")
            0x7be0ff _).
  lia.
Defined.


Lemma the_hovered_card_is_the_highlighted_one_witness :
  let s := Sample.on (Frame 2000 (Sample.pointer_at 1)) Sample.ready in
  let mesh := Sample.mesh s 1 in
  (hoveredPanel s = Some 1%nat -> lit_up mesh) /\
  (hoveredPanel s <> Some 1%nat -> plain mesh) /\
  (lit_up mesh <-> hoveredPanel s = Some 1%nat).
Proof.
  refine (the_hovered_card_is_the_highlighted_one Sample.sine
            Catalog.playlists Catalog.trendingItems
            (Sample.on (Frame 2000 (Sample.pointer_at 1)) Sample.ready) 1
            (Sample.mesh
               (Sample.on (Frame 2000 (Sample.pointer_at 1)) Sample.ready) 1)
            (reach_step Sample.sine Catalog.playlists Catalog.trendingItems
               Sample.ready (Frame 2000 (Sample.pointer_at 1))
               (ready_reachable Sample.sine)) _).
  vm_compute. reflexivity.
Defined.

Lemma volume_and_seek_commute_witness :
  Sample.on VolDownClick (Sample.on SeekForwardClick Sample.midway)
  = Sample.on SeekForwardClick (Sample.on VolDownClick Sample.midway).
Proof.
  refine (volume_and_seek_commute Sample.sine Catalog.playlists VolDownClick
            SeekForwardClick Sample.midway (Sample.video Sample.midway)
            _ _ _ _ _); vm_compute; reflexivity.
Defined.

End FurtherWitnesses.

Section RangeWitnesses.

Import Rounding.

Local Open Scope float_scope.

Lemma bobbing_stays_in_range_witness :
  let s' := Sample.on (Frame 100 (Sample.pointer_at 1)) Sample.ready in
  (forall mesh, In mesh (panels s') ->
     within (0.65 - 0.03) (0.65 + 0.03) (y (position mesh)) = true) /\
  (forall ref screen,
     curvedScreen s' = Some ref ->
     nth_error (screens s') ref = Some screen ->
     within (2.1 - 0.05) (2.1 + 0.05) (y (screen_position screen)) = true).
Proof.
  refine (bobbing_stays_in_range Sample.sine Catalog.playlists 100
            (Sample.pointer_at 1) Sample.ready _ _).
  - intros i Hi.
    do 4 (destruct i as [|i]; [vm_compute; reflexivity|]).
    exfalso. vm_compute in Hi. lia.
  - vm_compute. reflexivity.
Defined.

Lemma seek_lands_inside_the_clip_witness :
  exists target,
    exec (seekBy 10) Sample.midway =
      set_htmlVideo
        (Some (with_currentTime target (Sample.video Sample.midway)))
        Sample.midway /\
    within 0 (duration (Sample.video Sample.midway) - 0.1) target = true.
Proof.
  refine (seek_lands_inside_the_clip 10 Sample.midway
            (Sample.video Sample.midway) _ _ _ _ _);
    vm_compute; reflexivity.
Defined.

End RangeWitnesses.
